(** * cg-gnns: explanation and separability engine

    A shallow embedding of
      - [histocartography/interpretability/metric_analysis/metric.py]
        (class [Metric]: per-class pooling, histogram analysis, distance
        matrix, risk matrix, concept score),
      - [hactnet/explain/explain.py] ([explain_cell_graphs]),
      - [cggnn/run.py] (choice of the evaluation split in [run]),
      - [histocartography/evaluation/classification_report.py]
        ([ClassificationReport], [PerClassWeightedF1Score]),
      - [d2_make_interactives.py] (the grouping of the graphs and the
        names taken from the columns),
      - [histocartography/preprocessing/stain_normalizers.py] (brightness
        standardization, optical densities, saving and loading of the
        Macenko normalizer),
    followed by the properties established about them.

    Numbers.  A finite float64 is a rational number, and the values of
    the code are modelled by rationals [Q]; equality of such values is
    [Qeq] ([==]).  The arithmetic comes twice.  Modules [Np], [Metric] and
    [Stain] compute without rounding: their statements are about the
    arithmetic the code writes down.  Module [Float64] holds the same
    code with the operations of the machine as a parameter, so that its
    statements hold whatever the rounding; Part IV is about it.

    Errors.  A Python exception is a [Raise e] result; the sequencing of
    statements is the bind of the error monad.  The code on dictionaries
    and files has its own outcome type, [Done a] or [Fail e], that adds
    [KeyError] and [OSError]. *)

From Stdlib Require Import String.
From Stdlib Require Import DecimalString.
From Stdlib Require Import QArith Qround Qabs Qminmax ZArith List Lia Lqa
  Bool Arith PeanoNat Setoid Morphisms.
Import ListNotations.

Set Implicit Arguments.

(* ===================================================================== *)
(** * Part I.  The model                                                  *)
(* ===================================================================== *)

(** ** Python: exceptions and loops *)

Module Py.

Inductive exn : Type :=
| IndexError
| TypeError
| OverflowError
| ValueError (msg : string)
| UnboundLocalError (name : string)
| RuntimeError (msg : string).

Inductive result (A : Type) : Type :=
| Ok (a : A)
| Raise (e : exn).

Arguments Ok {A} a.
Arguments Raise {A} e.

Definition bind {A B : Type} (c : result A) (k : A -> result B) : result B :=
  match c with
  | Ok a => k a
  | Raise e => Raise e
  end.

(** [for x in xs: s = body x s], stopping at the first exception. *)
Fixpoint for_each {A S : Type} (xs : list A) (body : A -> S -> result S)
         (s : S) : result S :=
  match xs with
  | [] => Ok s
  | x :: rest => bind (body x s) (for_each rest body)
  end.

(** [range(n)] *)
Definition range (n : nat) : list nat := seq 0 n.

(** [xs[i]] for a list and a non-negative index. *)
Definition getitem {A : Type} (xs : list A) (i : nat) : result A :=
  match nth_error xs i with
  | Some x => Ok x
  | None => Raise IndexError
  end.

(** [[f(x) for x in xs]] where [f] may raise. *)
Fixpoint map_m {A B : Type} (f : A -> result B) (xs : list A)
  : result (list B) :=
  match xs with
  | [] => Ok []
  | x :: rest =>
      bind (f x) (fun y => bind (map_m f rest) (fun ys => Ok (y :: ys)))
  end.

End Py.

Import Py.

Declare Scope py_scope.
Delimit Scope py_scope with py.
Notation "x <- c ;; k" := (Py.bind c (fun x => k))
  (at level 61, c at next level, right associativity) : py_scope.
Open Scope py_scope.

(** ** numpy: arrays, reductions, rounding *)

Module Np.

Local Open Scope Q_scope.

(** A C-by-C matrix of floats, row by row. *)
Definition matrix : Type := list (list Q).

(** A 1-D array, or a 2-D array given by its rows (all of one length).
    The shape of [Arr2 rows] is [(length rows, ncols rows)]; [Arr2 []] is
    the empty array of shape [(0, 0)]. *)
Inductive ndarray : Type :=
| Arr1 (v : list Q)
| Arr2 (rows : list (list Q)).

Definition ncols (rows : list (list Q)) : nat :=
  match rows with
  | [] => 0%nat
  | r :: _ => length r
  end.

Definition rectangular (rows : list (list Q)) : Prop :=
  Forall (fun r => length r = ncols rows) rows.

Definition atleast_2d (a : ndarray) : list (list Q) :=
  match a with
  | Arr1 v => [v]
  | Arr2 rows => rows
  end.

(** [str(n)] *)
Definition str (n : nat) : string := NilZero.string_of_uint (Nat.to_uint n).

(** The text of the [ValueError] of [np.concatenate] for two arrays with
    [a] and [b] columns. *)
Definition dimension_mismatch (a b : nat) : string :=
  String.append
    "all the input array dimensions except for the concatenation axis must match exactly, but along dimension 1, the array at index 0 has size "
    (String.append (str a)
       (String.append " and the array at index 1 has size " (str b))).

(** [np.vstack((a, b))]: both promoted to 2-D, the column counts must
    agree. *)
Definition vstack (a b : ndarray) : result ndarray :=
  let ra := atleast_2d a in
  let rb := atleast_2d b in
  if (ncols ra =? ncols rb)%nat then Ok (Arr2 (ra ++ rb))
  else Raise (ValueError (dimension_mismatch (ncols ra) (ncols rb))).

(** [np.zeros(shape=(r, c))], [np.ones(shape=(r, c))] *)
Definition zeros (r c : nat) : matrix := repeat (repeat 0 c) r.
Definition ones (r c : nat) : matrix := repeat (repeat 1 c) r.

(** [M[i, j]] read, with [0] outside the matrix (only used in range). *)
Definition mget (M : matrix) (i j : nat) : Q := nth j (nth i M []) 0.

Fixpoint replace {A : Type} (k : nat) (v : A) (l : list A) : list A :=
  match l, k with
  | [], _ => []
  | _ :: t, O => v :: t
  | h :: t, S k' => h :: replace k' v t
  end.

(** [M[i, j] = v] for non-negative indices. *)
Definition setitem (M : matrix) (i j : nat) (v : Q) : result matrix :=
  match nth_error M i with
  | None => Raise IndexError
  | Some row =>
      if (j <? length row)%nat then Ok (replace i (replace j v row) M)
      else Raise IndexError
  end.

Definition sum_list (l : list Q) : Q := fold_right Qplus 0 l.

(** [np.sum(M)] *)
Definition sum (M : matrix) : Q := sum_list (map sum_list M).

Fixpoint zip_with {A B C : Type} (f : A -> B -> C) (xs : list A)
         (ys : list B) : list C :=
  match xs, ys with
  | x :: xs', y :: ys' => f x y :: zip_with f xs' ys'
  | _, _ => []
  end.

(** [np.multiply(A, B)] for two matrices of one shape. *)
Definition multiply (A B : matrix) : matrix :=
  zip_with (zip_with Qmult) A B.

(** Round half to even, the rule of [np.rint]. *)
Definition rint (q : Q) : Z :=
  let f := Qfloor q in
  match ((q - inject_Z f) ?= (1 # 2))%Q with
  | Lt => f
  | Gt => (f + 1)%Z
  | Eq => if Z.even f then f else (f + 1)%Z
  end.

Definition pow10 (decimals : nat) : Q := inject_Z (10 ^ Z.of_nat decimals).

(** [np.round(q, decimals)] and Python's [round(q, decimals)] on a numpy
    float: scale, round to the nearest integer, scale back, here without
    rounding the product and the quotient ([Float64.round] has them
    rounded). *)
Definition round (q : Q) (decimals : nat) : Q :=
  inject_Z (rint (q * pow10 decimals)) / pow10 decimals.

Definition round_matrix (M : matrix) (decimals : nat) : matrix :=
  map (map (fun q => round q decimals)) M.

(** [math.ceil] *)
Definition ceil (q : Q) : Z := Qceiling q.

(** All entries of an array, and elementwise application. *)
Definition entries (a : ndarray) : list Q :=
  match a with
  | Arr1 v => v
  | Arr2 rows => concat rows
  end.

Definition array_map (f : Q -> Q) (a : ndarray) : ndarray :=
  match a with
  | Arr1 v => Arr1 (map f v)
  | Arr2 rows => Arr2 (map (map f) rows)
  end.

(** The text of the [ValueError] of the reduction [name] over nothing. *)
Definition zero_size (name : string) : string :=
  String.append "zero-size array to reduction operation "
    (String.append name " which has no identity").

(** The reduction of a flat array with the ufunc [name]. *)
Definition reduce (name : string) (op : Q -> Q -> Q) (l : list Q)
  : result Q :=
  match l with
  | [] => Raise (ValueError (zero_size name))
  | x :: rest => Ok (fold_left op rest x)
  end.

(** [np.min(a)], [np.max(a)] over all entries. *)
Definition amin (a : ndarray) : result Q :=
  reduce "minimum" Qmin (entries a).
Definition amax (a : ndarray) : result Q :=
  reduce "maximum" Qmax (entries a).

(** [np.min(x, axis=0)], [np.max(x, axis=0)].  On a 1-D array the result
    is a scalar, on a 2-D array it is the vector of column-wise extrema;
    reducing over zero rows raises. *)
Inductive scalar_or_vector : Type :=
| Scalar (q : Q)
| Vector (v : list Q).

Definition reduce_axis0 (name : string) (op : Q -> Q -> Q) (x : ndarray)
  : result scalar_or_vector :=
  match x with
  | Arr1 v => q <- reduce name op v ;; Ok (Scalar q)
  | Arr2 [] => Raise (ValueError (zero_size name))
  | Arr2 (r :: rest) => Ok (Vector (fold_left (zip_with op) rest r))
  end.

Definition min_axis0 := reduce_axis0 "minimum" Qmin.
Definition max_axis0 := reduce_axis0 "maximum" Qmax.

(** [len(v)] *)
Definition len (v : scalar_or_vector) : result nat :=
  match v with
  | Scalar _ => Raise TypeError
  | Vector l => Ok (length l)
  end.

(** [v[i]] on the result of an axis reduction. *)
Definition item (v : scalar_or_vector) (i : nat) : result Q :=
  match v with
  | Scalar _ => Raise IndexError
  | Vector l => getitem l i
  end.

End Np.

Import Np.

(** ** metric.py: class [Metric] *)

Module Metric.

Local Open Scope Q_scope.

(** [self.n_tumors = len(np.unique(config.tumor_labels))] *)
Definition n_tumors (tumor_labels : list Z) : nat :=
  length (nodup Z.eq_dec tumor_labels).

(** [np.where(self.config.tumor_labels == i)[0]]: the positions holding
    label [i], in increasing order. *)
Definition where_eq (tumor_labels : list Z) (i : nat) : list nat :=
  filter (fun g => (nth g tumor_labels (-1) =? Z.of_nat i)%Z)
         (range (length tumor_labels)).

(** Lines 35-38: [output_ = []; for j in range(len(idx)): output_ +=
    input[idx[j]]]. *)
Definition gather (input : list (list ndarray)) (idx : list nat)
  : result (list ndarray) :=
  for_each (range (length idx))
    (fun j output_ =>
       g <- getitem idx j ;;
       c <- getitem input g ;;
       Ok (output_ ++ c))
    [].

(** Lines 40-44.  [output__] is a local of the whole method: it is
    unbound ([None]) until its first assignment and then keeps its value
    from one class to the next. *)
Definition stack (output_ : list ndarray) (output__ : option ndarray)
  : result (option ndarray) :=
  for_each (range (length output_))
    (fun j output__ =>
       row <- getitem output_ j ;;
       if (j =? 0)%nat then Ok (Some row)
       else match output__ with
            | Some acc => r <- vstack acc row ;; Ok (Some r)
            | None => Raise (UnboundLocalError "output__")
            end)
    output__.

(** Lines 34-45: the body of the loop over the classes.  The loop state
    is [(output, output__)]. *)
Definition merge_class (tumor_labels : list Z)
           (input : list (list ndarray)) (i : nat)
           (st : list ndarray * option ndarray)
  : result (list ndarray * option ndarray) :=
  let idx := where_eq tumor_labels i in
  output_ <- gather input idx ;;
  output__ <- stack output_ (snd st) ;;
  match output__ with
  | Some a => Ok (fst st ++ [a], output__)
  | None => Raise (UnboundLocalError "output__")
  end.

(** Lines 31-46, [merge_concepts_per_tumor_type(self, input)], with
    [self.n_tumors] and [self.config.tumor_labels] as arguments. *)
Definition merge_concepts_per_tumor_type (n_tumors : nat)
           (tumor_labels : list Z) (input : list (list ndarray))
  : result (list ndarray) :=
  st <- for_each (range n_tumors) (merge_class tumor_labels input)
          ([], None) ;;
  Ok (fst st).

(** Lines 49-58, [merge_labels_per_tumor_type(self, input)].  Line 55
    replaces [input[id]] by the list of its elements as arrays; the
    elements are arrays here, so the list is unchanged. *)
Definition merge_labels_per_tumor_type (n_tumors : nat)
           (tumor_labels : list Z) (input : list (list ndarray))
  : result (list (list ndarray)) :=
  for_each (range n_tumors)
    (fun i output =>
       let idx := where_eq tumor_labels i in
       output_ <- for_each idx
                    (fun id output_ =>
                       c <- getitem input id ;;
                       Ok (output_ ++ map (fun x => x) c))
                    [] ;;
       Ok (output ++ [output_]))
    [].

(** Lines 99-104: [x] is the row-stack of all of [input]. *)
Definition stack_all (input : list ndarray) : result ndarray :=
  for_each (range (length input))
    (fun i x =>
       a <- getitem input i ;;
       if (i =? 0)%nat then Ok a else vstack x a)
    (Arr1 []).

(** Lines 112-115: [j = 0; while j <= ctr: bins_.append(lo + j * step);
    j += 1].  The state is [(j, bins_)]; [fuel] bounds the number of
    iterations. *)
Fixpoint while_edges (fuel : nat) (lo step : Q) (ctr : Z)
         (st : Z * list Q) : Z * list Q :=
  match fuel with
  | O => st
  | S fuel' =>
      let (j, bins_) := st in
      if (j <=? ctr)%Z
      then while_edges fuel' lo step ctr
             ((j + 1)%Z, bins_ ++ [lo + inject_Z j * step])
      else st
  end.

(** Lines 110-116 for one dimension, without rounding ([Float64.edges]
    has the operations rounded).  A zero [step] makes the quotient
    infinite or undefined, and [math.ceil] raises on both. *)
Definition edges (lo hi step : Q) : result (list Q) :=
  if Qeq_bool step 0 then
    if Qeq_bool (hi - lo) 0
    then Raise (ValueError "cannot convert float NaN to integer")
    else Raise OverflowError
  else
    let ctr := ceil ((hi - lo) / step) in
    Ok (snd (while_edges (Z.to_nat (ctr + 1)) lo step ctr (0%Z, []))).

(** Lines 105-116: the bin edges of every dimension. *)
Definition bin_edges (x : ndarray) (step : Q) : result (list (list Q)) :=
  minm <- min_axis0 x ;;
  maxm <- max_axis0 x ;;
  d <- len minm ;;
  for_each (range d)
    (fun i bins =>
       lo <- item minm i ;;
       hi <- item maxm i ;;
       bins_ <- edges lo hi step ;;
       Ok (bins ++ [bins_]))
    [].

(** Lines 99-116: the bin edges [histogram_analysis] computes once, from
    the stack [x] of all of [input], and then uses for every class. *)
Definition shared_bins (input : list ndarray) (step : Q)
  : result (list (list Q)) :=
  x <- stack_all input ;;
  bin_edges x step.

(** [np.inf], [-np.inf] and the finite floats. *)
Inductive ext : Type :=
| NegInf
| Fin (q : Q)
| PosInf.

Definition Qlt_bool (x y : Q) : bool := negb (Qle_bool y x).

(** [q < m] and [q > m] for a float [q] and a running extremum [m]. *)
Definition lt_ext (q : Q) (m : ext) : bool :=
  match m with
  | NegInf => false
  | Fin x => Qlt_bool q x
  | PosInf => true
  end.

Definition gt_ext (q : Q) (m : ext) : bool :=
  match m with
  | NegInf => true
  | Fin x => Qlt_bool x q
  | PosInf => false
  end.

(** Lines 124-130: the running minimum and maximum over all histograms. *)
Definition scan_min_max (count : list ndarray) : result (ext * ext) :=
  for_each (range (length count))
    (fun i (mm : ext * ext) =>
       c <- getitem count i ;;
       lo <- amin c ;;
       let minm := if lt_ext lo (fst mm) then Fin lo else fst mm in
       hi <- amax c ;;
       let maxm := if gt_ext hi (snd mm) then Fin hi else snd mm in
       Ok (minm, maxm))
    (PosInf, NegInf).

(** Lines 124-136.  With both extrema still infinite the difference is
    [-inf], which is not [0], and the loop of line 133 runs over the
    histograms; that happens only when there is none
    (see [scan_infinite_only_empty]). *)
Definition normalize (count : list ndarray) : result (list ndarray) :=
  mm <- scan_min_max count ;;
  match mm with
  | (Fin minm, Fin maxm) =>
      if negb (Qeq_bool (maxm - minm) 0)
      then Ok (map (array_map (fun v => (v - minm) / (maxm - minm))) count)
      else Ok count
  | _ => Ok count
  end.

Section Collaborators.

(** [np.histogramdd(a, bins=bins, density=True)[0]] *)
Variable histogramdd : ndarray -> list (list Q) -> result ndarray.

(** [self.dist.distance(a, b, metric='euclidean')]; class [Distance]
    lives in a module that is not part of the sources. *)
Variable dist : ndarray -> ndarray -> Q.

(** Lines 97-136, [histogram_analysis(self, input, step)]. *)
Definition histogram_analysis (input : list ndarray) (step : Q)
  : result (list ndarray) :=
  bins <- shared_bins input step ;;
  count <- map_m (fun a => histogramdd a bins) input ;;
  normalize count.

(** Lines 60-95, [histogram_analysis_per_concept(self, input, step)]: the
    bin edges of each array of [input] come from that array alone, and the
    histograms built so far are normalized again after each array.  No
    method of the class calls it. *)
Definition histogram_analysis_per_concept (input : list ndarray) (step : Q)
  : result (list ndarray) :=
  for_each input
    (fun x count =>
       bins <- bin_edges x step ;;
       H <- histogramdd x bins ;;
       normalize (count ++ [H]))
    [].

(** Lines 140-148: the matrix before it is rounded. *)
Definition distance_loop (n_tumors : nat) (input : list ndarray)
  : result matrix :=
  for_each (range (length input))
    (fun i M =>
       for_each (range (length input))
         (fun j M =>
            if negb (i =? j)%nat && (i <? j)%nat then
              a <- getitem input i ;;
              b <- getitem input j ;;
              let score := dist a b in
              M <- setitem M i j score ;;
              setitem M j i score
            else Ok M)
         M)
    (zeros n_tumors n_tumors).

(** Lines 139-149, [get_distance(self, input)]. *)
Definition get_distance (n_tumors : nat) (input : list ndarray)
  : result matrix :=
  M <- distance_loop n_tumors input ;;
  Ok (round_matrix M 4).

(** Lines 152-158, [get_risk(self)]; [ordinal] is the truth value of
    [eval(self.args.risk)]. *)
Definition get_risk (n_tumors : nat) (ordinal : bool) : result matrix :=
  let risk := ones n_tumors n_tumors in
  if ordinal then
    for_each (range n_tumors)
      (fun i risk =>
         for_each (range n_tumors)
           (fun j risk =>
              setitem risk i j
                (inject_Z (Z.abs (Z.of_nat i - Z.of_nat j))))
           risk)
      risk
  else Ok risk.

(** Line 167: [np.sum(np.multiply(distance, risk)) / 2]. *)
Definition weighted_half_sum (distance risk : matrix) : Q :=
  sum (multiply distance risk) / 2.

(** Lines 161-172, [compute_concept_score(self)], with [self.concept],
    [self.n_tumors], [self.args.distance] and [self.args.risk] as
    arguments; the step [0.01] is the decimal here, and the float of that
    literal in [Float64.compute_concept_score]. *)
Definition compute_concept_score (args_distance : string)
           (ordinal : bool) (n_tumors : nat) (concept : list ndarray)
  : result Q :=
  concept <- (if String.eqb args_distance "hist"
              then histogram_analysis concept (1 # 100)
              else Ok concept) ;;
  distance <- get_distance n_tumors concept ;;
  risk <- get_risk n_tumors ordinal ;;
  let score := weighted_half_sum distance risk in
  Ok (round score 4).

End Collaborators.

End Metric.

(** ** explain.py: [explain_cell_graphs] *)

Module Explain.

Section Orchestrator.

Variables DGLGraph CellGraphModel Attributes Grouping DataFrame : Type.

(** The three result tables. *)
Definition tables : Type :=
  (DataFrame * DataFrame * list ((Z * Z) * DataFrame))%type.

(** A call made to one of the three collaborators, with the arguments
    that matter to the caller. *)
Inductive call : Type :=
| CalculateImportance (graphs : list DGLGraph) (explainer_model : string)
| GenerateInteractives (cell_graphs : list DGLGraph)
    (feature_names cell_graph_names : list string)
    (out_directory : string)
| CalculateSeparability (graphs_and_labels : list DGLGraph * list Z)
    (prune_misclassified : bool) (out_directory : option string).

(** How a run ends: normally, with the [ValueError] of line 43, or with
    an exception that escaped a collaborator. *)
Inductive outcome (A : Type) : Type :=
| Returned (a : A)
| ConfigurationError (msg : string)
| Propagated (e : exn).

Arguments Returned {A} a.
Arguments ConfigurationError {A} msg.
Arguments Propagated {A} e.

(** A computation logs the calls it makes, in order. *)
Definition io (A : Type) : Type := (list call * outcome A)%type.

Definition ret {A : Type} (a : A) : io A := ([], Returned a).

Definition raise_ValueError {A : Type} (msg : string) : io A :=
  ([], ConfigurationError msg).

Definition invoke {A : Type} (c : call) (r : result A) : io A :=
  ([c], match r with
        | Ok a => Returned a
        | Raise e => Propagated e
        end).

Definition then_ {A B : Type} (m : io A) (k : A -> io B) : io B :=
  match snd m with
  | Returned a => (fst m ++ fst (k a), snd (k a))
  | ConfigurationError msg => (fst m, ConfigurationError msg)
  | Propagated e => (fst m, Propagated e)
  end.

Variable calculate_importance :
  list DGLGraph -> CellGraphModel -> string -> result (list DGLGraph).
Variable generate_interactives :
  list DGLGraph -> list string -> list string -> string -> result unit.
Variable calculate_separability :
  list DGLGraph * list Z -> CellGraphModel -> Attributes -> list string ->
  bool -> option Grouping -> option DataFrame -> option DataFrame ->
  option string -> result tables.

Definition not_None {A : Type} (o : option A) : bool :=
  match o with
  | Some _ => true
  | None => false
  end.

Definition plots_message : string :=
  "feature_names, cell_graph_names, and out_directory must all be provided to create interactive plots.".

(** Lines 20-48. *)
Definition explain_cell_graphs
           (cell_graphs_and_labels : list DGLGraph * list Z)
           (model : CellGraphModel) (explainer_model : string)
           (attributes : Attributes) (attribute_names : list string)
           (prune_misclassified : bool)
           (concept_grouping : option Grouping)
           (risk patho_prior : option DataFrame)
           (feature_names cell_graph_names : option (list string))
           (out_directory : option string) : io tables :=
  then_ (invoke (CalculateImportance (fst cell_graphs_and_labels)
                                     explainer_model)
                (calculate_importance (fst cell_graphs_and_labels)
                                      model explainer_model))
    (fun cell_graphs =>
  then_ (match out_directory, feature_names, cell_graph_names with
         | Some out, Some fnames, Some gnames =>
             invoke (GenerateInteractives cell_graphs fnames gnames out)
                    (generate_interactives cell_graphs fnames gnames out)
         | _, _, _ =>
             if not_None feature_names || not_None cell_graph_names
             then raise_ValueError plots_message
             else ret tt
         end)
    (fun _ =>
  invoke (CalculateSeparability cell_graphs_and_labels
                                prune_misclassified out_directory)
         (calculate_separability cell_graphs_and_labels model attributes
            attribute_names prune_misclassified concept_grouping risk
            patho_prior out_directory))).

End Orchestrator.

Arguments Returned {A} a.
Arguments ConfigurationError {A} msg.
Arguments Propagated {A} e.
Arguments CalculateImportance {DGLGraph} graphs explainer_model.
Arguments GenerateInteractives {DGLGraph} cell_graphs feature_names
  cell_graph_names out_directory.
Arguments CalculateSeparability {DGLGraph} graphs_and_labels
  prune_misclassified out_directory.

End Explain.

(** ** run.py: the evaluation split chosen by [run] *)

Module Run.

Section Pipeline.

Variable DGLGraph : Type.

(** What [generate_graphs] yields for one graph. *)
Record GraphData : Type := {
  graph : DGLGraph;
  label : Z;
  name : string;
  train_validation_test : string
}.

(** A set is a pair (graphs, labels); the three sets are kept in the
    order (train, validation, test). *)
Definition graph_set : Type := (list DGLGraph * list Z)%type.
Definition three_sets : Type := (graph_set * graph_set * graph_set)%type.

Definition append_to (s : graph_set) (d : GraphData) : graph_set :=
  (fst s ++ [graph d], snd s ++ [label d]).

(** Lines 38-48. *)
Definition sort_into_sets (graphs : list GraphData) : three_sets :=
  fold_left
    (fun (tvt : three_sets) d =>
       let '(tr, va, te) := tvt in
       if String.eqb (train_validation_test d) "validation"
       then (tr, append_to va d, te)
       else if String.eqb (train_validation_test d) "test"
            then (tr, va, append_to te d)
            else (append_to tr d, va, te))
    graphs (([], []), ([], []), ([], [])).

(** [t[i]] on a 3-tuple, negative indices counting from the end. *)
Definition tuple_getitem (t : three_sets) (i : Z) : result graph_set :=
  let '(tr, va, te) := t in
  let k := if (i <? 0)%Z then (i + 3)%Z else i in
  if (k =? 0)%Z then Ok tr
  else if (k =? 1)%Z then Ok va
  else if (k =? 2)%Z then Ok te
  else Raise IndexError.

(** Lines 54-57: the [while] loop from a current [i]; [None] when the
    fuel does not suffice. *)
Fixpoint search (fuel : nat) (tvt : three_sets) (i : Z)
  : option (result Z) :=
  match fuel with
  | O => None
  | S fuel' =>
      match tuple_getitem tvt i with
      | Raise e => Some (Raise e)
      | Ok s =>
          if (length (fst s) =? 0)%nat then
            let i := (i - 1)%Z in
            if (i <? -3)%Z
            then Some (Raise (RuntimeError "all sets created are empty"))
            else search fuel' tvt i
          else Some (Ok i)
      end
  end.

(** Lines 53-58: [i = -1], the loop, [evaluation_set =
    train_validation_test[i]]. *)
Definition evaluation_set (fuel : nat) (tvt : three_sets)
  : option (result graph_set) :=
  match search fuel tvt (-1) with
  | None => None
  | Some (Raise e) => Some (Raise e)
  | Some (Ok i) => Some (tuple_getitem tvt i)
  end.

End Pipeline.

End Run.

Import Metric.

Local Open Scope Q_scope.

(** ** Python: dictionaries, strings, more exceptions *)

Module PyDict.

(** The exceptions of the code below: [KeyError] and [OSError] beside the
    ones of [Py]. *)
Inductive error : Type :=
| KeyError (key : string)
| OSError (path : string)
| Builtin (e : exn).

Inductive outcome (A : Type) : Type :=
| Done (a : A)
| Fail (e : error).

Arguments Done {A} a.
Arguments Fail {A} e.

Definition and_then {A B : Type} (c : outcome A) (k : A -> outcome B)
  : outcome B :=
  match c with
  | Done a => k a
  | Fail e => Fail e
  end.

(** [[f(x) for x in xs]] where [f] may raise. *)
Fixpoint for_all {A B : Type} (f : A -> outcome B) (xs : list A)
  : outcome (list B) :=
  match xs with
  | [] => Done []
  | x :: rest =>
      and_then (f x)
               (fun y => and_then (for_all f rest) (fun ys => Done (y :: ys)))
  end.

(** A [dict] with string keys: its items in insertion order, no key
    twice. *)
Definition dict (V : Type) : Type := list (string * V).

Definition keys {V : Type} (d : dict V) : list string := map fst d.

(** [d[k]] *)
Fixpoint dict_getitem {V : Type} (d : dict V) (k : string) : outcome V :=
  match d with
  | [] => Fail (KeyError k)
  | (k', v) :: rest => if String.eqb k' k then Done v else dict_getitem rest k
  end.

(** [k in d] *)
Definition contains {V : Type} (d : dict V) (k : string) : bool :=
  existsb (fun kv => String.eqb (fst kv) k) d.

(** [del d[k]] *)
Fixpoint delitem {V : Type} (d : dict V) (k : string) : outcome (dict V) :=
  match d with
  | [] => Fail (KeyError k)
  | (k', v) :: rest =>
      if String.eqb k' k then Done rest
      else and_then (delitem rest k) (fun rest' => Done ((k', v) :: rest'))
  end.

(** [d[k] = v]: the value of an existing key is replaced in place, a new
    key goes to the end. *)
Fixpoint dict_setitem {V : Type} (d : dict V) (k : string) (v : V) : dict V :=
  match d with
  | [] => [(k, v)]
  | (k', v') :: rest =>
      if String.eqb k' k then (k', v) :: rest
      else (k', v') :: dict_setitem rest k v
  end.

(** [s[n:]] *)
Fixpoint drop (n : nat) (s : string) : string :=
  match n, s with
  | O, _ => s
  | S n', String _ rest => drop n' rest
  | S _, EmptyString => EmptyString
  end.

(** [s.startswith(p)] *)
Definition startswith (s p : string) : bool := String.prefix p s.

(** The scan of [s.split(sep)] for a non-empty [sep]: [skip] counts the
    characters of the separator occurrence still to pass, [cur] is the
    piece being read. *)
Fixpoint split_scan (sep s : string) (skip : nat) (cur : string)
  : list string :=
  match s with
  | EmptyString => [cur]
  | String c rest =>
      match skip with
      | S k => split_scan sep rest k cur
      | O =>
          if String.prefix sep s
          then cur :: split_scan sep rest (String.length sep - 1) EmptyString
          else split_scan sep rest 0 (String.append cur (String c EmptyString))
      end
  end.

(** [s.split(sep)] *)
Definition split (s sep : string) : outcome (list string) :=
  match sep with
  | EmptyString => Fail (Builtin (ValueError "empty separator"))
  | _ => Done (split_scan sep s 0 EmptyString)
  end.

End PyDict.

Import PyDict.

Declare Scope dict_scope.
Delimit Scope dict_scope with dict.
Notation "x <~ c ;; k" := (PyDict.and_then c (fun x => k))
  (at level 61, c at next level, right associativity) : dict_scope.
Open Scope dict_scope.

(** ** classification_report.py *)

Module Report.

(** A value of the dictionary of [sklearn]'s [classification_report]: the
    row of a class or of an average (a dictionary of scores), or a bare
    number, a Python [float] or a NumPy scalar. *)
Inductive report_value : Type :=
| Row (scores : dict Q)
| Float (q : Q)
| Float64 (q : Q).

(** [val[k]]: a [float] is not subscriptable, a NumPy scalar takes no
    index. *)
Definition subscript (val : report_value) (k : string) : outcome Q :=
  match val with
  | Row scores => dict_getitem scores k
  | Float _ => Fail (Builtin TypeError)
  | Float64 _ => Fail (Builtin IndexError)
  end.

Section Scores.

Variable Logits : Type.

(** [torch.argmax(logits, dim=1)] as a list of class indices. *)
Variable argmax : Logits -> list Z.

(** [sklearn]'s [classification_report(y_true, y_pred, output_dict=True,
    target_names)]. *)
Variable classification_report :
  list Z -> list Z -> option (list string) -> outcome (dict report_value).

(** Lines 12-31, [ClassificationReport.__call__]. *)
Definition ClassificationReport_call (logits : Logits) (labels : list Z)
           (class_name : option (list string))
  : outcome (dict report_value) :=
  let predictions := argmax logits in
  classification_report labels predictions class_name.

(** Lines 40-57, [PerClassWeightedF1Score.__call__]. *)
Definition PerClassWeightedF1Score_call (logits : Logits) (labels : list Z)
           (class_split : string) : outcome (dict Q) :=
  class_name <~ PyDict.split class_split "VS" ;;
  report <~ ClassificationReport_call logits labels (Some class_name) ;;
  per_class <~ for_all
                 (fun kv : string * report_value =>
                    f <~ subscript (snd kv) "f1-score" ;;
                    Done (fst kv, Np.round f 3))
                 report ;;
  per_class <~ delitem per_class "micro avg" ;;
  per_class <~ delitem per_class "macro avg" ;;
  per_class <~ delitem per_class "weighted avg" ;;
  Done per_class.

End Scores.

End Report.

(** ** d2_make_interactives.py *)

Module Interactives.

Section Main.

Variable DGLGraph : Type.

(** What [load_cell_graphs] yields for one graph, as far as the script
    reads it. *)
Record GraphData : Type := {
  graph : DGLGraph;
  name : string;
  specimen : string
}.

(** [graph_groups[key].append(g)] on a [DefaultDict(list)]. *)
Definition append_to_group (groups : dict (list DGLGraph)) (key : string)
           (g : DGLGraph) : dict (list DGLGraph) :=
  match dict_getitem groups key with
  | Done members => dict_setitem groups key (members ++ [g])
  | Fail _ => dict_setitem groups key [g]
  end.

(** Lines 46-51. *)
Definition group_graphs (merge_rois : bool) (cell_graphs_data : list GraphData)
  : dict (list DGLGraph) :=
  fold_left
    (fun groups g =>
       if merge_rois
       then append_to_group groups (specimen g) (graph g)
       else append_to_group groups (name g) (graph g))
    cell_graphs_data [].

(** Lines 55 and 56: [[col[3:] for col in columns if
    col.startswith(prefix)]]. *)
Definition stripped (prefix : string) (columns : list string) : list string :=
  map (PyDict.drop 3) (filter (fun col => startswith col prefix) columns).

(** Lines 45-57: the arguments handed to [generate_interactives]. *)
Definition main (merge_rois : bool) (output_directory : option string)
           (cell_graphs_data : list GraphData) (columns : list string)
  : dict (list DGLGraph) * list string * list string * option string :=
  (group_graphs merge_rois cell_graphs_data,
   stripped "FT_" columns,
   stripped "PH_" columns,
   output_directory).

End Main.

End Interactives.

(** ** stain_normalizers.py *)

Module Stain.

Local Open Scope Q_scope.

(** [np.sort] of a flat array. *)
Fixpoint insert_sorted (x : Q) (l : list Q) : list Q :=
  match l with
  | [] => [x]
  | y :: rest => if Qle_bool x y then x :: l else y :: insert_sorted x rest
  end.

Definition sort (l : list Q) : list Q := fold_right insert_sorted [] l.

(** [np.percentile(a, q)] with the default linear interpolation, on the
    flattened array; [None] is the NaN of an empty array. *)
Definition percentile (a : list Q) (q : Q) : option Q :=
  match a with
  | [] => None
  | _ :: _ =>
      let sorted := sort a in
      let index := q / 100 * inject_Z (Z.of_nat (length a - 1)) in
      let below := Z.to_nat (Qfloor index) in
      let gamma := index - inject_Z (Qfloor index) in
      let lower := nth below sorted 0 in
      let upper := nth (Nat.min (S below) (length a - 1)) sorted 0 in
      Some (lower + gamma * (upper - lower))
  end.

(** [np.clip(x, lo, hi)] *)
Definition clip (x lo hi : Q) : Q := Qmin (Qmax x lo) hi.

(** One pixel of lines 58-61 for the percentile [bound]:
    [np.clip(x * 255.0 / bound, 0, 255).astype(np.uint8)].  With a bound of
    0 a positive pixel becomes infinite and is clipped to 255; a zero
    pixel becomes NaN, whose conversion to an integer is not defined
    ([None]). *)
Definition standardize_pixel (bound x : Q) : option Z :=
  if Qeq_bool bound 0 then
    if Qeq_bool x 0 then None
    else if Qle_bool 0 x then Some 255%Z else Some 0%Z
  else Some (Qfloor (clip (x * 255 / bound) 0 255)).

(** Lines 49-61, [_standardize_brightness(input_image)], the image
    flattened and not empty, with the percentile and the scaling computed
    without rounding ([Float64._standardize_brightness] has
    [np.percentile] and the operations as parameters, and the exception of
    an empty image). *)
Definition _standardize_brightness (input_image : list Q)
  : list (option Z) :=
  match percentile input_image 90 with
  | None => []
  | Some upper_percentile_bound =>
      map (standardize_pixel upper_percentile_bound) input_image
  end.

Section OpticalDensity.

(** [np.log] on a positive number. *)
Variable log : Q -> Q.

(** Lines 64-77, [_RGB_to_OD(input_image)], the image flattened.  The
    zeros are overwritten in the caller's array: the result is the array
    after the call and the optical densities. *)
Definition _RGB_to_OD (input_image : list Q) : list Q * list Q :=
  let mask := map (fun x => Qeq_bool x 0) input_image in
  let input_image :=
    if existsb (fun b => b) mask
    then map (fun x => if Qeq_bool x 0 then 1 else x) input_image
    else input_image in
  (input_image, map (fun x => -1 * log (x / 255)) input_image).

End OpticalDensity.

Section Precomputed.

(** The arrays kept in the HDF5 file. *)
Variable array : Type.

(** An HDF5 file is a dictionary of datasets; the files are held by
    path. *)
Definition h5file : Type := dict array.
Definition files : Type := dict h5file.

(** The fields of a [MacenkoStainNormalizer] that saving and loading
    touch. *)
Record Macenko : Type := {
  save_path : string;
  stain_matrix_target : option array;
  max_C_target : option array
}.

Definition stain_matrix_key : string := "stain_matrix".
Definition max_C_target_key : string := "maxC_target".

(** [file.create_dataset(key, data=data, ...)]; the compression does not
    change what is read back. *)
Definition create_dataset (file : h5file) (key : string)
           (data : option array) : outcome h5file :=
  if PyDict.contains file key
  then Fail (Builtin (ValueError "Unable to create dataset (name already exists)"))
  else match data with
       | None => Fail (Builtin TypeError)
       | Some a => Done (file ++ [(key, a)])
       end.

(** Lines 251-268, [_save_values(self, file)]: the file after the call
    and how the call ended. *)
Definition _save_values (self : Macenko) (file : h5file)
  : h5file * outcome unit :=
  match create_dataset file stain_matrix_key (stain_matrix_target self) with
  | Fail e => (file, Fail e)
  | Done file1 =>
      match create_dataset file1 max_C_target_key (max_C_target self) with
      | Fail e => (file1, Fail e)
      | Done file2 => (file2, Done tt)
      end
  end.

(** Whether [h5py.File(path, "w")] can create or truncate the file: the
    directory of [path] exists and the file may be written. *)
Variable writable : string -> bool.

(** Lines 146-149, [_save_precomputed(self)]: opening fails with an
    [OSError] where no file can be created; otherwise mode ["w"] starts
    from an empty file, which is on disk whatever happens next. *)
Definition _save_precomputed (self : Macenko) (disk : files)
  : files * outcome unit :=
  if writable (save_path self) then
    let (output_file, ended) := _save_values self [] in
    (dict_setitem disk (save_path self) output_file, ended)
  else (disk, Fail (OSError (save_path self))).

(** Lines 242-249, [_load_values(self, file)]: the object after the call
    and how the call ended. *)
Definition _load_values (self : Macenko) (file : h5file)
  : Macenko * outcome unit :=
  match dict_getitem file stain_matrix_key with
  | Fail e => (self, Fail e)
  | Done m =>
      let self1 := {| save_path := save_path self;
                      stain_matrix_target := Some m;
                      max_C_target := max_C_target self |} in
      match dict_getitem file max_C_target_key with
      | Fail e => (self1, Fail e)
      | Done c =>
          ({| save_path := save_path self;
              stain_matrix_target := Some m;
              max_C_target := Some c |}, Done tt)
      end
  end.

(** Lines 141-144, [_load_precomputed(self)]. *)
Definition _load_precomputed (self : Macenko) (disk : files)
  : Macenko * outcome unit :=
  match dict_getitem disk (save_path self) with
  | Fail _ => (self, Fail (OSError (save_path self)))
  | Done input_file => _load_values self input_file
  end.

End Precomputed.

End Stain.

(** ** The same code over the arithmetic of float64 *)

Module Float64.

(** A finite float64 is a rational number.  The operations of the machine
    round their exact result to a float64 again; how they round is left
    open here: a [float_ops] gives the operations the code uses, on finite
    floats with a finite result.  The definitions of [Np] and [Metric]
    above are the ones below taken with the operations [exact], which do
    not round. *)
Record float_ops : Type := {
  add : Q -> Q -> Q;
  sub : Q -> Q -> Q;
  mul : Q -> Q -> Q;
  div : Q -> Q -> Q;
  sum : matrix -> Q
}.

Definition exact : float_ops :=
  {| add := Qplus; sub := Qminus; mul := Qmult; div := Qdiv; sum := Np.sum |}.

(** The float64 that the literal [0.01] of line 163 denotes. *)
Definition step_0_01 : Q := 5764607523034235 # 576460752303423488.

Section Operations.

Variable ops : float_ops.

(** [np.round(q, decimals)], and Python's [round(q, decimals)] on a numpy
    float: the float is multiplied by [10 ** decimals], rounded to the
    nearest whole number, ties to even, and divided by [10 ** decimals]. *)
Definition round (q : Q) (decimals : nat) : Q :=
  div ops (inject_Z (rint (mul ops q (pow10 decimals)))) (pow10 decimals).

Definition round_matrix (M : matrix) (decimals : nat) : matrix :=
  map (map (fun q => round q decimals)) M.

(** [np.multiply(A, B)] for two matrices of one shape. *)
Definition multiply (A B : matrix) : matrix :=
  zip_with (zip_with (mul ops)) A B.

(** Lines 112-115: [j = 0; while j <= ctr: bins_.append(lo + j * step);
    j += 1]. *)
Fixpoint while_edges (fuel : nat) (lo step : Q) (ctr : Z)
         (st : Z * list Q) : Z * list Q :=
  match fuel with
  | O => st
  | S fuel' =>
      let (j, bins_) := st in
      if (j <=? ctr)%Z
      then while_edges fuel' lo step ctr
             ((j + 1)%Z, bins_ ++ [add ops lo (mul ops (inject_Z j) step)])
      else st
  end.

(** Lines 110-116 for one dimension: [ctr = math.ceil((hi - lo) / step)]
    and the loop.  A zero [step] makes the quotient infinite or undefined,
    and [math.ceil] raises on both. *)
Definition edges (lo hi step : Q) : result (list Q) :=
  if Qeq_bool step 0 then
    if Qeq_bool (sub ops hi lo) 0
    then Raise (ValueError "cannot convert float NaN to integer")
    else Raise OverflowError
  else
    let ctr := ceil (div ops (sub ops hi lo) step) in
    Ok (snd (while_edges (Z.to_nat (ctr + 1)) lo step ctr (0%Z, []))).

(** Lines 105-116: the bin edges of every dimension. *)
Definition bin_edges (x : ndarray) (step : Q) : result (list (list Q)) :=
  minm <- min_axis0 x ;;
  maxm <- max_axis0 x ;;
  d <- len minm ;;
  for_each (range d)
    (fun i bins =>
       lo <- item minm i ;;
       hi <- item maxm i ;;
       bins_ <- edges lo hi step ;;
       Ok (bins ++ [bins_]))
    [].

(** Lines 99-116. *)
Definition shared_bins (input : list ndarray) (step : Q)
  : result (list (list Q)) :=
  x <- stack_all input ;;
  bin_edges x step.

(** Lines 124-136. *)
Definition normalize (count : list ndarray) : result (list ndarray) :=
  mm <- scan_min_max count ;;
  match mm with
  | (Fin minm, Fin maxm) =>
      if negb (Qeq_bool (sub ops maxm minm) 0)
      then Ok (map (array_map
                      (fun v => div ops (sub ops v minm) (sub ops maxm minm)))
                   count)
      else Ok count
  | _ => Ok count
  end.

(** [np.histogramdd(a, bins=bins, density=True)[0]] *)
Variable histogramdd : ndarray -> list (list Q) -> result ndarray.

(** [self.dist.distance(a, b, metric='euclidean')] *)
Variable dist : ndarray -> ndarray -> Q.

(** Lines 97-136, [histogram_analysis(self, input, step)]. *)
Definition histogram_analysis (input : list ndarray) (step : Q)
  : result (list ndarray) :=
  bins <- shared_bins input step ;;
  count <- map_m (fun a => histogramdd a bins) input ;;
  normalize count.

(** Lines 139-149, [get_distance(self, input)]. *)
Definition get_distance (n_tumors : nat) (input : list ndarray)
  : result matrix :=
  M <- distance_loop dist n_tumors input ;;
  Ok (round_matrix M 4).

(** Line 167: [np.sum(np.multiply(distance, risk)) / 2]. *)
Definition weighted_half_sum (distance risk : matrix) : Q :=
  div ops (sum ops (multiply distance risk)) 2.

(** Lines 161-172, [compute_concept_score(self)]. *)
Definition compute_concept_score (args_distance : string)
           (ordinal : bool) (n_tumors : nat) (concept : list ndarray)
  : result Q :=
  concept <- (if String.eqb args_distance "hist"
              then histogram_analysis concept step_0_01
              else Ok concept) ;;
  distance <- get_distance n_tumors concept ;;
  risk <- get_risk n_tumors ordinal ;;
  let score := weighted_half_sum distance risk in
  Ok (round score 4).

(** [np.percentile(a, q)]; on an empty array it raises. *)
Variable percentile : list Q -> Q -> result Q.

(** One pixel of lines 58-61 for the percentile [bound]:
    [np.clip(x * 255.0 / bound, 0, 255).astype(np.uint8)]. *)
Definition standardize_pixel (bound x : Q) : option Z :=
  if Qeq_bool bound 0 then
    if Qeq_bool x 0 then None
    else if Qle_bool 0 x then Some 255%Z else Some 0%Z
  else Some (Qfloor (Stain.clip (div ops (mul ops x 255) bound) 0 255)).

(** Lines 49-61 of stain_normalizers.py,
    [_standardize_brightness(input_image)], the image flattened. *)
Definition _standardize_brightness (input_image : list Q)
  : result (list (option Z)) :=
  upper_percentile_bound <- percentile input_image 90 ;;
  Ok (map (standardize_pixel upper_percentile_bound) input_image).

End Operations.

End Float64.

(** ** Vocabulary of the statements *)

(** An r-by-c matrix. *)
Definition shape (r c : nat) (M : matrix) : Prop :=
  length M = r /\ Forall (fun row => length row = c) M.

Definition symmetric (n : nat) (M : matrix) : Prop :=
  forall i j, (i < n)%nat -> (j < n)%nat -> mget M i j == mget M j i.

Definition zero_diagonal (n : nat) (M : matrix) : Prop :=
  forall i, (i < n)%nat -> mget M i i == 0.

(** [|i - j|] as a float. *)
Definition abs_diff (i j : nat) : Q :=
  inject_Z (Z.abs (Z.of_nat i - Z.of_nat j)).

(** [big n f] is the sum of [f 0], ..., [f (n - 1)]. *)
Definition big (n : nat) (f : nat -> Q) : Q := sum_list (map f (range n)).


(** The distance of classes [a] and [b] of [input]. *)
Definition class_distance (dist : ndarray -> ndarray -> Q)
           (input : list ndarray) (a b : nat) : Q :=
  dist (nth a input (Arr1 [])) (nth b input (Arr1 [])).

(** Whether the pair [a < b] has been written once the loops of
    [get_distance] have gone through the pairs before [(k, l)]. *)
Definition written (input : list ndarray) (k l a b : nat) : bool :=
  (b <? length input)%nat && ((a <? k)%nat || ((a =? k)%nat && (b <? l)%nat)).

(** The entry [(i, j)] at that point. *)
Definition partial_entry (dist : ndarray -> ndarray -> Q)
           (input : list ndarray) (k l i j : nat) : Q :=
  match (i ?= j)%nat with
  | Eq => 0
  | Lt => if written input k l i j then class_distance dist input i j else 0
  | Gt => if written input k l j i then class_distance dist input j i else 0
  end.

(** The entry [(i, j)] of the finished, unrounded matrix. *)
Definition pair_entry (dist : ndarray -> ndarray -> Q)
           (input : list ndarray) (i j : nat) : Q :=
  match (i ?= j)%nat with
  | Eq => 0
  | Lt => if (j <? length input)%nat then class_distance dist input i j else 0
  | Gt => if (i <? length input)%nat then class_distance dist input j i else 0
  end.

(** A distance to run the examples with: the Euclidean distance of two
    one-dimensional points, each the first entry of its array. *)
Definition first_entry (a : ndarray) : Q := hd 0 (entries a).

Definition euclidean_1d (a b : ndarray) : Q :=
  Qabs (first_entry a - first_entry b).

(** A histogram routine to run the examples with; it is not called outside
    histogram mode. *)
Definition no_histogram (a : ndarray) (bins : list (list Q))
  : result ndarray := Ok a.

(** What [compute_concept_score] hands to [get_distance]: the pooled rows,
    or their histograms in histogram mode (lines 162-163). *)
Definition representation (histogramdd : ndarray -> list (list Q) -> result ndarray)
           (args_distance : string) (concept : list ndarray)
  : result (list ndarray) :=
  if String.eqb args_distance "hist"
  then histogram_analysis histogramdd concept (1 # 100)
  else Ok concept.

(** All pooled rows of all classes, and one column of a list of rows. *)
Definition all_rows (input : list ndarray) : list (list Q) :=
  flat_map atleast_2d input.

Definition column (d : nat) (rows : list (list Q)) : list Q :=
  map (fun r => nth d r 0) rows.

(** All entries of all arrays. *)
Definition all_entries (arrays : list ndarray) : list Q :=
  flat_map entries arrays.

(** [m] is the least (greatest) element of [l]. *)
Definition is_min (m : Q) (l : list Q) : Prop :=
  In m l /\ forall x, In x l -> m <= x.

Definition is_max (m : Q) (l : list Q) : Prop :=
  In m l /\ forall x, In x l -> x <= m.

(** An array with at least one row, all rows of [D] values. *)
Definition uniform (D : nat) (a : ndarray) : Prop :=
  atleast_2d a <> [] /\ Forall (fun r => length r = D) (atleast_2d a).

(** The edges [lo + j * step] for [j = 0 .. ctr]. *)
Definition edge_list (lo step : Q) (ctr : Z) : list Q :=
  map (fun j => lo + inject_Z (Z.of_nat j) * step)
      (range (Z.to_nat (ctr + 1))).

(** The node arrays of class [i], graph after graph in encounter order. *)
Definition class_nodes (tumor_labels : list Z) (input : list (list ndarray))
           (i : nat) : list ndarray :=
  flat_map (fun g => nth g input []) (where_eq tumor_labels i).


(** The visualization parameters are partially supplied: some of the
    three, not all of them. *)
Definition partially_supplied (feature_names cell_graph_names
                               : option (list string))
           (out_directory : option string) : bool :=
  let a := Explain.not_None feature_names in
  let b := Explain.not_None cell_graph_names in
  let c := Explain.not_None out_directory in
  (a || b || c) && negb (a && b && c).

(** Collaborators to run the orchestrator with: graphs are numbers, the
    importance of a graph is recorded by adding 100 to it, plotting and
    scoring succeed. *)
Definition annotate_example (g : nat) : nat := (g + 100)%nat.

Definition importance_example (graphs : list nat) (model : unit)
           (explainer : string) : result (list nat) :=
  Ok (map annotate_example graphs).

Definition interactives_example (cell_graphs : list nat)
           (feature_names cell_graph_names : list string)
           (out_directory : string) : result unit :=
  Ok tt.

Definition separability_example (graphs_and_labels : list nat * list Z)
           (model : unit) (attributes : unit) (attribute_names : list string)
           (prune_misclassified : bool) (concept_grouping : option unit)
           (risk patho_prior : option unit) (out_directory : option string)
  : result (Explain.tables unit) :=
  Ok (tt, tt, []).

(** [len(s[0]) != 0] for a set [s] of [run]. *)
Definition has_graphs (DGLGraph : Type) (s : Run.graph_set DGLGraph) : bool :=
  negb (length (fst s) =? 0)%nat.


(** The messages of the [ValueError] of [np.min] over nothing and of
    [math.ceil] on a NaN. *)
Definition zero_size_message : string :=
  "zero-size array to reduction operation minimum which has no identity".

Definition nan_message : string := "cannot convert float NaN to integer".

(** An importance computation that fails, to run the orchestrator with. *)
Definition importance_failing (graphs : list nat) (model : unit)
           (explainer : string) : result (list nat) :=
  Raise (ValueError "unknown explainer").

(** The graphs of [run] whose split field satisfies [keep], as a set:
    their graphs and their labels, in the order of [generate_graphs]. *)
Definition collect (DGLGraph : Type) (keep : string -> bool)
           (graphs : list (Run.GraphData DGLGraph)) : Run.graph_set DGLGraph :=
  (map (@Run.graph DGLGraph)
       (filter (fun d => keep (Run.train_validation_test d)) graphs),
   map (@Run.label DGLGraph)
       (filter (fun d => keep (Run.train_validation_test d)) graphs)).

Definition is_validation (split : string) : bool := String.eqb split "validation".

Definition is_test (split : string) : bool := String.eqb split "test".

(** Anything else, the string ["train"] or not, counts as training. *)
Definition is_train (split : string) : bool :=
  negb (is_validation split) && negb (is_test split).

(** The three average rows of the report. *)
Definition averages : list string :=
  ["micro avg"%string; "macro avg"%string; "weighted avg"%string].

Definition is_average (key : string) : bool :=
  existsb (String.eqb key) averages.

(** The F1 score of a row of the report, 0 when there is none. *)
Definition f1_of (val : Report.report_value) : Q :=
  match val with
  | Report.Row scores =>
      match dict_getitem scores "f1-score" with
      | Done f => f
      | Fail _ => 0
      end
  | Report.Float _ | Report.Float64 _ => 0
  end.

Definition has_f1 (val : Report.report_value) : Prop :=
  exists scores f, val = Report.Row scores /\
                   dict_getitem scores "f1-score" = Done f.

(** What the comprehension of [PerClassWeightedF1Score] makes of an item
    of the report. *)
Definition rounded_f1 (kv : string * Report.report_value) : string * Q :=
  (fst kv, Np.round (f1_of (snd kv)) 3).

(** A report of two classes, in the three shapes that [sklearn] has given
    it: with the three averages, without the micro average, and with the
    accuracy as a bare number in its place. *)
Definition scores_example (p r f : Q) : Report.report_value :=
  Report.Row [("precision"%string, p); ("recall"%string, r);
              ("f1-score"%string, f); ("support"%string, 2)].

Definition class_rows_example : dict Report.report_value :=
  [("benign"%string, scores_example 1 (1 # 2) (2 # 3));
   ("malignant"%string, scores_example (2 # 3) 1 (4 # 5))].

Definition average_rows_example : dict Report.report_value :=
  [("macro avg"%string, scores_example (5 # 6) (3 # 4) (11 # 15));
   ("weighted avg"%string, scores_example (5 # 6) (3 # 4) (11 # 15))].

Definition report_example : dict Report.report_value :=
  class_rows_example
    ++ ("micro avg"%string, scores_example (3 # 4) (3 # 4) (3 # 4))
    :: average_rows_example.

Definition report_without_micro_example : dict Report.report_value :=
  class_rows_example ++ average_rows_example.

Definition report_with_accuracy_example : dict Report.report_value :=
  class_rows_example
    ++ ("accuracy"%string, Report.Float64 (3 # 4)) :: average_rows_example.

Definition argmax_example (logits : list (Q * Q)) : list Z :=
  map (fun row => if Qle_bool (snd row) (fst row) then 0%Z else 1%Z) logits.

Definition report_of_example (report : dict Report.report_value)
           (y_true y_pred : list Z) (target_names : option (list string))
  : outcome (dict Report.report_value) :=
  Done report.

(** What operations that return the float nearest to the exact result
    keep of the exact operations: an exact result of 0 stays 0, and a
    larger operand never gives a smaller result. *)
Definition monotone_rounding (ops : Float64.float_ops) : Prop :=
  (forall y, Float64.mul ops 0 y == 0) /\
  (forall y, 0 < y -> Float64.div ops 0 y == 0) /\
  (forall x, Float64.sub ops x x == 0) /\
  (forall x x' y, x <= x' -> 0 <= y ->
                  Float64.mul ops x y <= Float64.mul ops x' y) /\
  (forall x x' y, x <= x' -> 0 < y ->
                  Float64.div ops x y <= Float64.div ops x' y) /\
  (forall x y y', y <= y' -> Float64.add ops x y <= Float64.add ops x y') /\
  (forall x x' y, x <= x' -> Float64.sub ops x y <= Float64.sub ops x' y).

(** The edges [lo + j * step] for [j = 0 .. ctr], in the arithmetic of
    the floats. *)
Definition float_edge_list (ops : Float64.float_ops) (lo step : Q) (ctr : Z)
  : list Q :=
  map (fun j => Float64.add ops lo
                  (Float64.mul ops (inject_Z (Z.of_nat j)) step))
      (range (Z.to_nat (ctr + 1))).

(** What [compute_concept_score] hands to [get_distance], in the
    arithmetic of the floats. *)
Definition float_representation (ops : Float64.float_ops)
           (histogramdd : ndarray -> list (list Q) -> result ndarray)
           (args_distance : string) (concept : list ndarray)
  : result (list ndarray) :=
  if String.eqb args_distance "hist"
  then Float64.histogram_analysis ops histogramdd concept Float64.step_0_01
  else Ok concept.

(** A percentile to run the examples with: the one of [Stain], which
    interpolates without rounding. *)
Definition percentile_example (a : list Q) (q : Q) : result Q :=
  match Stain.percentile a q with
  | Some p => Ok p
  | None => Raise IndexError
  end.

(** A disk on which every path can be written, to run the examples
    with. *)
Definition writable_example (path : string) : bool := true.

(** The key under which the script files a graph, and the graphs filed
    under a key. *)
Definition group_key (DGLGraph : Type) (merge_rois : bool)
           (g : Interactives.GraphData DGLGraph) : string :=
  if merge_rois then Interactives.specimen g else Interactives.name g.

Definition members (DGLGraph : Type) (merge_rois : bool) (key : string)
           (data : list (Interactives.GraphData DGLGraph)) : list DGLGraph :=
  map (@Interactives.graph DGLGraph)
      (filter (fun g => String.eqb (group_key merge_rois g) key) data).

(* ===================================================================== *)
(** * Part II.  Properties                                                *)
(* ===================================================================== *)

Ltac nat_cases :=
  repeat match goal with
         | |- context [(?a ?= ?b)%nat] =>
             destruct (Nat.compare_spec a b); try lia
         | |- context [(?a =? ?b)%nat] =>
             destruct (Nat.eqb_spec a b); try lia
         | |- context [(?a <? ?b)%nat] =>
             destruct (Nat.ltb_spec a b); try lia
         end;
  simpl; try subst; try reflexivity; try lia.

(** ** Loops *)

Section LoopFacts.

Variables A S : Type.

(** A counted loop carries an invariant indexed by the number of
    iterations done. *)
Lemma for_each_seq_inv (P : nat -> S -> Prop) (body : nat -> S -> result S) :
  forall n a s,
    P a s ->
    (forall k s0, (a <= k < a + n)%nat -> P k s0 ->
                  exists s1, body k s0 = Ok s1 /\ P (Datatypes.S k) s1) ->
    exists s', for_each (seq a n) body s = Ok s' /\ P (a + n)%nat s'.
Proof.
  induction n as [|n IH]; intros a s Hs Hstep; simpl.
  - exists s. rewrite Nat.add_0_r. auto.
  - destruct (Hstep a s) as [s1 [E1 P1]]; [lia | assumption |].
    rewrite E1. simpl.
    destruct (IH (Datatypes.S a) s1 P1) as [s' [E' P']].
    + intros k s0 Hk. apply Hstep. lia.
    + exists s'. split; [assumption|].
      replace (a + Datatypes.S n)%nat with (Datatypes.S a + n)%nat by lia.
      assumption.
Qed.

Lemma for_range_inv (P : nat -> S -> Prop) (body : nat -> S -> result S) n s :
  P 0%nat s ->
  (forall k s0, (k < n)%nat -> P k s0 ->
                exists s1, body k s0 = Ok s1 /\ P (Datatypes.S k) s1) ->
  exists s', for_each (range n) body s = Ok s' /\ P n s'.
Proof.
  intros H0 Hstep.
  destruct (@for_each_seq_inv P body n 0%nat s H0) as [s' [E H]].
  - intros k s0 Hk. apply Hstep. lia.
  - exists s'. auto.
Qed.

(** Whatever a loop returns, a property that every successful iteration
    preserves still holds. *)
Lemma for_each_preserves (P : S -> Prop) (body : A -> S -> result S) :
  (forall x s0 s1, P s0 -> body x s0 = Ok s1 -> P s1) ->
  forall xs s s', P s -> for_each xs body s = Ok s' -> P s'.
Proof.
  intros Hstep. induction xs as [|x xs IH]; simpl; intros s s' Hs E.
  - inversion E. subst. assumption.
  - destruct (body x s) as [s1|e] eqn:E1; simpl in E; [|discriminate].
    eapply IH; [|exact E]. eapply Hstep; eauto.
Qed.

Lemma for_each_seq_preserves (P : nat -> S -> Prop)
      (body : nat -> S -> result S) :
  forall n a s s',
    P a s ->
    (forall k s0 s1, (a <= k < a + n)%nat -> P k s0 -> body k s0 = Ok s1 ->
                     P (Datatypes.S k) s1) ->
    for_each (seq a n) body s = Ok s' -> P (a + n)%nat s'.
Proof.
  induction n as [|n IH]; intros a s s' Hs Hstep E; simpl in E.
  - inversion E. subst. rewrite Nat.add_0_r. assumption.
  - destruct (body a s) as [s1|e] eqn:E1; simpl in E; [|discriminate].
    replace (a + Datatypes.S n)%nat with (Datatypes.S a + n)%nat by lia.
    apply (IH (Datatypes.S a) s1 s'); [|intros k s0 s2 Hk; apply Hstep; lia|exact E].
    apply (Hstep a s s1); [lia | assumption | assumption].
Qed.

(** An index loop that reads [l[i]] at each step visits the elements of
    [l] in order. *)
Lemma for_each_index_shift (f : nat -> A -> S -> result S) :
  forall (l pre : list A) s,
    for_each (seq (length pre) (length l))
             (fun i s0 => x <- getitem (pre ++ l) i ;; f i x s0) s
    = for_each (combine (seq (length pre) (length l)) l)
               (fun p s0 => f (fst p) (snd p) s0) s.
Proof.
  induction l as [|a l IH]; intros pre s; simpl; [reflexivity|].
  unfold getitem at 1.
  rewrite nth_error_app2 by lia. rewrite Nat.sub_diag. simpl.
  destruct (f (length pre) a s) as [s1|e]; simpl; [|reflexivity].
  specialize (IH (pre ++ [a]) s1).
  rewrite length_app in IH. simpl in IH.
  rewrite Nat.add_1_r in IH. rewrite <- app_assoc in IH. simpl in IH.
  exact IH.
Qed.

Lemma for_each_index (f : nat -> A -> S -> result S) (l : list A) s :
  for_each (range (length l)) (fun i s0 => x <- getitem l i ;; f i x s0) s
  = for_each (combine (range (length l)) l)
             (fun p s0 => f (fst p) (snd p) s0) s.
Proof. exact (for_each_index_shift f l [] s). Qed.

End LoopFacts.

Lemma getitem_nth (A : Type) (l : list A) (i : nat) (d : A) :
  (i < length l)%nat -> getitem l i = Ok (nth i l d).
Proof.
  intros H. unfold getitem.
  rewrite (nth_error_nth' l d H). reflexivity.
Qed.

(** ** Matrices *)


Lemma replace_length (A : Type) (k : nat) (v : A) (l : list A) :
  length (replace k v l) = length l.
Proof.
  revert k. induction l as [|h t IH]; intros [|k]; simpl; auto.
Qed.

Lemma nth_replace (A : Type) (k i : nat) (v d : A) (l : list A) :
  (k < length l)%nat ->
  nth i (replace k v l) d = if (i =? k)%nat then v else nth i l d.
Proof.
  revert k i. induction l as [|h t IH]; intros k i Hk; simpl in Hk; [lia|].
  destruct k as [|k]; destruct i as [|i]; simpl; auto.
  apply IH. lia.
Qed.

Lemma Forall_replace (A : Type) (P : A -> Prop) (k : nat) (v : A) (l : list A) :
  Forall P l -> P v -> Forall P (replace k v l).
Proof.
  intros Hl Hv. revert k.
  induction Hl as [|h t Hh Ht IH]; intros [|k]; simpl; auto.
Qed.

Lemma shape_row (r c : nat) (M : matrix) (i : nat) :
  shape r c M -> (i < r)%nat -> length (nth i M []) = c.
Proof.
  intros [Hl Hf] Hi. rewrite Forall_forall in Hf.
  apply Hf. apply nth_In. lia.
Qed.

(** Writing an entry inside the matrix succeeds, keeps the shape and
    changes that entry only. *)
Lemma setitem_spec (r c : nat) (M : matrix) (i j : nat) (v : Q) :
  shape r c M -> (i < r)%nat -> (j < c)%nat ->
  exists M', setitem M i j v = Ok M' /\ shape r c M' /\
             forall i' j', mget M' i' j' =
                           if ((i' =? i) && (j' =? j))%nat then v
                           else mget M i' j'.
Proof.
  intros HM Hi Hj.
  pose proof (shape_row HM Hi) as Hrow.
  destruct HM as [Hl Hf].
  unfold setitem.
  assert (Hi' : (i < length M)%nat) by lia.
  rewrite (nth_error_nth' M [] Hi').
  assert (Hlt : (j <? length (nth i M []))%nat = true)
    by (apply Nat.ltb_lt; lia).
  rewrite Hlt.
  eexists. split; [reflexivity|]. split.
  - split.
    + rewrite replace_length. assumption.
    + apply Forall_replace; [assumption|].
      rewrite replace_length. assumption.
  - intros i' j'. unfold mget.
    rewrite nth_replace by exact Hi'.
    destruct (Nat.eqb_spec i' i) as [->|Hne]; simpl; [|reflexivity].
    rewrite nth_replace by lia. reflexivity.
Qed.

Lemma shape_repeat (r c : nat) (v : Q) : shape r c (repeat (repeat v c) r).
Proof.
  split.
  - apply repeat_length.
  - apply Forall_forall. intros row Hin.
    apply repeat_spec in Hin. subst. apply repeat_length.
Qed.

Lemma mget_repeat (r c : nat) (v : Q) (i j : nat) :
  (i < r)%nat -> (j < c)%nat -> mget (repeat (repeat v c) r) i j = v.
Proof.
  intros Hi Hj. unfold mget.
  rewrite (nth_repeat_lt (repeat v c) [] Hi).
  apply nth_repeat_lt. assumption.
Qed.

Lemma mget_zeros (r c i j : nat) : mget (zeros r c) i j = 0.
Proof.
  unfold mget, zeros.
  destruct (Nat.lt_ge_cases i r) as [Hi|Hi].
  - rewrite (nth_repeat_lt (repeat 0 c) [] Hi).
    apply nth_repeat.
  - rewrite (nth_overflow (repeat (repeat 0 c) r) [])
      by (rewrite repeat_length; lia).
    destruct j; reflexivity.
Qed.

(** The double loop [for i: for j: M[i, j] = f i j] over an n-by-n matrix
    fills it with [f]. *)
Lemma fill_spec (f : nat -> nat -> Q) (n : nat) (M0 : matrix) :
  shape n n M0 ->
  exists M,
    for_each (range n)
      (fun i M1 => for_each (range n) (fun j M2 => setitem M2 i j (f i j)) M1)
      M0 = Ok M
    /\ shape n n M
    /\ forall i j, (i < n)%nat -> (j < n)%nat -> mget M i j = f i j.
Proof.
  intros H0.
  pose (P := fun (k : nat) (M : matrix) =>
               shape n n M /\
               forall i j, (i < k)%nat -> (j < n)%nat -> mget M i j = f i j).
  destruct (@for_range_inv matrix P
              (fun i M1 => for_each (range n)
                             (fun j M2 => setitem M2 i j (f i j)) M1) n M0)
    as [M [E [Hs Hv]]].
  - split; [assumption|]. intros i j Hi. lia.
  - intros k M1 Hk [Hs1 Hv1].
    pose (R := fun (l : nat) (M : matrix) =>
                 shape n n M /\
                 (forall i j, (i < k)%nat -> (j < n)%nat -> mget M i j = f i j) /\
                 (forall j, (j < l)%nat -> mget M k j = f k j)).
    destruct (@for_range_inv matrix R
                (fun j M2 => setitem M2 k j (f k j)) n M1)
      as [M2 [E2 [Hs2 [Hv2 Hr2]]]].
    + repeat split; try assumption; try apply Hs1. intros j Hj. lia.
    + intros l M2 Hl [Hs2 [Hv2 Hr2]].
      destruct (setitem_spec (f k l) Hs2 Hk Hl) as [M3 [E3 [Hs3 Hg3]]].
      exists M3. split; [assumption|]. split; [assumption|]. split.
      * intros i j Hi Hj. rewrite Hg3.
        destruct (Nat.eqb_spec i k); [lia|]. simpl. auto.
      * intros j Hj. rewrite Hg3. rewrite Nat.eqb_refl. simpl.
        destruct (Nat.eqb_spec j l) as [->|Hne]; [reflexivity|].
        apply Hr2. lia.
    + exists M2. split; [assumption|]. split; [assumption|].
      intros i j Hi Hj.
      destruct (Nat.eq_dec i k) as [->|Hne]; [apply Hr2; assumption|].
      apply Hv2; [lia|assumption].
  - exists M. auto.
Qed.

(** ** The risk matrix *)


Lemma get_risk_ordinal (n : nat) :
  exists risk, get_risk n true = Ok risk /\ shape n n risk /\
               forall i j, (i < n)%nat -> (j < n)%nat ->
                           mget risk i j = abs_diff i j.
Proof.
  unfold get_risk.
  apply (fill_spec abs_diff). apply shape_repeat.
Qed.

Lemma get_risk_uniform (n : nat) :
  exists risk, get_risk n false = Ok risk /\ shape n n risk /\
               forall i j, (i < n)%nat -> (j < n)%nat -> mget risk i j = 1.
Proof.
  exists (ones n n). split; [reflexivity|]. split.
  - apply shape_repeat.
  - intros i j Hi Hj. apply mget_repeat; assumption.
Qed.

Lemma abs_diff_sym (i j : nat) : abs_diff i j = abs_diff j i.
Proof.
  unfold abs_diff. f_equal.
  rewrite <- Z.abs_opp. f_equal. lia.
Qed.

Lemma abs_diff_diag (i : nat) : abs_diff i i = 0.
Proof. unfold abs_diff. rewrite Z.sub_diag. reflexivity. Qed.

(** Both matrices of [get_risk] are symmetric. *)
Lemma get_risk_symmetric (n : nat) (ordinal : bool) :
  exists risk, get_risk n ordinal = Ok risk /\ shape n n risk /\
               forall i j, (i < n)%nat -> (j < n)%nat ->
                           mget risk i j = mget risk j i.
Proof.
  destruct ordinal.
  - destruct (get_risk_ordinal n) as [risk [E [Hs Hv]]].
    exists risk. split; [assumption|]. split; [assumption|].
    intros i j Hi Hj. rewrite !Hv by assumption. apply abs_diff_sym.
  - destruct (get_risk_uniform n) as [risk [E [Hs Hv]]].
    exists risk. split; [assumption|]. split; [assumption|].
    intros i j Hi Hj. rewrite !Hv by assumption. reflexivity.
Qed.

(** C2, as the code has it.  For every class count [n] and every pair of
    class indices [i], [j] below it, [get_risk] returns an n-by-n matrix
    with [risk[i][j] = |i - j|] in ordinal mode (so its diagonal is 0), and
    with [risk[i][j] = 1] in uniform mode for every pair, the diagonal
    included: the uniform matrix is [np.ones], all ones.  The matrix is a
    function of the class count and the mode alone. *)
Theorem get_risk_entries (n i j : nat) :
  (i < n)%nat -> (j < n)%nat ->
  exists ordinal_risk uniform_risk,
    get_risk n true = Ok ordinal_risk /\
    get_risk n false = Ok uniform_risk /\
    shape n n ordinal_risk /\ shape n n uniform_risk /\
    mget ordinal_risk i j = abs_diff i j /\
    mget ordinal_risk i i = 0 /\
    mget uniform_risk i j = 1 /\
    mget uniform_risk i i = 1.
Proof.
  intros Hi Hj.
  destruct (get_risk_ordinal n) as [ro [Eo [So Vo]]].
  destruct (get_risk_uniform n) as [ru [Eu [Su Vu]]].
  exists ro, ru. repeat split; try assumption; try apply So; try apply Su.
  - apply Vo; assumption.
  - rewrite Vo by assumption. apply abs_diff_diag.
  - apply Vu; assumption.
  - apply Vu; assumption.
Qed.

Lemma get_risk_entries_witness :
  exists ordinal_risk uniform_risk,
    get_risk 3 true = Ok ordinal_risk /\
    get_risk 3 false = Ok uniform_risk /\
    shape 3 3 ordinal_risk /\ shape 3 3 uniform_risk /\
    mget ordinal_risk 0 2 = abs_diff 0 2 /\
    mget ordinal_risk 0 0 = 0 /\
    mget uniform_risk 0 2 = 1 /\
    mget uniform_risk 0 0 = 1.
Proof. apply (@get_risk_entries 3 0 2); lia. Defined.

(** C2 as stated asks for a zero diagonal in both modes; in uniform mode
    the diagonal entry of the one-class matrix is 1. *)
Lemma get_risk_uniform_diagonal_not_zero :
  exists risk, get_risk 1 false = Ok risk /\ ~ mget risk 0 0 == 0.
Proof.
  exists [[1]]. split; [reflexivity|].
  unfold mget. simpl. intros H. discriminate H.
Qed.

(** ** Rounding *)

Lemma rint_comp (x y : Q) : x == y -> rint x = rint y.
Proof.
  intros H. unfold rint.
  rewrite (Qfloor_comp x y H).
  assert (E : (x - inject_Z (Qfloor y) ?= 1 # 2)
              = (y - inject_Z (Qfloor y) ?= 1 # 2)).
  { apply Qcompare_comp; [|reflexivity]. rewrite H. reflexivity. }
  rewrite E. reflexivity.
Qed.

Lemma round_comp (x y : Q) (d : nat) : x == y -> round x d = round y d.
Proof.
  intros H. unfold round.
  rewrite (@rint_comp (x * pow10 d) (y * pow10 d)); [reflexivity|].
  rewrite H. reflexivity.
Qed.

Lemma pow10_pos (d : nat) : 0 < pow10 d.
Proof.
  unfold pow10. replace 0 with (inject_Z 0) by reflexivity.
  rewrite <- Zlt_Qlt. apply Z.pow_pos_nonneg; lia.
Qed.

Lemma rint_floor_or_succ (q : Q) :
  rint q = Qfloor q \/ rint q = (Qfloor q + 1)%Z.
Proof.
  unfold rint.
  destruct (q - inject_Z (Qfloor q) ?= 1 # 2); auto.
  destruct (Z.even (Qfloor q)); auto.
Qed.

Lemma rint_nonneg (q : Q) : 0 <= q -> (0 <= rint q)%Z.
Proof.
  intros H.
  assert (Hf : (0 <= Qfloor q)%Z).
  { change 0%Z with (Qfloor 0). apply Qfloor_resp_le. assumption. }
  destruct (rint_floor_or_succ q) as [-> | ->]; lia.
Qed.

Lemma rint_Z (k : Z) : rint (inject_Z k) = k.
Proof.
  unfold rint. rewrite Qfloor_Z.
  assert (E : (inject_Z k - inject_Z k ?= 1 # 2) = Lt).
  { rewrite <- Qlt_alt. setoid_replace (inject_Z k - inject_Z k) with 0 by ring.
    reflexivity. }
  rewrite E. reflexivity.
Qed.

Lemma round_nonneg (q : Q) (d : nat) : 0 <= q -> 0 <= round q d.
Proof.
  intros H. unfold round.
  pose proof (pow10_pos d) as Hp.
  apply Qle_shift_div_l; [assumption|].
  rewrite Qmult_0_l.
  replace 0 with (inject_Z 0) by reflexivity. rewrite <- Zle_Qle.
  apply rint_nonneg. apply Qmult_le_0_compat; [assumption|].
  apply Qlt_le_weak. assumption.
Qed.

Lemma round_zero (d : nat) : round 0 d == 0.
Proof.
  unfold round.
  rewrite (@rint_comp (0 * pow10 d) (inject_Z 0)) by ring.
  rewrite rint_Z. unfold Qdiv. ring.
Qed.

(** ** Sums over a matrix *)


Lemma sum_list_app (l1 l2 : list Q) :
  sum_list (l1 ++ l2) == sum_list l1 + sum_list l2.
Proof.
  induction l1 as [|a l1 IH]; simpl.
  - ring.
  - rewrite IH. ring.
Qed.

Lemma big_S (n : nat) (f : nat -> Q) : big (S n) f == big n f + f n.
Proof.
  unfold big, range. rewrite seq_S, map_app, sum_list_app. simpl. ring.
Qed.

Lemma big_ext (n : nat) (f g : nat -> Q) :
  (forall i, (i < n)%nat -> f i == g i) -> big n f == big n g.
Proof.
  induction n as [|n IH]; intros H.
  - reflexivity.
  - rewrite !big_S. rewrite IH by (intros i Hi; apply H; lia).
    rewrite (H n) by lia. reflexivity.
Qed.


Lemma big_zero (n : nat) (f : nat -> Q) :
  (forall i, (i < n)%nat -> f i == 0) -> big n f == 0.
Proof.
  induction n as [|n IH]; intros H.
  - reflexivity.
  - rewrite big_S, IH by (intros i Hi; apply H; lia).
    rewrite (H n) by lia. ring.
Qed.

Lemma sum_list_nth (l : list Q) :
  sum_list l == big (length l) (fun i => nth i l 0).
Proof.
  induction l as [|a l IH] using rev_ind.
  - reflexivity.
  - rewrite sum_list_app, length_app. simpl.
    rewrite Nat.add_1_r, big_S.
    rewrite nth_middle. rewrite IH.
    assert (E : big (length l) (fun i => nth i (l ++ [a]) 0)
                == big (length l) (fun i => nth i l 0)).
    { apply big_ext. intros i Hi. rewrite app_nth1 by assumption.
      reflexivity. }
    rewrite E. ring.
Qed.

(** [np.sum] of a matrix is the double sum of its entries. *)
Lemma sum_big (r c : nat) (M : matrix) :
  shape r c M -> sum M == big r (fun i => big c (fun j => mget M i j)).
Proof.
  intros HM. pose proof HM as [Hl Hf]. unfold sum.
  rewrite sum_list_nth, length_map, Hl.
  apply big_ext. intros i Hi.
  change 0 with (sum_list []) at 1. rewrite map_nth.
  rewrite sum_list_nth. rewrite (shape_row HM Hi).
  reflexivity.
Qed.

Lemma zip_with_length (A B C : Type) (f : A -> B -> C) (xs : list A) :
  forall ys, length xs = length ys ->
             length (zip_with f xs ys) = length xs.
Proof.
  induction xs as [|x xs IH]; intros [|y ys] H; simpl in *;
    try discriminate; auto.
Qed.

Lemma nth_zip_with (A B C : Type) (f : A -> B -> C) (da : A) (db : B) (dc : C)
      (xs : list A) :
  forall ys i, length xs = length ys -> (i < length xs)%nat ->
               nth i (zip_with f xs ys) dc = f (nth i xs da) (nth i ys db).
Proof.
  induction xs as [|x xs IH]; intros [|y ys] i H Hi; simpl in *;
    try discriminate; try lia.
  destruct i as [|i]; [reflexivity|].
  apply IH; lia.
Qed.

Lemma multiply_shape (r c : nat) (A B : matrix) :
  shape r c A -> shape r c B -> shape r c (multiply A B).
Proof.
  intros HA HB. pose proof HA as [HlA HfA]. pose proof HB as [HlB HfB].
  unfold multiply. split.
  - rewrite zip_with_length; lia.
  - apply Forall_forall. intros row Hin.
    destruct (In_nth _ _ [] Hin) as [i [Hi Hnth]].
    rewrite zip_with_length in Hi by lia.
    rewrite (nth_zip_with (zip_with Qmult) [] [] []) in Hnth by lia.
    subst row. rewrite zip_with_length.
    + apply (shape_row HA). lia.
    + rewrite (shape_row HA), (shape_row HB) by lia. reflexivity.
Qed.

Lemma mget_multiply (r c : nat) (A B : matrix) (i j : nat) :
  shape r c A -> shape r c B -> (i < r)%nat -> (j < c)%nat ->
  mget (multiply A B) i j = mget A i j * mget B i j.
Proof.
  intros HA HB Hi Hj. pose proof HA as [HlA HfA]. pose proof HB as [HlB HfB].
  unfold mget, multiply.
  rewrite (nth_zip_with (zip_with Qmult) [] [] []) by lia.
  apply nth_zip_with.
  - rewrite (shape_row HA), (shape_row HB) by lia. reflexivity.
  - rewrite (shape_row HA) by lia. assumption.
Qed.




(** ** The distance matrix *)


Section DistanceMatrix.

Variable dist : ndarray -> ndarray -> Q.
Variable input : list ndarray.

Lemma partial_entry_start (i j : nat) : partial_entry dist input 0 0 i j = 0.
Proof. unfold partial_entry, written. nat_cases. Qed.

Lemma partial_entry_next_row (k i j : nat) :
  partial_entry dist input k (length input) i j = partial_entry dist input (S k) 0 i j.
Proof. unfold partial_entry, written. nat_cases. Qed.

Lemma partial_entry_end (i j : nat) :
  partial_entry dist input (length input) 0 i j = pair_entry dist input i j.
Proof. unfold partial_entry, pair_entry, written. nat_cases. Qed.

Lemma partial_entry_skip (k l i j : nat) :
  (l <= k)%nat -> partial_entry dist input k (S l) i j = partial_entry dist input k l i j.
Proof. intros H. unfold partial_entry, written. nat_cases. Qed.

Lemma partial_entry_write (k l i j : nat) :
  (k < l)%nat -> (l < length input)%nat ->
  partial_entry dist input k (S l) i j =
  if ((i =? l) && (j =? k))%nat then class_distance dist input k l
  else if ((i =? k) && (j =? l))%nat then class_distance dist input k l
       else partial_entry dist input k l i j.
Proof. intros H HL. unfold partial_entry, written. nat_cases. Qed.

Lemma distance_loop_spec (n : nat) :
  (length input <= n)%nat ->
  exists M, distance_loop dist n input = Ok M /\ shape n n M /\
            forall i j, mget M i j = pair_entry dist input i j.
Proof.
  intros Hn. unfold distance_loop.
  pose (P := fun (k : nat) (M : matrix) =>
               shape n n M /\ forall i j, mget M i j = partial_entry dist input k 0 i j).
  match goal with
  | |- exists M, for_each _ ?body _ = _ /\ _ =>
      destruct (@for_range_inv matrix P body (length input) (zeros n n))
      as [M [E [Hs Hv]]]
  end.
  - split; [apply shape_repeat|].
    intros i j. rewrite mget_zeros, partial_entry_start. reflexivity.
  - intros k M0 Hk [Hs0 Hv0].
    pose (R := fun (l : nat) (M : matrix) =>
                 shape n n M /\
                 forall i j, mget M i j = partial_entry dist input k l i j).
    match goal with
    | |- exists M, for_each _ ?body _ = _ /\ _ =>
        destruct (@for_range_inv matrix R body (length input) M0)
        as [M1 [E1 [Hs1 Hv1]]]
    end.
    + split; assumption.
    + intros l M1 Hl [Hs1 Hv1].
      destruct (Nat.ltb_spec k l) as [Hkl|Hkl].
      * assert (Hne : (k =? l)%nat = false) by (apply Nat.eqb_neq; lia).
        rewrite Hne. simpl.
        rewrite (getitem_nth input (Arr1 []) Hk).
        rewrite (getitem_nth input (Arr1 []) Hl). simpl.
        destruct (@setitem_spec n n M1 k l (class_distance dist input k l) Hs1) as [M2 [E2 [Hs2 Hg2]]];
          [lia | lia |].
        unfold class_distance in E2. rewrite E2. simpl.
        destruct (@setitem_spec n n M2 l k (class_distance dist input k l) Hs2) as [M3 [E3 [Hs3 Hg3]]];
          [lia | lia |].
        unfold class_distance in E3. rewrite E3.
        exists M3. split; [reflexivity|]. split; [assumption|].
        intros i j. rewrite Hg3, Hg2, Hv1.
        rewrite (partial_entry_write i j Hkl Hl). reflexivity.
      * rewrite andb_false_r.
        exists M1. split; [reflexivity|]. split; [assumption|].
        intros i j. rewrite Hv1. symmetry.
        apply partial_entry_skip. assumption.
    + exists M1. split; [assumption|]. split; [assumption|].
      intros i j. rewrite Hv1. apply partial_entry_next_row.
  - exists M. split; [assumption|]. split; [assumption|].
    intros i j. rewrite Hv. apply partial_entry_end.
Qed.

Lemma pair_entry_sym (i j : nat) : pair_entry dist input i j = pair_entry dist input j i.
Proof. unfold pair_entry. nat_cases. Qed.

Lemma pair_entry_diag (i : nat) : pair_entry dist input i i = 0.
Proof. unfold pair_entry. rewrite Nat.compare_refl. reflexivity. Qed.

Lemma pair_entry_nonneg (i j : nat) :
  (forall a b, 0 <= dist a b) -> 0 <= pair_entry dist input i j.
Proof.
  intros H. unfold pair_entry.
  destruct (i ?= j)%nat; [discriminate | |].
  - destruct (j <? length input)%nat; [apply H | discriminate].
  - destruct (i <? length input)%nat; [apply H | discriminate].
Qed.

Lemma mget_round_matrix (n : nat) (M : matrix) (i j : nat) :
  shape n n M -> (i < n)%nat -> (j < n)%nat ->
  mget (round_matrix M 4) i j = round (mget M i j) 4.
Proof.
  intros HM Hi Hj. pose proof HM as [Hl Hf]. unfold mget, round_matrix.
  rewrite (nth_indep (map _ M) [] (map (fun q => round q 4) []))
    by (rewrite length_map; lia).
  rewrite (map_nth (map (fun q => round q 4))).
  rewrite (nth_indep (map _ _) 0 (round 0 4))
    by (rewrite length_map, (shape_row HM Hi); assumption).
  rewrite (map_nth (fun q => round q 4)). reflexivity.
Qed.

Lemma round_matrix_shape (n : nat) (M : matrix) :
  shape n n M -> shape n n (round_matrix M 4).
Proof.
  intros [Hl Hf]. unfold round_matrix. split.
  - rewrite length_map. assumption.
  - apply Forall_map. rewrite Forall_forall in *.
    intros row Hin. rewrite length_map. auto.
Qed.

(** [get_distance] returns, and every entry is the rounded distance of
    its pair. *)
Lemma get_distance_spec (n : nat) :
  (length input <= n)%nat ->
  exists M, get_distance dist n input = Ok M /\ shape n n M /\
            forall i j, (i < n)%nat -> (j < n)%nat ->
                        mget M i j = round (pair_entry dist input i j) 4.
Proof.
  intros Hn. unfold get_distance.
  destruct (distance_loop_spec Hn) as [M [E [Hs Hv]]].
  rewrite E. simpl.
  exists (round_matrix M 4). split; [reflexivity|].
  split; [apply round_matrix_shape; assumption|].
  intros i j Hi Hj. rewrite (mget_round_matrix Hs Hi Hj), Hv. reflexivity.
Qed.

End DistanceMatrix.

(** ** Distance matrix, risk matrix and score together *)

Section Score.

Variable histogramdd : ndarray -> list (list Q) -> result ndarray.
Variable dist : ndarray -> ndarray -> Q.

Lemma get_distance_symmetric (n : nat) (input : list ndarray) (M : matrix) :
  (length input <= n)%nat -> get_distance dist n input = Ok M ->
  shape n n M /\ symmetric n M /\ zero_diagonal n M.
Proof.
  intros Hn E.
  destruct (get_distance_spec dist input Hn) as [M' [E' [Hs Hv]]].
  rewrite E in E'. inversion E'. subst M'.
  split; [assumption|]. split.
  - intros i j Hi Hj. rewrite !Hv by assumption.
    rewrite (pair_entry_sym dist input i j). reflexivity.
  - intros i Hi. rewrite Hv by assumption.
    rewrite pair_entry_diag. apply round_zero.
Qed.

Lemma get_distance_nonneg (n : nat) (input : list ndarray) (M : matrix) :
  (forall a b, 0 <= dist a b) ->
  (length input <= n)%nat -> get_distance dist n input = Ok M ->
  forall i j, (i < n)%nat -> (j < n)%nat -> 0 <= mget M i j.
Proof.
  intros Hd Hn E i j Hi Hj.
  destruct (get_distance_spec dist input Hn) as [M' [E' [Hs Hv]]].
  rewrite E in E'. inversion E'. subst M'.
  rewrite Hv by assumption.
  apply round_nonneg. apply pair_entry_nonneg. assumption.
Qed.

(** The score is computed from the matrix [get_distance] returns. *)
Lemma compute_concept_score_unfold (args_distance : string) (ordinal : bool)
      (n : nat) (concept rep : list ndarray) :
  representation histogramdd args_distance concept = Ok rep ->
  (length rep <= n)%nat ->
  exists distance risk,
    get_distance dist n rep = Ok distance /\
    get_risk n ordinal = Ok risk /\
    shape n n distance /\ shape n n risk /\
    (forall i j, (i < n)%nat -> (j < n)%nat ->
                 mget risk i j = mget risk j i) /\
    compute_concept_score histogramdd dist args_distance ordinal n concept
    = Ok (round (weighted_half_sum distance risk) 4).
Proof.
  intros Hrep Hn.
  destruct (get_distance_spec dist rep Hn) as [distance [Ed [Hsd Hvd]]].
  destruct (get_risk_symmetric n ordinal) as [risk [Er [Hsr Hvr]]].
  exists distance, risk.
  repeat split; try assumption; try apply Hsd; try apply Hsr.
  unfold compute_concept_score.
  unfold representation in Hrep. rewrite Hrep. simpl.
  rewrite Ed. simpl. rewrite Er. reflexivity.
Qed.

End Score.

(** C8.  For every pooled-by-class input with at most [n_tumors] classes
    and every non-negative distance function, [get_distance] returns an
    n-by-n matrix [M] that is symmetric, has a zero diagonal and has no
    negative entry. *)
Theorem get_distance_symmetric_zero_diagonal_nonneg
        (dist : ndarray -> ndarray -> Q) (n : nat) (input : list ndarray) :
  (forall a b, 0 <= dist a b) ->
  (length input <= n)%nat ->
  exists M, get_distance dist n input = Ok M /\
            shape n n M /\ symmetric n M /\ zero_diagonal n M /\
            forall i j, (i < n)%nat -> (j < n)%nat -> 0 <= mget M i j.
Proof.
  intros Hd Hn.
  destruct (get_distance_spec dist input Hn) as [M [E [Hs Hv]]].
  exists M. split; [assumption|].
  destruct (@get_distance_symmetric dist n input M Hn E) as [_ [Hsym Hdiag]].
  repeat split; try assumption; try apply Hs.
  apply (@get_distance_nonneg dist n input M Hd Hn E).
Qed.

Lemma euclidean_1d_nonneg (a b : ndarray) : 0 <= euclidean_1d a b.
Proof. apply Qabs_nonneg. Qed.

Lemma get_distance_symmetric_zero_diagonal_nonneg_witness :
  exists M, get_distance euclidean_1d 3 [Arr1 [0]; Arr2 [[1]; [5]]; Arr1 [3]]
            = Ok M /\
            shape 3 3 M /\ symmetric 3 M /\ zero_diagonal 3 M /\
            forall i j, (i < 3)%nat -> (j < 3)%nat -> 0 <= mget M i j.
Proof.
  apply (@get_distance_symmetric_zero_diagonal_nonneg euclidean_1d 3).
  - exact euclidean_1d_nonneg.
  - simpl. lia.
Defined.


Lemma shape_2_2 (a b c d : Q) : shape 2 2 [[a; b]; [c; d]].
Proof. split; [reflexivity|]. repeat constructor. Qed.


(** C6 as stated has the score computed from the unrounded distances.
    Three classes at 0, 0.00004 and 0.00008 under uniform risk: the
    unrounded distances 0.00004, 0.00008, 0.00004 give the score 0.0002,
    the code rounds them to 0, 0.0001, 0 first and returns 0.0001. *)
Lemma score_from_unrounded_distances_counterexample :
  exists raw risk score,
    distance_loop euclidean_1d 3
      [Arr1 [0]; Arr1 [4 # 100000]; Arr1 [8 # 100000]] = Ok raw /\
    get_risk 3 false = Ok risk /\
    compute_concept_score no_histogram euclidean_1d "pair" false 3
      [Arr1 [0]; Arr1 [4 # 100000]; Arr1 [8 # 100000]] = Ok score /\
    score == 1 # 10000 /\
    round (weighted_half_sum raw risk) 4 == 2 # 10000 /\
    ~ score == round (weighted_half_sum raw risk) 4.
Proof.
  eexists. eexists. eexists.
  split; [vm_compute; reflexivity|].
  split; [vm_compute; reflexivity|].
  split; [vm_compute; reflexivity|].
  split; [vm_compute; reflexivity|].
  split; [vm_compute; reflexivity|].
  intros H. vm_compute in H. discriminate H.
Qed.

(** ** Bin edges *)

Lemma while_edges_spec (lo step : Q) (ctr : Z) :
  forall fuel j bins_,
    fuel = Z.to_nat (ctr + 1 - j) ->
    while_edges fuel lo step ctr (j, bins_)
    = (Z.max j (ctr + 1),
       bins_ ++ map (fun k => lo + inject_Z (j + Z.of_nat k) * step)
                    (seq 0 fuel)).
Proof.
  induction fuel as [|fuel IH]; intros j bins_ Hf; simpl.
  - rewrite app_nil_r. f_equal. lia.
  - assert (Hle : (j <=? ctr)%Z = true) by (apply Z.leb_le; lia).
    rewrite Hle. rewrite IH by lia.
    f_equal; [lia|].
    rewrite <- app_assoc. simpl. f_equal.
    rewrite Z.add_0_r. f_equal.
    rewrite <- seq_shift, map_map.
    apply map_ext. intros k. do 3 f_equal. lia.
Qed.

(** When the model of the loop stops, the loop condition [j <= ctr] is
    false: the fuel given in [edges] is exactly what the loop needs. *)
Lemma while_edges_exits (lo step : Q) (ctr : Z) :
  (ctr < fst (while_edges (Z.to_nat (ctr + 1)) lo step ctr (0%Z, [])))%Z.
Proof.
  rewrite while_edges_spec by (f_equal; lia). simpl. lia.
Qed.

Lemma edges_spec (lo hi step : Q) :
  0 < step ->
  edges lo hi step = Ok (edge_list lo step (ceil ((hi - lo) / step))).
Proof.
  intros Hs. unfold edges.
  destruct (Qeq_bool step 0) eqn:E.
  - apply Qeq_bool_eq in E. rewrite E in Hs. discriminate.
  - rewrite while_edges_spec by (f_equal; lia). reflexivity.
Qed.

(** ** Extrema *)

Lemma Qmin_cases (x y : Q) : Qmin x y = x \/ Qmin x y = y.
Proof.
  unfold Qmin, GenericMinMax.gmin. destruct (x ?= y); auto.
Qed.

Lemma Qmax_cases (x y : Q) : Qmax x y = x \/ Qmax x y = y.
Proof.
  unfold Qmax, GenericMinMax.gmax. destruct (x ?= y); auto.
Qed.

Lemma fold_min_is_min (l : list Q) :
  forall x, is_min (fold_left Qmin l x) (x :: l).
Proof.
  induction l as [|a l IH]; intros x; simpl.
  - split; [left; reflexivity|].
    intros y [<-|[]]. apply Qle_refl.
  - destruct (IH (Qmin x a)) as [Hin Hle]. split.
    + destruct Hin as [Hin|Hin].
      * destruct (Qmin_cases x a) as [E|E]; rewrite E in *; simpl; tauto.
      * simpl. tauto.
    + intros y Hy.
      assert (H0 : fold_left Qmin l (Qmin x a) <= Qmin x a)
        by (apply Hle; left; reflexivity).
      destruct Hy as [<-|[<-|Hy]].
      * eapply Qle_trans; [exact H0 | apply Q.le_min_l].
      * eapply Qle_trans; [exact H0 | apply Q.le_min_r].
      * apply Hle. right. assumption.
Qed.

Lemma fold_max_is_max (l : list Q) :
  forall x, is_max (fold_left Qmax l x) (x :: l).
Proof.
  induction l as [|a l IH]; intros x; simpl.
  - split; [left; reflexivity|].
    intros y [<-|[]]. apply Qle_refl.
  - destruct (IH (Qmax x a)) as [Hin Hle]. split.
    + destruct Hin as [Hin|Hin].
      * destruct (Qmax_cases x a) as [E|E]; rewrite E in *; simpl; tauto.
      * simpl. tauto.
    + intros y Hy.
      assert (H0 : Qmax x a <= fold_left Qmax l (Qmax x a))
        by (apply Hle; left; reflexivity).
      destruct Hy as [<-|[<-|Hy]].
      * eapply Qle_trans; [apply Q.le_max_l | exact H0].
      * eapply Qle_trans; [apply Q.le_max_r | exact H0].
      * apply Hle. right. assumption.
Qed.

(** Folding rows with a pointwise operation folds each column. *)
Lemma fold_zip_with_column (op : Q -> Q -> Q) (D : nat) :
  forall rest r,
    length r = D -> Forall (fun x => length x = D) rest ->
    length (fold_left (zip_with op) rest r) = D /\
    forall d, (d < D)%nat ->
              nth d (fold_left (zip_with op) rest r) 0
              = fold_left op (column d rest) (nth d r 0).
Proof.
  induction rest as [|a rest IH]; intros r Hr Hrest; simpl.
  - split; [assumption | reflexivity].
  - inversion Hrest as [|? ? Ha Hrest']. subst.
    assert (Hz : length (zip_with op r a) = length r).
    { rewrite zip_with_length; lia. }
    destruct (IH (zip_with op r a) Hz Hrest') as [Hl Hn].
    split; [assumption|].
    intros d Hd. rewrite (Hn d Hd).
    rewrite (nth_zip_with op 0 0 0) by lia. reflexivity.
Qed.

Lemma reduce_axis0_rows (name : string) (op : Q -> Q -> Q) (D : nat)
      (r : list Q) (rest : list (list Q)) :
  Forall (fun x => length x = D) (r :: rest) ->
  exists v, reduce_axis0 name op (Arr2 (r :: rest)) = Ok (Vector v) /\
            length v = D /\
            forall d, (d < D)%nat ->
                      nth d v 0
                      = fold_left op (column d rest) (nth d r 0).
Proof.
  intros H. inversion H as [|? ? Hr Hrest]. subst.
  destruct (@fold_zip_with_column op (length r) rest r eq_refl Hrest)
    as [Hl Hn].
  eexists. split; [reflexivity|]. split; assumption.
Qed.

(** ** The shared stack of all classes *)

Lemma uniform_ncols (D : nat) (a : ndarray) :
  uniform D a -> ncols (atleast_2d a) = D.
Proof.
  intros [Hne Hf]. destruct (atleast_2d a) as [|r rows]; [congruence|].
  inversion Hf. assumption.
Qed.

Lemma vstack_uniform (D : nat) (a b : ndarray) :
  uniform D a -> uniform D b ->
  vstack a b = Ok (Arr2 (atleast_2d a ++ atleast_2d b)) /\
  uniform D (Arr2 (atleast_2d a ++ atleast_2d b)).
Proof.
  intros Ha Hb. unfold vstack.
  rewrite (uniform_ncols Ha), (uniform_ncols Hb), Nat.eqb_refl.
  split; [reflexivity|].
  destruct Ha as [Hna Hfa]. destruct Hb as [Hnb Hfb]. split; simpl.
  - intros H. apply app_eq_nil in H. tauto.
  - apply Forall_app. split; assumption.
Qed.

Lemma stack_tail (D : nat) :
  forall (rest : list ndarray) (k : nat) (x : ndarray),
    uniform D x -> Forall (uniform D) rest -> rest <> [] ->
    for_each (combine (seq (S k) (length rest)) rest)
             (fun (p : nat * ndarray) (x0 : ndarray) =>
                if (fst p =? 0)%nat then Ok (snd p) else vstack x0 (snd p))
             x
    = Ok (Arr2 (atleast_2d x ++ all_rows rest)).
Proof.
  induction rest as [|a rest IH]; intros k x Hx Hrest Hne; [congruence|].
  inversion Hrest as [|? ? Ha Hrest']. subst. simpl.
  destruct (vstack_uniform Hx Ha) as [E U]. rewrite E. simpl.
  destruct rest as [|b rest].
  - simpl. rewrite app_nil_r. reflexivity.
  - rewrite (IH (S k) _ U Hrest') by discriminate.
    simpl. rewrite <- app_assoc. reflexivity.
Qed.

Lemma stack_all_spec (D : nat) (input : list ndarray) :
  Forall (uniform D) input ->
  match input with
  | [] => stack_all input = Ok (Arr1 [])
  | [a] => stack_all input = Ok a
  | _ => stack_all input = Ok (Arr2 (all_rows input))
  end.
Proof.
  intros H. unfold stack_all.
  rewrite (for_each_index
             (fun i a x => if (i =? 0)%nat then Ok a else vstack x a)).
  destruct input as [|a [|b rest]]; try reflexivity.
  inversion H as [|? ? Ha Hrest]. subst.
  change (combine (range (length (a :: b :: rest))) (a :: b :: rest))
    with ((0%nat, a) :: combine (seq 1 (length (b :: rest))) (b :: rest)).
  cbn [for_each fst snd Nat.eqb bind].
  rewrite (@stack_tail D (b :: rest) 0%nat a Ha Hrest) by discriminate.
  reflexivity.
Qed.

Lemma bin_edges_rows (D : nat) (r : list Q) (rest : list (list Q)) (step : Q) :
  0 < step ->
  Forall (fun x => length x = D) (r :: rest) ->
  exists bins,
    bin_edges (Arr2 (r :: rest)) step = Ok bins /\
    length bins = D /\
    forall d, (d < D)%nat ->
      nth d bins [] =
      edge_list (fold_left Qmin (column d rest) (nth d r 0)) step
        (ceil ((fold_left Qmax (column d rest) (nth d r 0)
                - fold_left Qmin (column d rest) (nth d r 0)) / step)).
Proof.
  intros Hstep Hrows.
  destruct (reduce_axis0_rows "minimum" Qmin Hrows) as [v [Ev [Lv Nv]]].
  destruct (reduce_axis0_rows "maximum" Qmax Hrows) as [w [Ew [Lw Nw]]].
  unfold bin_edges, min_axis0, max_axis0.
  rewrite Ev. cbn [bind]. rewrite Ew. cbn [bind len]. rewrite Lv.
  pose (g := fun i : nat =>
               edge_list (nth i v 0) step
                         (ceil ((nth i w 0 - nth i v 0) / step))).
  match goal with
  | |- exists bins, for_each _ ?body _ = _ /\ _ =>
      destruct (@for_range_inv (list (list Q))
                  (fun k bins => bins = map g (seq 0 k)) body D [])
      as [bins [E Hb]]
  end.
  - reflexivity.
  - intros k bins Hk ->. cbn [item].
    rewrite (getitem_nth v 0) by lia.
    rewrite (getitem_nth w 0) by lia. cbn [bind].
    rewrite (edges_spec _ _ Hstep). cbn [bind].
    eexists. split; [reflexivity|].
    rewrite seq_S, map_app. reflexivity.
  - exists bins. split; [assumption|]. subst bins. split.
    + rewrite length_map, length_seq. reflexivity.
    + intros d Hd.
      rewrite (nth_indep _ [] (g 0%nat))
        by (rewrite length_map, length_seq; assumption).
      rewrite map_nth, seq_nth by assumption. simpl. unfold g.
      rewrite (Nv d Hd), (Nw d Hd). reflexivity.
Qed.

Lemma min_le_max (lo hi : Q) (l : list Q) :
  is_min lo l -> is_max hi l -> lo <= hi.
Proof. intros [Hin _] [_ Hmax]. apply Hmax. assumption. Qed.

(** [histogram_analysis_per_concept] differs: it calls [bin_edges] on each
    array by itself, so the edges of an array span that array's own
    range. *)
Remark per_concept_edges_are_local :
  shared_bins [Arr2 [[0]; [1]]; Arr2 [[5]; [6]]] (1 # 1)
  = Ok [[0; 1; 2; 3; 4; 5; 6]] /\
  bin_edges (Arr2 [[5]; [6]]) (1 # 1) = Ok [[5; 6]].
Proof. split; vm_compute; reflexivity. Qed.

(** ** Joint normalization of the histograms *)

Lemma entries_array_map (f : Q -> Q) (a : ndarray) :
  entries (array_map f a) = map f (entries a).
Proof.
  destruct a as [v|rows]; simpl; [reflexivity|].
  symmetry. apply concat_map.
Qed.

Lemma all_entries_map (f : Q -> Q) (count : list ndarray) :
  all_entries (map (array_map f) count) = map f (all_entries count).
Proof.
  unfold all_entries. induction count as [|c count IH]; simpl; [reflexivity|].
  rewrite IH, map_app, entries_array_map. reflexivity.
Qed.

Lemma amin_spec (a : ndarray) :
  entries a <> [] -> exists m, amin a = Ok m /\ is_min m (entries a).
Proof.
  intros H. unfold amin, reduce.
  destruct (entries a) as [|x rest]; [congruence|].
  eexists. split; [reflexivity | apply fold_min_is_min].
Qed.

Lemma amax_spec (a : ndarray) :
  entries a <> [] -> exists m, amax a = Ok m /\ is_max m (entries a).
Proof.
  intros H. unfold amax, reduce.
  destruct (entries a) as [|x rest]; [congruence|].
  eexists. split; [reflexivity | apply fold_max_is_max].
Qed.

Lemma Qlt_bool_true (x y : Q) : Qlt_bool x y = true -> x < y.
Proof.
  unfold Qlt_bool. intros H. apply negb_true_iff in H.
  apply Qnot_le_lt. intros Hle. apply Qle_bool_iff in Hle. congruence.
Qed.

Lemma Qlt_bool_false (x y : Q) : Qlt_bool x y = false -> y <= x.
Proof.
  unfold Qlt_bool. intros H. apply negb_false_iff in H.
  apply Qle_bool_iff. assumption.
Qed.

Lemma is_min_app (a b : Q) (l1 l2 : list Q) :
  is_min a l1 -> is_min b l2 ->
  is_min (if Qlt_bool b a then b else a) (l1 ++ l2).
Proof.
  intros [Ha La] [Hb Lb].
  destruct (Qlt_bool b a) eqn:E.
  - apply Qlt_bool_true in E. split; [apply in_or_app; auto|].
    intros x Hx. apply in_app_or in Hx. destruct Hx as [Hx|Hx]; auto.
    apply Qle_trans with a; [apply Qlt_le_weak; assumption | auto].
  - apply Qlt_bool_false in E. split; [apply in_or_app; auto|].
    intros x Hx. apply in_app_or in Hx. destruct Hx as [Hx|Hx]; auto.
    apply Qle_trans with b; auto.
Qed.

Lemma is_max_app (a b : Q) (l1 l2 : list Q) :
  is_max a l1 -> is_max b l2 ->
  is_max (if Qlt_bool a b then b else a) (l1 ++ l2).
Proof.
  intros [Ha La] [Hb Lb].
  destruct (Qlt_bool a b) eqn:E.
  - apply Qlt_bool_true in E. split; [apply in_or_app; auto|].
    intros x Hx. apply in_app_or in Hx. destruct Hx as [Hx|Hx]; auto.
    apply Qle_trans with a; [auto | apply Qlt_le_weak; assumption].
  - apply Qlt_bool_false in E. split; [apply in_or_app; auto|].
    intros x Hx. apply in_app_or in Hx. destruct Hx as [Hx|Hx]; auto.
    apply Qle_trans with b; auto.
Qed.

Lemma firstn_snoc (A : Type) (d : A) (l : list A) :
  forall k, (k < length l)%nat -> firstn (S k) l = firstn k l ++ [nth k l d].
Proof.
  induction l as [|a l IH]; intros k Hk; simpl in Hk; [lia|].
  destruct k as [|k]; [reflexivity|].
  change (firstn (S (S k)) (a :: l)) with (a :: firstn (S k) l).
  rewrite IH by lia. reflexivity.
Qed.

Lemma all_entries_snoc (l : list ndarray) (c : ndarray) :
  all_entries (l ++ [c]) = all_entries l ++ entries c.
Proof.
  unfold all_entries. rewrite flat_map_app. simpl.
  rewrite app_nil_r. reflexivity.
Qed.

(** The scan ends with the least and the greatest entry of all
    histograms. *)
Lemma scan_min_max_spec (count : list ndarray) :
  count <> [] -> Forall (fun c => entries c <> []) count ->
  exists lo hi, scan_min_max count = Ok (Fin lo, Fin hi) /\
                is_min lo (all_entries count) /\
                is_max hi (all_entries count).
Proof.
  intros Hne Hall. unfold scan_min_max.
  pose (P := fun (k : nat) (mm : ext * ext) =>
               match k with
               | O => mm = (PosInf, NegInf)
               | S _ => exists lo hi,
                          mm = (Fin lo, Fin hi) /\
                          is_min lo (all_entries (firstn k count)) /\
                          is_max hi (all_entries (firstn k count))
               end).
  match goal with
  | |- exists lo hi, for_each _ ?body _ = _ /\ _ =>
      destruct (@for_range_inv (ext * ext) P body (length count)
                               (PosInf, NegInf))
      as [mm [E HP]]
  end.
  - reflexivity.
  - intros k mm Hk HPk.
    rewrite (getitem_nth count (Arr1 []) Hk). cbn [bind].
    assert (Hc : entries (nth k count (Arr1 [])) <> []).
    { rewrite Forall_forall in Hall. apply Hall. apply nth_In. assumption. }
    destruct (@amin_spec _ Hc) as [m [Em Hm]].
    destruct (@amax_spec _ Hc) as [M [EM HM]].
    rewrite Em. cbn [bind]. rewrite EM. cbn [bind].
    eexists. split; [reflexivity|].
    unfold P. rewrite (firstn_snoc (Arr1 []) count Hk), all_entries_snoc.
    destruct k as [|k].
    + unfold P in HPk. subst mm. simpl.
      exists m, M. auto.
    + destruct HPk as [lo [hi [-> [Hlo Hhi]]]]. cbn [fst snd lt_ext gt_ext].
      exists (if Qlt_bool m lo then m else lo),
             (if Qlt_bool hi M then M else hi).
      split; [|split].
      * destruct (Qlt_bool m lo), (Qlt_bool hi M); reflexivity.
      * apply is_min_app; assumption.
      * apply is_max_app; assumption.
  - destruct count as [|c count]; [congruence|].
    unfold P in HP. rewrite firstn_all in HP.
    destruct HP as [lo [hi [-> [Hlo Hhi]]]].
    exists lo, hi. auto.
Qed.

(** The branch of [normalize] with an infinite extremum is taken only when
    there is no histogram. *)
Lemma scan_infinite_only_empty (count : list ndarray) (mm : ext * ext) :
  scan_min_max count = Ok mm ->
  (forall lo hi, mm <> (Fin lo, Fin hi)) -> count = [].
Proof.
  intros E Hinf. destruct count as [|c count]; [reflexivity|]. exfalso.
  unfold scan_min_max in E.
  change (range (length (c :: count))) with (0%nat :: seq 1 (length count)) in E.
  cbn [for_each] in E.
  match type of E with
  | bind ?first _ = _ => destruct first as [s1|e] eqn:E1; [|discriminate]
  end.
  cbn [bind] in E.
  assert (H1 : exists lo hi, s1 = (Fin lo, Fin hi)).
  { cbn [getitem nth_error bind] in E1.
    destruct (amin c) as [m|]; [|discriminate]. cbn [bind] in E1.
    destruct (amax c) as [M|]; [|discriminate]. cbn [bind] in E1.
    inversion E1. simpl. eauto. }
  assert (H2 : exists lo hi, mm = (Fin lo, Fin hi)).
  { eapply (@for_each_preserves nat (ext * ext)
              (fun s => exists lo hi, s = (Fin lo, Fin hi))); [|exact H1|exact E].
    intros k s0 s2 [lo [hi ->]] Hb.
    destruct (getitem (c :: count) k) as [a|]; [|discriminate].
    cbn [bind] in Hb.
    destruct (amin a) as [m|]; [|discriminate]. cbn [bind] in Hb.
    destruct (amax a) as [M|]; [|discriminate]. cbn [bind] in Hb.
    inversion Hb. cbn [fst snd lt_ext gt_ext].
    destruct (Qlt_bool m lo), (Qlt_bool hi M); eauto. }
  destruct H2 as [lo [hi H2]]. apply (Hinf lo hi). assumption.
Qed.

Lemma normalize_spec (count : list ndarray) :
  count <> [] -> Forall (fun c => entries c <> []) count ->
  exists lo hi out,
    is_min lo (all_entries count) /\
    is_max hi (all_entries count) /\
    normalize count = Ok out /\
    (hi == lo -> out = count) /\
    (~ hi == lo ->
     out = map (array_map (fun v => (v - lo) / (hi - lo))) count /\
     (forall v, In v (all_entries out) -> 0 <= v /\ v <= 1) /\
     (exists v, In v (all_entries out) /\ v == 0) /\
     (exists v, In v (all_entries out) /\ v == 1)).
Proof.
  intros Hne Hall.
  destruct (scan_min_max_spec Hne Hall) as [lo [hi [E [Hlo Hhi]]]].
  pose proof (min_le_max Hlo Hhi) as Hle.
  unfold normalize. rewrite E. cbn [bind].
  destruct (Qeq_bool (hi - lo) 0) eqn:Ez; cbn [negb].
  - apply Qeq_bool_eq in Ez.
    exists lo, hi, count.
    split; [assumption|]. split; [assumption|]. split; [reflexivity|].
    split; [intros _; reflexivity|].
    intros Hd. exfalso. apply Hd. lra.
  - apply Qeq_bool_neq in Ez.
    exists lo, hi, (map (array_map (fun v => (v - lo) / (hi - lo))) count).
    split; [assumption|]. split; [assumption|]. split; [reflexivity|].
    split; [intros Heq; exfalso; apply Ez; lra|].
    intros _. split; [reflexivity|].
    assert (Hpos : 0 < hi - lo).
    { destruct (Qlt_le_dec 0 (hi - lo)) as [H|H]; [assumption|].
      exfalso. apply Ez. lra. }
    rewrite all_entries_map. split; [|split].
    + intros v Hv. apply in_map_iff in Hv. destruct Hv as [x [<- Hx]].
      destruct Hlo as [_ Hlo]. destruct Hhi as [_ Hhi].
      pose proof (Hlo x Hx). pose proof (Hhi x Hx). split.
      * apply Qle_shift_div_l; [assumption|]. lra.
      * apply Qle_shift_div_r; [assumption|]. lra.
    + exists ((lo - lo) / (hi - lo)). split.
      * apply (in_map (fun v => (v - lo) / (hi - lo)) _ lo). apply Hlo.
      * unfold Qdiv. ring.
    + exists ((hi - lo) / (hi - lo)). split.
      * apply (in_map (fun v => (v - lo) / (hi - lo)) _ hi). apply Hhi.
      * field. intros H. apply Ez. assumption.
Qed.

(** C4.  Once the per-class histograms [count] are built (at least one,
    none empty), [histogram_analysis] normalizes them jointly with the
    least entry [lo] and the greatest entry [hi] over all classes: when
    [hi] equals [lo] the histograms are returned unchanged; otherwise
    every entry [v] becomes [(v - lo) / (hi - lo)], every output entry
    lies in [[0, 1]], and both 0 and 1 occur among the output entries. *)
Theorem histograms_normalized_jointly
        (histogramdd : ndarray -> list (list Q) -> result ndarray)
        (input : list ndarray) (step : Q)
        (bins : list (list Q)) (count : list ndarray) :
  shared_bins input step = Ok bins ->
  map_m (fun a => histogramdd a bins) input = Ok count ->
  count <> [] ->
  Forall (fun c => entries c <> []) count ->
  exists lo hi out,
    is_min lo (all_entries count) /\
    is_max hi (all_entries count) /\
    histogram_analysis histogramdd input step = Ok out /\
    (hi == lo -> out = count) /\
    (~ hi == lo ->
     out = map (array_map (fun v => (v - lo) / (hi - lo))) count /\
     (forall v, In v (all_entries out) -> 0 <= v /\ v <= 1) /\
     (exists v, In v (all_entries out) /\ v == 0) /\
     (exists v, In v (all_entries out) /\ v == 1)).
Proof.
  intros Hb Hc Hne Hall.
  destruct (normalize_spec Hne Hall) as [lo [hi [out H]]].
  exists lo, hi, out.
  unfold histogram_analysis. rewrite Hb. cbn [bind]. rewrite Hc. cbn [bind].
  exact H.
Qed.

Lemma histograms_normalized_jointly_witness :
  exists lo hi out,
    is_min lo (all_entries [Arr2 [[1]; [2]]; Arr2 [[3]; [5]]]) /\
    is_max hi (all_entries [Arr2 [[1]; [2]]; Arr2 [[3]; [5]]]) /\
    histogram_analysis no_histogram [Arr2 [[1]; [2]]; Arr2 [[3]; [5]]] (1 # 2)
    = Ok out /\
    (hi == lo -> out = [Arr2 [[1]; [2]]; Arr2 [[3]; [5]]]) /\
    (~ hi == lo ->
     out = map (array_map (fun v => (v - lo) / (hi - lo)))
               [Arr2 [[1]; [2]]; Arr2 [[3]; [5]]] /\
     (forall v, In v (all_entries out) -> 0 <= v /\ v <= 1) /\
     (exists v, In v (all_entries out) /\ v == 0) /\
     (exists v, In v (all_entries out) /\ v == 1)).
Proof.
  apply (@histograms_normalized_jointly no_histogram
           [Arr2 [[1]; [2]]; Arr2 [[3]; [5]]] (1 # 2)
           [[2 # 2; 3 # 2; 4 # 2; 5 # 2; 6 # 2; 7 # 2; 8 # 2; 9 # 2; 10 # 2]]
           [Arr2 [[1]; [2]]; Arr2 [[3]; [5]]]).
  - vm_compute. reflexivity.
  - reflexivity.
  - discriminate.
  - repeat constructor; discriminate.
Defined.

(** ** Per-class pooling *)

Lemma where_eq_in_range (tumor_labels : list Z) (i g : nat) :
  In g (where_eq tumor_labels i) -> (g < length tumor_labels)%nat.
Proof.
  unfold where_eq, range. intros H. apply filter_In in H.
  destruct H as [H _]. apply in_seq in H. lia.
Qed.

Lemma gather_loop (input : list (list ndarray)) :
  forall (idx : list nat) (a : nat) (acc : list ndarray),
    (forall g, In g idx -> (g < length input)%nat) ->
    for_each (combine (seq a (length idx)) idx)
             (fun (p : nat * nat) (output_ : list ndarray) =>
                c <- getitem input (snd p) ;; Ok (output_ ++ c))
             acc
    = Ok (acc ++ flat_map (fun g => nth g input []) idx).
Proof.
  induction idx as [|g idx IH]; intros a acc Hin; simpl.
  - rewrite app_nil_r. reflexivity.
  - rewrite (getitem_nth input []) by (apply Hin; left; reflexivity).
    cbn [bind].
    rewrite IH by (intros g' Hg'; apply Hin; right; assumption).
    rewrite app_assoc. reflexivity.
Qed.

Lemma gather_spec (tumor_labels : list Z) (input : list (list ndarray))
      (i : nat) :
  (length tumor_labels <= length input)%nat ->
  gather input (where_eq tumor_labels i)
  = Ok (class_nodes tumor_labels input i).
Proof.
  intros Hlen. unfold gather.
  rewrite (for_each_index
             (fun (j g : nat) (output_ : list ndarray) =>
                c <- getitem input g ;; Ok (output_ ++ c))).
  apply (gather_loop input (where_eq tumor_labels i) 0 []).
  intros g Hg. apply where_eq_in_range in Hg. lia.
Qed.

Lemma stack_rest (D : nat) :
  forall (rest : list ndarray) (k : nat) (x : ndarray),
    uniform D x -> Forall (uniform D) rest ->
    exists x',
      for_each (combine (seq (S k) (length rest)) rest)
               (fun (p : nat * ndarray) (output__ : option ndarray) =>
                  if (fst p =? 0)%nat then Ok (Some (snd p))
                  else match output__ with
                       | Some acc => r <- vstack acc (snd p) ;; Ok (Some r)
                       | None => Raise (UnboundLocalError "output__")
                       end)
               (Some x)
      = Ok (Some x') /\
      atleast_2d x' = atleast_2d x ++ all_rows rest /\
      uniform D x'.
Proof.
  induction rest as [|a rest IH]; intros k x Hx Hrest; simpl.
  - exists x. rewrite app_nil_r. auto.
  - inversion Hrest as [|? ? Ha Hrest']. subst.
    destruct (vstack_uniform Hx Ha) as [E U]. rewrite E. cbn [bind].
    destruct (IH (S k) _ U Hrest') as [x' [E' [R' U']]].
    exists x'. split; [assumption|]. split; [|assumption].
    rewrite R'. simpl. rewrite <- app_assoc. reflexivity.
Qed.

Lemma stack_spec (D : nat) (output_ : list ndarray)
      (output__ : option ndarray) :
  output_ <> [] -> Forall (uniform D) output_ ->
  exists x, stack output_ output__ = Ok (Some x) /\
            atleast_2d x = all_rows output_.
Proof.
  intros Hne Hu. unfold stack.
  rewrite (for_each_index
             (fun (j : nat) (row : ndarray) (cur : option ndarray) =>
                if (j =? 0)%nat then Ok (Some row)
                else match cur with
                     | Some acc => r <- vstack acc row ;; Ok (Some r)
                     | None => Raise (UnboundLocalError "output__")
                     end)).
  destruct output_ as [|a rest]; [congruence|].
  inversion Hu as [|? ? Ha Hrest]. subst.
  change (combine (range (length (a :: rest))) (a :: rest))
    with ((0%nat, a) :: combine (seq 1 (length rest)) rest).
  cbn [for_each fst snd Nat.eqb bind].
  destruct (@stack_rest D rest 0%nat a Ha Hrest) as [x [E [R _]]].
  exists x. split; assumption.
Qed.

Lemma class_nodes_uniform (D : nat) (tumor_labels : list Z)
      (input : list (list ndarray)) (i : nat) :
  Forall (Forall (uniform D)) input ->
  Forall (uniform D) (class_nodes tumor_labels input i).
Proof.
  intros H. unfold class_nodes. apply Forall_flat_map.
  apply Forall_forall. intros g _.
  destruct (Nat.lt_ge_cases g (length input)) as [Hg|Hg].
  - rewrite Forall_forall in H. apply H. apply nth_In. assumption.
  - rewrite nth_overflow by assumption. constructor.
Qed.

(** A class that is processed without an exception adds one entry. *)
Lemma merge_class_adds_one (tumor_labels : list Z)
      (input : list (list ndarray)) (i : nat)
      (st st' : list ndarray * option ndarray) :
  merge_class tumor_labels input i st = Ok st' ->
  exists a, st' = (fst st ++ [a], Some a).
Proof.
  unfold merge_class. intros H.
  destruct (gather input (where_eq tumor_labels i)) as [output_|];
    [|discriminate].
  cbn [bind] in H.
  destruct (stack output_ (snd st)) as [[a|]|]; try discriminate.
  cbn [bind] in H. inversion H. exists a. reflexivity.
Qed.

(** A class with at least one node gets the row-stack of its nodes,
    whatever was pooled before. *)
Lemma merge_class_nonempty (D : nat) (tumor_labels : list Z)
      (input : list (list ndarray)) (i : nat)
      (st : list ndarray * option ndarray) :
  (length tumor_labels <= length input)%nat ->
  Forall (Forall (uniform D)) input ->
  class_nodes tumor_labels input i <> [] ->
  exists a, merge_class tumor_labels input i st = Ok (fst st ++ [a], Some a) /\
            atleast_2d a = all_rows (class_nodes tumor_labels input i).
Proof.
  intros Hlen Hu Hne. unfold merge_class.
  rewrite (gather_spec tumor_labels input i Hlen). cbn [bind].
  destruct (@stack_spec D (class_nodes tumor_labels input i) (snd st) Hne
              (class_nodes_uniform tumor_labels i Hu)) as [a [E R]].
  rewrite E. cbn [bind]. exists a. auto.
Qed.



Lemma merge_returns (D n : nat) (tumor_labels : list Z)
      (input : list (list ndarray)) :
  (length tumor_labels <= length input)%nat ->
  Forall (Forall (uniform D)) input ->
  (forall i, (i < n)%nat -> class_nodes tumor_labels input i <> []) ->
  exists output, merge_concepts_per_tumor_type n tumor_labels input = Ok output.
Proof.
  intros Hlen Hu Hne. unfold merge_concepts_per_tumor_type.
  destruct (@for_range_inv (list ndarray * option ndarray)
              (fun _ _ => True) (merge_class tumor_labels input) n ([], None))
    as [st [E _]].
  - exact I.
  - intros k s0 Hk _.
    destruct (@merge_class_nonempty D tumor_labels input k s0 Hlen Hu (Hne k Hk))
      as [a [E _]].
    eexists. split; [exact E | exact I].
  - rewrite E. cbn [bind]. eexists. reflexivity.
Qed.


(** ** The orchestrator *)

Section OrchestratorFacts.

Import Explain.

Variables DGLGraph CellGraphModel Attributes Grouping DataFrame : Type.

Variable calculate_importance :
  list DGLGraph -> CellGraphModel -> string -> result (list DGLGraph).
Variable generate_interactives :
  list DGLGraph -> list string -> list string -> string -> result unit.
Variable calculate_separability :
  list DGLGraph * list Z -> CellGraphModel -> Attributes -> list string ->
  bool -> option Grouping -> option DataFrame -> option DataFrame ->
  option string -> result (tables DataFrame).

Variable cell_graphs_and_labels : list DGLGraph * list Z.
Variable model : CellGraphModel.
Variable explainer_model : string.
Variable attributes : Attributes.
Variable attribute_names : list string.
Variable concept_grouping : option Grouping.
Variables risk patho_prior : option DataFrame.

(** An exception of the importance computation ends the run before the
    visualization parameters are looked at. *)
Lemma importance_failure_propagates (e : exn) (prune : bool)
      (fnames gnames : option (list string)) (out : option string) :
  calculate_importance (fst cell_graphs_and_labels) model explainer_model
  = Raise e ->
  explain_cell_graphs calculate_importance generate_interactives
         calculate_separability cell_graphs_and_labels model explainer_model
         attributes attribute_names prune concept_grouping risk patho_prior
         fnames gnames out
  = ([CalculateImportance (fst cell_graphs_and_labels) explainer_model],
     Propagated e).
Proof.
  intros H. unfold explain_cell_graphs, then_, invoke.
  simpl. rewrite H. reflexivity.
Qed.

(** C7, as the code has it.  Once the importance computation has
    returned, the orchestrator raises the configuration error if and only
    if feature names or cell graph names are supplied while the three
    visualization parameters are not all supplied.  With all three, with
    none, or with the output directory alone, no configuration error is
    raised. *)
Theorem configuration_error_iff_names_without_all
        (cell_graphs : list DGLGraph) (prune : bool)
        (fnames gnames : option (list string)) (out : option string) :
  calculate_importance (fst cell_graphs_and_labels) model explainer_model
  = Ok cell_graphs ->
  (exists msg,
      snd (explain_cell_graphs calculate_importance generate_interactives
         calculate_separability cell_graphs_and_labels model explainer_model
         attributes attribute_names prune concept_grouping risk patho_prior
         fnames gnames out)
      = ConfigurationError msg) <->
  (not_None fnames || not_None gnames)
  && negb (not_None out && not_None fnames && not_None gnames) = true.
Proof.
  intros H. unfold explain_cell_graphs, then_, invoke.
  simpl. rewrite H. simpl.
  destruct out as [o|], fnames as [f|], gnames as [g|]; simpl;
    try destruct (generate_interactives cell_graphs f g o);
    try destruct (calculate_separability _ _ _ _ _ _ _ _ _);
    simpl; split; intros Hx;
    try discriminate; try reflexivity; try (eexists; reflexivity);
    match goal with
    | Hex : exists _, _ |- _ => destruct Hex as [? Hex]; discriminate
    end.
Qed.

(** C9.  The importance computation is the first call and is given all
    input graphs; when the three visualization parameters are supplied,
    the visualization is the second call and is given exactly the graphs
    the importance computation returned, whatever the pruning flag; the
    separability computation, the only call that receives the pruning
    flag, comes after it.  A graph that pruning removes from the
    separability evaluation is therefore, with its importance annotation,
    among the graphs of the visualization. *)
Theorem visualization_before_pruning
        (annotate : DGLGraph -> DGLGraph) (prune : bool)
        (fnames gnames : list string) (out : string) :
  calculate_importance (fst cell_graphs_and_labels) model explainer_model
  = Ok (map annotate (fst cell_graphs_and_labels)) ->
  exists shown rest,
    fst (explain_cell_graphs calculate_importance generate_interactives
         calculate_separability cell_graphs_and_labels model explainer_model
         attributes attribute_names prune concept_grouping risk patho_prior
         (Some fnames) (Some gnames) (Some out))
    = [CalculateImportance (fst cell_graphs_and_labels) explainer_model;
       GenerateInteractives shown fnames gnames out] ++ rest /\
    shown = map annotate (fst cell_graphs_and_labels) /\
    (forall g, In g (fst cell_graphs_and_labels) -> In (annotate g) shown) /\
    (rest = [] \/
     rest = [CalculateSeparability cell_graphs_and_labels prune (Some out)]).
Proof.
  intros H. unfold explain_cell_graphs, then_, invoke.
  simpl. rewrite H. simpl.
  exists (map annotate (fst cell_graphs_and_labels)).
  destruct (generate_interactives _ fnames gnames out); simpl.
  - eexists. split; [reflexivity|]. split; [reflexivity|].
    split; [intros g Hg; apply in_map; assumption|].
    right. reflexivity.
  - exists []. split; [reflexivity|]. split; [reflexivity|].
    split; [intros g Hg; apply in_map; assumption|].
    left. reflexivity.
Qed.

End OrchestratorFacts.

Lemma configuration_error_iff_names_without_all_witness :
  (exists msg,
      snd (Explain.explain_cell_graphs importance_example interactives_example
             separability_example ([7%nat; 8%nat], [0%Z; 1%Z]) tt "pp"%string tt
             ["CD3"%string] true None None None (Some ["CD3"%string]) None (Some "out/"%string))
      = Explain.ConfigurationError msg) <->
  (Explain.not_None (Some ["CD3"%string]) || Explain.not_None (@None (list string)))
  && negb (Explain.not_None (Some "out/"%string) && Explain.not_None (Some ["CD3"%string])
           && Explain.not_None (@None (list string))) = true.
Proof.
  apply (@configuration_error_iff_names_without_all nat unit unit unit unit
           importance_example interactives_example separability_example
           ([7%nat; 8%nat], [0%Z; 1%Z]) tt "pp"%string tt ["CD3"%string] None None None
           (map annotate_example [7%nat; 8%nat]) true
           (Some ["CD3"%string]) None (Some "out/"%string)).
  reflexivity.
Defined.

(** C7 as stated has every partial supply fail.  With the output directory
    alone the run raises nothing and returns the tables. *)
Lemma out_directory_alone_counterexample :
  partially_supplied None None (Some "out/"%string) = true /\
  exists t,
    snd (Explain.explain_cell_graphs importance_example interactives_example
           separability_example ([7%nat; 8%nat], [0%Z; 1%Z]) tt "pp"%string tt
           ["CD3"%string] true None None None None None (Some "out/"%string))
    = Explain.Returned t.
Proof.
  split; [reflexivity|]. eexists. reflexivity.
Qed.

Lemma visualization_before_pruning_witness :
  exists shown rest,
    fst (Explain.explain_cell_graphs importance_example interactives_example
           separability_example ([7%nat; 8%nat], [0%Z; 1%Z]) tt "pp"%string tt
           ["CD3"%string] true None None None
           (Some ["CD3"%string]) (Some ["G7"%string; "G8"%string]) (Some "out/"%string))
    = [Explain.CalculateImportance [7%nat; 8%nat] "pp"%string;
       Explain.GenerateInteractives shown ["CD3"%string] ["G7"%string; "G8"%string] "out/"%string] ++ rest /\
    shown = map annotate_example [7%nat; 8%nat] /\
    (forall g, In g [7%nat; 8%nat] -> In (annotate_example g) shown) /\
    (rest = [] \/
     rest = [Explain.CalculateSeparability ([7%nat; 8%nat], [0%Z; 1%Z]) true
               (Some "out/"%string)]).
Proof.
  apply (@visualization_before_pruning nat unit unit unit unit
           importance_example interactives_example separability_example
           ([7%nat; 8%nat], [0%Z; 1%Z]) tt "pp"%string tt ["CD3"%string] None None None
           annotate_example true ["CD3"%string] ["G7"%string; "G8"%string] "out/"%string).
  reflexivity.
Defined.

(** ** The evaluation split *)

Lemma search_enough_fuel (DGLGraph : Type)
      (train validation test : Run.graph_set DGLGraph) (k : nat) :
  Run.search (3 + k) (train, validation, test) (-1)
  = Some (if has_graphs test then Ok (-1)%Z
          else if has_graphs validation then Ok (-2)%Z
               else if has_graphs train then Ok (-3)%Z
                    else Raise (RuntimeError "all sets created are empty")).
Proof.
  unfold has_graphs. simpl.
  destruct (length (fst test) =? 0)%nat; simpl; [|reflexivity].
  destruct (length (fst validation) =? 0)%nat; simpl; [|reflexivity].
  destruct (length (fst train) =? 0)%nat; simpl; reflexivity.
Qed.

Lemma evaluation_set_cases (DGLGraph : Type)
      (train validation test : Run.graph_set DGLGraph) (k : nat) :
  Run.evaluation_set (3 + k) (train, validation, test)
  = Some (if has_graphs test then Ok test
          else if has_graphs validation then Ok validation
               else if has_graphs train then Ok train
                    else Raise (RuntimeError "all sets created are empty")).
Proof.
  unfold Run.evaluation_set. rewrite search_enough_fuel.
  destruct (has_graphs test); [reflexivity|].
  destruct (has_graphs validation); [reflexivity|].
  destruct (has_graphs train); reflexivity.
Qed.

(** Every graph lands in one of the three sets. *)
Lemma sort_into_sets_total (DGLGraph : Type)
      (graphs : list (Run.GraphData DGLGraph)) :
  forall tr va te : Run.graph_set DGLGraph,
    let '(tr', va', te') :=
      fold_left
        (fun (tvt : Run.three_sets DGLGraph) d =>
           let '(tr0, va0, te0) := tvt in
           if String.eqb (Run.train_validation_test d) "validation"
           then (tr0, Run.append_to va0 d, te0)
           else if String.eqb (Run.train_validation_test d) "test"
                then (tr0, va0, Run.append_to te0 d)
                else (Run.append_to tr0 d, va0, te0))
        graphs (tr, va, te) in
    (length (fst tr') + length (fst va') + length (fst te')
     = length (fst tr) + length (fst va) + length (fst te) + length graphs)%nat.
Proof.
  induction graphs as [|d graphs IH]; intros tr va te; simpl.
  - lia.
  - destruct (String.eqb (Run.train_validation_test d) "validation");
      [|destruct (String.eqb (Run.train_validation_test d) "test")].
    + specialize (IH tr (Run.append_to va d) te).
      destruct (fold_left _ graphs _) as [[tr' va'] te'].
      simpl in IH. rewrite length_app in IH. simpl in IH. lia.
    + specialize (IH tr va (Run.append_to te d)).
      destruct (fold_left _ graphs _) as [[tr' va'] te'].
      simpl in IH. rewrite length_app in IH. simpl in IH. lia.
    + specialize (IH (Run.append_to tr d) va te).
      destruct (fold_left _ graphs _) as [[tr' va'] te'].
      simpl in IH. rewrite length_app in IH. simpl in IH. lia.
Qed.

(** [run] raises its [RuntimeError] exactly when [generate_graphs] yields
    no graph at all. *)
Lemma run_raises_iff_no_graph (DGLGraph : Type)
      (graphs : list (Run.GraphData DGLGraph)) :
  Run.evaluation_set 3 (Run.sort_into_sets graphs)
  = Some (Raise (RuntimeError "all sets created are empty"))
  <-> graphs = [].
Proof.
  unfold Run.sort_into_sets.
  pose proof (sort_into_sets_total graphs ([], []) ([], []) ([], [])) as H.
  destruct (fold_left _ graphs _) as [[tr va] te].
  simpl in H.
  change 3%nat with (3 + 0)%nat.
  rewrite (evaluation_set_cases tr va te 0). unfold has_graphs.
  split.
  - intros E.
    destruct (Nat.eqb_spec (length (fst te)) 0); simpl in E; [|discriminate].
    destruct (Nat.eqb_spec (length (fst va)) 0); simpl in E; [|discriminate].
    destruct (Nat.eqb_spec (length (fst tr)) 0); simpl in E; [|discriminate].
    destruct graphs; [reflexivity | simpl in H; lia].
  - intros ->. simpl in H.
    destruct (Nat.eqb_spec (length (fst te)) 0); [|lia].
    destruct (Nat.eqb_spec (length (fst va)) 0); [|lia].
    destruct (Nat.eqb_spec (length (fst tr)) 0); [|lia].
    reflexivity.
Qed.

(** C10.  With the sets kept as (train, validation, test), [run] takes as
    evaluation set the test set when it has a graph, else the validation
    set when it has one, else the training set when it has one, and raises
    [RuntimeError] when all three are empty; three iterations of the loop
    are enough. *)
Theorem evaluation_set_priority (DGLGraph : Type)
        (train validation test : Run.graph_set DGLGraph) (k : nat) :
  Run.evaluation_set (3 + k) (train, validation, test)
  = Some (if has_graphs test then Ok test
          else if has_graphs validation then Ok validation
               else if has_graphs train then Ok train
                    else Raise (RuntimeError "all sets created are empty")).
Proof. apply evaluation_set_cases. Qed.


(* ===================================================================== *)
(** * Part III.  Further properties of the code                           *)
(* ===================================================================== *)

(** ** More on loops *)

Lemma for_each_app (A S : Type) (body : A -> S -> result S)
      (xs ys : list A) (s : S) :
  for_each (xs ++ ys) body s
  = (s' <- for_each xs body s ;; for_each ys body s').
Proof.
  revert s. induction xs as [|x xs IH]; intros s; simpl; [reflexivity|].
  destruct (body x s) as [s1|e]; simpl; [apply IH | reflexivity].
Qed.

Lemma seq_split_at (a n k : nat) :
  (k < n)%nat ->
  seq a n = seq a k ++ (a + k)%nat :: seq (S (a + k)) (n - k - 1).
Proof.
  intros H.
  replace n with (k + S (n - k - 1))%nat at 1 by lia.
  rewrite seq_app. reflexivity.
Qed.

(** A loop whose iterations succeed up to [k] and whose iteration [k]
    raises, raises that exception. *)
Lemma for_range_raises (S : Type) (P : nat -> S -> Prop)
      (body : nat -> S -> result S) (n k : nat) (s : S) (e : exn) :
  (k < n)%nat ->
  P 0%nat s ->
  (forall j s0, (j < k)%nat -> P j s0 ->
                exists s1, body j s0 = Ok s1 /\ P (Datatypes.S j) s1) ->
  (forall s0, P k s0 -> body k s0 = Raise e) ->
  for_each (range n) body s = Raise e.
Proof.
  intros Hk H0 Hstep Hraise. unfold range.
  rewrite (@seq_split_at 0 n k Hk), for_each_app.
  destruct (@for_range_inv S P body k s H0 Hstep) as [s' [E HP]].
  unfold range in E. rewrite E. simpl.
  rewrite (Hraise s' HP). reflexivity.
Qed.

(** ** Bounds of the distance matrix *)

Lemma setitem_out_of_bounds (r c : nat) (M : matrix) (i j : nat) (v : Q) :
  shape r c M -> (r <= i \/ c <= j)%nat -> setitem M i j v = Raise IndexError.
Proof.
  intros HM Hout. pose proof HM as [Hl Hf]. unfold setitem.
  destruct (nth_error M i) as [row|] eqn:E; [|reflexivity].
  assert (Hi : (i < r)%nat).
  { rewrite <- Hl. apply nth_error_Some. congruence. }
  assert (Hrow : length row = c).
  { rewrite Forall_forall in Hf. apply Hf. eapply nth_error_In. exact E. }
  assert (Hj : (j <? length row)%nat = false) by (apply Nat.ltb_ge; lia).
  rewrite Hj. reflexivity.
Qed.

Lemma distance_loop_overflow (dist : ndarray -> ndarray -> Q) (n : nat)
      (input : list ndarray) :
  (n < length input)%nat -> (2 <= length input)%nat ->
  distance_loop dist n input = Raise IndexError.
Proof.
  intros Hn H2. unfold distance_loop.
  apply (@for_range_raises matrix (fun _ M => shape n n M) _ (length input) 0%nat);
    [lia | apply shape_repeat | intros j s0 Hj; lia |].
  intros M0 HM0.
  apply (@for_range_raises matrix (fun _ M => shape n n M) _ (length input)
                           (Nat.max 1 n));
    [lia | assumption | |].
  - intros j M1 Hj HM1.
    destruct j as [|j].
    + simpl. exists M1. auto.
    + assert (Hlt : (0 <? S j)%nat = true) by reflexivity.
      cbn [Nat.eqb negb andb]. rewrite Hlt.
      rewrite (getitem_nth input (Arr1 [])) by lia.
      rewrite (getitem_nth input (Arr1 [])) by lia. cbn [bind].
      destruct (@setitem_spec n n M1 0%nat (S j)
                  (dist (nth 0 input (Arr1 [])) (nth (S j) input (Arr1 [])))
                  HM1) as [M2 [E2 [HM2 _]]]; [lia | lia |].
      rewrite E2. cbn [bind].
      destruct (@setitem_spec n n M2 (S j) 0%nat
                  (dist (nth 0 input (Arr1 [])) (nth (S j) input (Arr1 [])))
                  HM2) as [M3 [E3 [HM3 _]]]; [lia | lia |].
      exists M3. auto.
  - intros M1 HM1.
    destruct (Nat.max 1 n) as [|j] eqn:Ej; [lia|].
    cbn [Nat.eqb negb andb].
    assert (Hlt : (0 <? S j)%nat = true) by reflexivity. rewrite Hlt.
    rewrite (getitem_nth input (Arr1 [])) by lia.
    rewrite (getitem_nth input (Arr1 [])) by lia. cbn [bind].
    rewrite (@setitem_out_of_bounds n n M1 0%nat (S j) _ HM1) by lia.
    reflexivity.
Qed.

(** X1.  [get_distance] raises [IndexError] exactly when it is given more
    class representations than [n_tumors] and at least two of them; in
    every other case it returns a matrix. *)
Theorem get_distance_index_error_iff (dist : ndarray -> ndarray -> Q)
        (n : nat) (input : list ndarray) :
  (get_distance dist n input = Raise IndexError
   <-> (n < length input)%nat /\ (2 <= length input)%nat) /\
  ((length input <= n)%nat \/ (length input <= 1)%nat ->
   exists M, get_distance dist n input = Ok M).
Proof.
  assert (Hsmall : (length input <= 1)%nat ->
                   exists M, get_distance dist n input = Ok M).
  { intros H1. destruct input as [|a [|b rest]]; simpl in H1; try lia.
    - eexists. reflexivity.
    - eexists. reflexivity. }
  split; [split|].
  - intros E.
    destruct (Nat.le_gt_cases (length input) n) as [Hle|Hgt].
    + destruct (get_distance_spec dist input Hle) as [M [EM _]]. congruence.
    + split; [assumption|].
      destruct (Nat.le_gt_cases (length input) 1) as [H1|H1]; [|lia].
      destruct (Hsmall H1) as [M EM]. congruence.
  - intros [Hn H2]. unfold get_distance.
    rewrite (distance_loop_overflow dist input Hn H2). reflexivity.
  - intros [Hle|H1].
    + destruct (get_distance_spec dist input Hle) as [M [EM _]]. eauto.
    + apply Hsmall. assumption.
Qed.

(** ** The risk matrix as a weighting *)

Lemma abs_diff_pos (i j : nat) : i <> j -> 1 <= abs_diff i j.
Proof.
  intros H. unfold abs_diff.
  change 1 with (inject_Z 1). rewrite <- Zle_Qle. lia.
Qed.

Lemma abs_diff_nonneg (i j : nat) : 0 <= abs_diff i j.
Proof.
  unfold abs_diff. change 0 with (inject_Z 0). rewrite <- Zle_Qle. lia.
Qed.

Lemma get_risk_weights (n : nat) (ordinal : bool) :
  exists risk, get_risk n ordinal = Ok risk /\ shape n n risk /\
               forall i j, (i < n)%nat -> (j < n)%nat ->
                           mget risk i j = mget risk j i /\
                           0 <= mget risk i j /\
                           (i <> j -> 1 <= mget risk i j).
Proof.
  destruct ordinal.
  - destruct (get_risk_ordinal n) as [risk [E [Hs Hv]]].
    exists risk. split; [assumption|]. split; [assumption|].
    intros i j Hi Hj. rewrite (Hv i j Hi Hj), (Hv j i Hj Hi).
    split; [apply abs_diff_sym|].
    split; [apply abs_diff_nonneg | apply abs_diff_pos].
  - destruct (get_risk_uniform n) as [risk [E [Hs Hv]]].
    exists risk. split; [assumption|]. split; [assumption|].
    intros i j Hi Hj. rewrite (Hv i j Hi Hj), (Hv j i Hj Hi).
    split; [reflexivity|]. split; [discriminate | intros _; apply Qle_refl].
Qed.

(** X2.  In both modes [get_risk] returns a symmetric n-by-n matrix
    without negative entries that weights every pair of distinct classes
    by at least 1. *)
Theorem get_risk_symmetric_positive_off_diagonal (n : nat) (ordinal : bool)
        (i j : nat) :
  (i < n)%nat -> (j < n)%nat ->
  exists risk,
    get_risk n ordinal = Ok risk /\ shape n n risk /\
    mget risk i j = mget risk j i /\
    0 <= mget risk i j /\
    (i <> j -> 1 <= mget risk i j).
Proof.
  intros Hi Hj.
  destruct (get_risk_weights n ordinal) as [risk [E [Hs Hv]]].
  exists risk. split; [assumption|]. split; [assumption|].
  apply Hv; assumption.
Qed.

Lemma get_risk_symmetric_positive_off_diagonal_witness :
  exists risk,
    get_risk 4 true = Ok risk /\ shape 4 4 risk /\
    mget risk 1 3 = mget risk 3 1 /\
    0 <= mget risk 1 3 /\
    (1%nat <> 3%nat -> 1 <= mget risk 1 3).
Proof.
  apply (@get_risk_symmetric_positive_off_diagonal 4 true 1 3); lia.
Defined.

(** ** Monotonicity of the score *)

Lemma rint_monotone (x y : Q) : x <= y -> (rint x <= rint y)%Z.
Proof.
  intros Hxy.
  pose proof (Qfloor_resp_le _ _ Hxy) as Hf.
  destruct (Z.eq_dec (Qfloor x) (Qfloor y)) as [Heq|Hne].
  - unfold rint. rewrite <- Heq.
    destruct (x - inject_Z (Qfloor x) ?= 1 # 2) eqn:Ex;
      destruct (y - inject_Z (Qfloor x) ?= 1 # 2) eqn:Ey;
      repeat match goal with
             | H : (_ ?= _) = Eq |- _ => apply Qeq_alt in H
             | H : (_ ?= _) = Lt |- _ => apply Qlt_alt in H
             | H : (_ ?= _) = Gt |- _ => apply Qgt_alt in H
             end;
      try (destruct (Z.even (Qfloor x))); try lia; exfalso; lra.
  - destruct (rint_floor_or_succ x) as [-> | ->];
      destruct (rint_floor_or_succ y) as [-> | ->]; lia.
Qed.

Lemma round_monotone (x y : Q) (d : nat) : x <= y -> round x d <= round y d.
Proof.
  intros Hxy. unfold round.
  pose proof (pow10_pos d) as Hp.
  unfold Qdiv. apply Qmult_le_compat_r.
  - rewrite <- Zle_Qle. apply rint_monotone.
    apply Qmult_le_compat_r; [assumption | apply Qlt_le_weak; assumption].
  - apply Qlt_le_weak. apply Qinv_lt_0_compat. assumption.
Qed.

Lemma big_le (n : nat) (f g : nat -> Q) :
  (forall i, (i < n)%nat -> f i <= g i) -> big n f <= big n g.
Proof.
  induction n as [|n IH]; intros H.
  - apply Qle_refl.
  - rewrite !big_S. apply Qplus_le_compat.
    + apply IH. intros i Hi. apply H. lia.
    + apply H. lia.
Qed.

Lemma weighted_half_sum_monotone (n : nat) (distance distance' risk : matrix) :
  shape n n distance -> shape n n distance' -> shape n n risk ->
  (forall i j, (i < n)%nat -> (j < n)%nat ->
               mget distance i j <= mget distance' i j) ->
  (forall i j, (i < n)%nat -> (j < n)%nat -> 0 <= mget risk i j) ->
  weighted_half_sum distance risk <= weighted_half_sum distance' risk.
Proof.
  intros HD HD' HR Hle Hpos. unfold weighted_half_sum.
  rewrite (sum_big (multiply_shape HD HR)).
  rewrite (sum_big (multiply_shape HD' HR)).
  unfold Qdiv. apply Qmult_le_compat_r; [|discriminate].
  apply big_le. intros i Hi. apply big_le. intros j Hj.
  rewrite (mget_multiply HD HR Hi Hj), (mget_multiply HD' HR Hi Hj).
  apply Qmult_le_compat_r; auto.
Qed.

(** X3.  The score formula of line 167 and 172 is monotone: with a risk
    matrix without negative entries, raising entries of the distance
    matrix never lowers the rounded score. *)
Theorem score_monotone_in_distances (n : nat)
        (distance distance' risk : matrix) :
  shape n n distance -> shape n n distance' -> shape n n risk ->
  (forall i j, (i < n)%nat -> (j < n)%nat ->
               mget distance i j <= mget distance' i j) ->
  (forall i j, (i < n)%nat -> (j < n)%nat -> 0 <= mget risk i j) ->
  round (weighted_half_sum distance risk) 4
  <= round (weighted_half_sum distance' risk) 4.
Proof.
  intros HD HD' HR Hle Hpos. apply round_monotone.
  apply (weighted_half_sum_monotone HD HD' HR); assumption.
Qed.

Lemma score_monotone_in_distances_witness :
  round (weighted_half_sum [[0; 1]; [1; 0]] [[0; 1]; [1; 0]]) 4
  <= round (weighted_half_sum [[0; 3 # 2]; [3 # 2; 0]] [[0; 1]; [1; 0]]) 4.
Proof.
  apply (@score_monotone_in_distances 2).
  - apply shape_2_2.
  - apply shape_2_2.
  - apply shape_2_2.
  - intros i j Hi Hj.
    destruct i as [|[|i]]; destruct j as [|[|j]]; try lia;
      unfold mget; simpl; lra.
  - intros i j Hi Hj.
    destruct i as [|[|i]]; destruct j as [|[|j]]; try lia;
      unfold mget; simpl; lra.
Defined.

(** ** Sign of the score *)

Lemma big_nonneg (n : nat) (f : nat -> Q) :
  (forall i, (i < n)%nat -> 0 <= f i) -> 0 <= big n f.
Proof.
  intros H.
  assert (E : big n (fun _ => 0) == 0) by (apply big_zero; reflexivity).
  rewrite <- E. apply big_le. assumption.
Qed.

Lemma pair_entry_below_two (dist : ndarray -> ndarray -> Q)
      (input : list ndarray) (i j : nat) :
  (length input <= 1)%nat -> pair_entry dist input i j = 0.
Proof. intros H. unfold pair_entry. nat_cases. Qed.

(** X4.  With a non-negative distance function and at most [n_tumors]
    class representations, [compute_concept_score] returns a score that is
    not negative, and that is 0 when there are fewer than two classes to
    compare. *)
Theorem concept_score_nonneg
        (histogramdd : ndarray -> list (list Q) -> result ndarray)
        (dist : ndarray -> ndarray -> Q)
        (args_distance : string) (ordinal : bool) (n : nat)
        (concept rep : list ndarray) :
  (forall a b, 0 <= dist a b) ->
  representation histogramdd args_distance concept = Ok rep ->
  (length rep <= n)%nat ->
  exists score,
    compute_concept_score histogramdd dist args_distance ordinal n concept
    = Ok score /\
    0 <= score /\
    ((length rep <= 1)%nat -> score == 0).
Proof.
  intros Hd Hrep Hn.
  destruct (@compute_concept_score_unfold histogramdd dist args_distance
              ordinal n concept rep Hrep Hn)
    as [distance [risk [Ed [Er [Hsd [Hsr [_ Hscore]]]]]]].
  destruct (get_risk_weights n ordinal) as [risk' [Er' [_ Hw]]].
  rewrite Er in Er'. inversion Er'. subst risk'.
  destruct (get_distance_spec dist rep Hn) as [M [EM [_ Hv]]].
  rewrite Ed in EM. inversion EM. subst M.
  eexists. split; [exact Hscore|].
  assert (Hsum : weighted_half_sum distance risk
                 == big n (fun i => big n (fun j =>
                      mget distance i j * mget risk i j)) / 2).
  { unfold weighted_half_sum.
    rewrite (sum_big (multiply_shape Hsd Hsr)).
    apply Qmult_comp; [|reflexivity].
    apply big_ext. intros i Hi. apply big_ext. intros j Hj.
    rewrite (mget_multiply Hsd Hsr Hi Hj). reflexivity. }
  split.
  - apply round_nonneg. rewrite Hsum.
    unfold Qdiv. apply Qmult_le_0_compat; [|discriminate].
    apply big_nonneg. intros i Hi. apply big_nonneg. intros j Hj.
    apply Qmult_le_0_compat.
    + apply (@get_distance_nonneg dist n rep distance Hd Hn Ed i j Hi Hj).
    + apply (Hw i j Hi Hj).
  - intros H1.
    rewrite (@round_comp (weighted_half_sum distance risk) 0 4);
      [apply round_zero|].
    rewrite Hsum.
    assert (Hz : big n (fun i => big n (fun j =>
                   mget distance i j * mget risk i j)) == 0).
    { apply big_zero. intros i Hi. apply big_zero. intros j Hj.
      rewrite (Hv i j Hi Hj), (pair_entry_below_two dist rep i j H1).
      rewrite round_zero. ring. }
    rewrite Hz. reflexivity.
Qed.

Lemma concept_score_nonneg_witness :
  exists score,
    compute_concept_score no_histogram euclidean_1d "pair" true 3
                          [Arr1 [0]; Arr1 [1 # 3]; Arr1 [2]]
    = Ok score /\
    0 <= score /\
    (Nat.le (length [Arr1 [0]; Arr1 [1 # 3]; Arr1 [2]]) 1 -> score == 0).
Proof.
  apply (@concept_score_nonneg no_histogram euclidean_1d "pair" true 3
           [Arr1 [0]; Arr1 [1 # 3]; Arr1 [2]]
           [Arr1 [0]; Arr1 [1 # 3]; Arr1 [2]]).
  - exact euclidean_1d_nonneg.
  - reflexivity.
  - simpl. lia.
Defined.

(** ** Pooling a class without nodes *)

Lemma stack_nothing (output__ : option ndarray) : stack [] output__ = Ok output__.
Proof. reflexivity. Qed.

Lemma merge_class_empty (tumor_labels : list Z) (input : list (list ndarray))
      (i : nat) (st : list ndarray * option ndarray) :
  (length tumor_labels <= length input)%nat ->
  class_nodes tumor_labels input i = [] ->
  merge_class tumor_labels input i st
  = match snd st with
    | Some a => Ok (fst st ++ [a], Some a)
    | None => Raise (UnboundLocalError "output__")
    end.
Proof.
  intros Hlen Hempty. unfold merge_class.
  rewrite (gather_spec tumor_labels input i Hlen), Hempty.
  cbn [bind]. rewrite stack_nothing. cbn [bind].
  destruct (snd st); reflexivity.
Qed.

(** X5.  When the first class has no node, [merge_concepts_per_tumor_type]
    raises [UnboundLocalError]: [output__] is appended before it was ever
    assigned. *)
Theorem pooling_first_class_empty_raises (n : nat) (tumor_labels : list Z)
        (input : list (list ndarray)) :
  (0 < n)%nat ->
  (length tumor_labels <= length input)%nat ->
  class_nodes tumor_labels input 0 = [] ->
  merge_concepts_per_tumor_type n tumor_labels input
  = Raise (UnboundLocalError "output__").
Proof.
  intros Hn Hlen Hempty. unfold merge_concepts_per_tumor_type.
  destruct n as [|n]; [lia|].
  change (range (S n)) with (0%nat :: seq 1 n). cbn [for_each].
  rewrite (@merge_class_empty tumor_labels input 0%nat ([], None) Hlen Hempty).
  reflexivity.
Qed.

Lemma pooling_first_class_empty_raises_witness :
  merge_concepts_per_tumor_type 2 [0%Z; 1%Z] [[]; [Arr1 [1; 2]]]
  = Raise (UnboundLocalError "output__").
Proof.
  apply (@pooling_first_class_empty_raises 2 [0%Z; 1%Z] [[]; [Arr1 [1; 2]]]).
  - lia.
  - simpl. lia.
  - reflexivity.
Defined.

(** X6.  When pooling returns and a class after the first has no node, its
    entry is the entry of the class before it: [output__] still holds the
    previous class's rows when it is appended. *)
Theorem pooling_empty_class_repeats_previous (n : nat) (tumor_labels : list Z)
        (input : list (list ndarray)) (output : list ndarray) (i : nat) :
  (length tumor_labels <= length input)%nat ->
  merge_concepts_per_tumor_type n tumor_labels input = Ok output ->
  (S i < n)%nat ->
  class_nodes tumor_labels input (S i) = [] ->
  nth (S i) output (Arr1 []) = nth i output (Arr1 []).
Proof.
  intros Hlen. unfold merge_concepts_per_tumor_type. intros H Hi Hempty.
  destruct (for_each (range n) (merge_class tumor_labels input) ([], None))
    as [st|] eqn:E; [|discriminate].
  cbn [bind] in H. inversion H. subst output.
  assert (HP : length (fst st) = n /\
               (forall k, n = S k -> snd st = Some (nth k (fst st) (Arr1 []))) /\
               forall j, (S j < n)%nat ->
                         class_nodes tumor_labels input (S j) = [] ->
                         nth (S j) (fst st) (Arr1 [])
                         = nth j (fst st) (Arr1 [])).
  { apply (@for_each_seq_preserves (list ndarray * option ndarray)
             (fun m s =>
                length (fst s) = m /\
                (forall k, m = S k -> snd s = Some (nth k (fst s) (Arr1 []))) /\
                forall j, (S j < m)%nat ->
                          class_nodes tumor_labels input (S j) = [] ->
                          nth (S j) (fst s) (Arr1 [])
                          = nth j (fst s) (Arr1 []))
             (merge_class tumor_labels input) n 0%nat ([], None) st);
      [| | exact E].
    - split; [reflexivity|]. split; [intros k Hk; discriminate|].
      intros j Hj. lia.
    - intros m s0 s1 _ [Hm [Hlast Hrep]] Hb.
      destruct (merge_class_adds_one _ _ _ _ Hb) as [a Hs1].
      subst s1. cbn [fst snd].
      split; [rewrite length_app; simpl; lia|].
      split.
      + intros k Hk. inversion Hk. subst k.
        rewrite <- Hm, nth_middle. reflexivity.
      + intros j Hj Hej.
        destruct (Nat.eq_dec (S j) m) as [Heq|Hne].
        * destruct Heq.
          rewrite (@merge_class_empty tumor_labels input (S j) s0 Hlen Hej)
            in Hb.
          rewrite (Hlast j eq_refl) in Hb.
          assert (Ha : a = nth j (fst s0) (Arr1 [])) by congruence.
          replace (nth (S j) (fst s0 ++ [a]) (Arr1 [])) with a
            by (rewrite <- Hm; symmetry; apply nth_middle).
          rewrite app_nth1 by lia. exact Ha.
        * rewrite !app_nth1 by lia. apply Hrep; [lia | assumption]. }
  destruct HP as [_ [_ Hrep]]. apply Hrep; assumption.
Qed.

Lemma pooling_empty_class_repeats_previous_witness :
  nth 1 [Arr1 [1]; Arr1 [1]] (Arr1 []) = nth 0 [Arr1 [1]; Arr1 [1]] (Arr1 []).
Proof.
  apply (@pooling_empty_class_repeats_previous 2 [0%Z; 1%Z]
           [[Arr1 [1]]; []] [Arr1 [1]; Arr1 [1]] 0).
  - simpl. lia.
  - reflexivity.
  - lia.
  - reflexivity.
Defined.

(** ** Pooling the node labels *)

Lemma merge_labels_inner (input : list (list ndarray)) :
  forall (idx : list nat) (acc : list ndarray),
    (forall g, In g idx -> (g < length input)%nat) ->
    for_each idx
             (fun (id : nat) (output_ : list ndarray) =>
                c <- getitem input id ;; Ok (output_ ++ map (fun x => x) c))
             acc
    = Ok (acc ++ flat_map (fun g => nth g input []) idx).
Proof.
  induction idx as [|g idx IH]; intros acc Hin; simpl.
  - rewrite app_nil_r. reflexivity.
  - rewrite (getitem_nth input []) by (apply Hin; left; reflexivity).
    cbn [bind]. rewrite map_id.
    rewrite IH by (intros g' Hg'; apply Hin; right; assumption).
    rewrite app_assoc. reflexivity.
Qed.

(** X7.  With one label per graph, [merge_labels_per_tumor_type] never
    raises: it returns one list per class index, the node-label arrays of
    that class's graphs in encounter order, and the empty list for a class
    without graphs. *)
Theorem merge_labels_per_class (n : nat) (tumor_labels : list Z)
        (input : list (list ndarray)) :
  (length tumor_labels <= length input)%nat ->
  merge_labels_per_tumor_type n tumor_labels input
  = Ok (map (class_nodes tumor_labels input) (range n)).
Proof.
  intros Hlen. unfold merge_labels_per_tumor_type.
  match goal with
  | |- for_each _ ?body _ = _ =>
      destruct (@for_range_inv (list (list ndarray))
                  (fun k output =>
                     output = map (class_nodes tumor_labels input) (seq 0 k))
                  body n [])
      as [out [E Hout]]
  end.
  - reflexivity.
  - intros k output Hk ->.
    rewrite (merge_labels_inner input (where_eq tumor_labels k) [])
      by (intros g Hg; apply where_eq_in_range in Hg; lia).
    cbn [bind]. eexists. split; [reflexivity|].
    rewrite seq_S, map_app. reflexivity.
  - rewrite E, Hout. reflexivity.
Qed.

Lemma merge_labels_per_class_witness :
  merge_labels_per_tumor_type 3 [0%Z; 2%Z; 0%Z]
    [[Arr1 [1; 2]]; [Arr1 [0]]; [Arr1 [5]; Arr1 [3]]]
  = Ok (map (class_nodes [0%Z; 2%Z; 0%Z]
               [[Arr1 [1; 2]]; [Arr1 [0]]; [Arr1 [5]; Arr1 [3]]])
            (range 3)).
Proof.
  apply (@merge_labels_per_class 3 [0%Z; 2%Z; 0%Z]
           [[Arr1 [1; 2]]; [Arr1 [0]]; [Arr1 [5]; Arr1 [3]]]).
  simpl. lia.
Defined.

(** ** Pooling rows of different widths *)

Lemma combine_seq_app (A : Type) (l1 l2 : list A) :
  forall a,
    combine (seq a (length (l1 ++ l2))) (l1 ++ l2)
    = combine (seq a (length l1)) l1
      ++ combine (seq (a + length l1) (length l2)) l2.
Proof.
  induction l1 as [|x l1 IH]; intros a; simpl.
  - rewrite Nat.add_0_r. reflexivity.
  - rewrite IH.
    replace (a + S (length l1))%nat with (S a + length l1)%nat by lia.
    reflexivity.
Qed.

Lemma vstack_mismatch (a b : ndarray) :
  ncols (atleast_2d a) <> ncols (atleast_2d b) ->
  vstack a b
  = Raise (ValueError (dimension_mismatch (ncols (atleast_2d a))
                                          (ncols (atleast_2d b)))).
Proof.
  intros H. unfold vstack.
  destruct (Nat.eqb_spec (ncols (atleast_2d a)) (ncols (atleast_2d b)));
    [contradiction | reflexivity].
Qed.

Lemma stack_ragged (D : nat) (a bad : ndarray) (pre post : list ndarray)
      (output__ : option ndarray) :
  Forall (uniform D) (a :: pre) ->
  ncols (atleast_2d bad) <> D ->
  stack (a :: pre ++ bad :: post) output__
  = Raise (ValueError (dimension_mismatch D (ncols (atleast_2d bad)))).
Proof.
  intros Hu Hbad. inversion Hu as [|? ? Ha Hpre]. subst.
  unfold stack.
  rewrite (for_each_index
             (fun (j : nat) (row : ndarray) (cur : option ndarray) =>
                if (j =? 0)%nat then Ok (Some row)
                else match cur with
                     | Some acc => r <- vstack acc row ;; Ok (Some r)
                     | None => Raise (UnboundLocalError "output__")
                     end)).
  change (combine (range (length (a :: pre ++ bad :: post)))
                  (a :: pre ++ bad :: post))
    with ((0%nat, a)
            :: combine (seq 1 (length (pre ++ bad :: post)))
                       (pre ++ bad :: post)).
  cbn [for_each fst snd Nat.eqb bind].
  rewrite combine_seq_app, for_each_app.
  destruct (@stack_rest D pre 0%nat a Ha Hpre) as [x [E [_ Ux]]].
  rewrite E. cbn [bind length seq combine for_each fst snd].
  replace ((1 + length pre =? 0)%nat) with false by reflexivity.
  rewrite (@vstack_mismatch x bad)
    by (rewrite (uniform_ncols Ux); auto).
  rewrite (uniform_ncols Ux). reflexivity.
Qed.

Lemma merge_class_uniform (D : nat) (tumor_labels : list Z)
      (input : list (list ndarray)) (i : nat)
      (st : list ndarray * option ndarray) :
  (length tumor_labels <= length input)%nat ->
  class_nodes tumor_labels input i <> [] ->
  Forall (uniform D) (class_nodes tumor_labels input i) ->
  exists a, merge_class tumor_labels input i st = Ok (fst st ++ [a], Some a).
Proof.
  intros Hlen Hne Hu. unfold merge_class.
  rewrite (gather_spec tumor_labels input i Hlen). cbn [bind].
  destruct (@stack_spec D (class_nodes tumor_labels input i) (snd st) Hne Hu)
    as [a [E _]].
  rewrite E. cbn [bind]. exists a. reflexivity.
Qed.

(** X8.  When the classes before class [i] each have nodes of one width
    and class [i] holds a node array whose width differs from the width
    [D] of the class's arrays before it, [merge_concepts_per_tumor_type]
    raises the [ValueError] of [np.vstack], whose text names the two
    widths: [D] for the stack so far, at index 0, and the other width for
    the array that does not fit, at index 1. *)
Theorem pooling_ragged_class_raises (n i D : nat) (tumor_labels : list Z)
        (input : list (list ndarray)) (a bad : ndarray)
        (pre post : list ndarray) :
  (length tumor_labels <= length input)%nat ->
  (i < n)%nat ->
  (forall k, (k < i)%nat ->
             class_nodes tumor_labels input k <> [] /\
             exists Dk, Forall (uniform Dk) (class_nodes tumor_labels input k)) ->
  class_nodes tumor_labels input i = a :: pre ++ bad :: post ->
  Forall (uniform D) (a :: pre) ->
  ncols (atleast_2d bad) <> D ->
  merge_concepts_per_tumor_type n tumor_labels input
  = Raise (ValueError (dimension_mismatch D (ncols (atleast_2d bad)))).
Proof.
  intros Hlen Hi Hbefore Hclass Hu Hbad.
  unfold merge_concepts_per_tumor_type.
  rewrite (@for_range_raises (list ndarray * option ndarray) (fun _ _ => True)
             (merge_class tumor_labels input) n i ([], None)
             (ValueError (dimension_mismatch D (ncols (atleast_2d bad))))
             Hi I).
  - reflexivity.
  - intros k s0 Hk _.
    destruct (Hbefore k Hk) as [Hne [Dk Hk']].
    destruct (@merge_class_uniform Dk tumor_labels input k s0 Hlen Hne Hk')
      as [x E].
    eexists. split; [exact E | exact I].
  - intros s0 _. unfold merge_class.
    rewrite (gather_spec tumor_labels input i Hlen), Hclass. cbn [bind].
    rewrite (@stack_ragged D a bad pre post (snd s0) Hu Hbad). reflexivity.
Qed.

Lemma pooling_ragged_class_raises_witness :
  merge_concepts_per_tumor_type 2 [0%Z; 1%Z; 1%Z]
    [[Arr1 [1; 2]]; [Arr1 [3; 4]]; [Arr1 [5; 6; 7]]]
  = Raise (ValueError
             "all the input array dimensions except for the concatenation axis must match exactly, but along dimension 1, the array at index 0 has size 2 and the array at index 1 has size 3").
Proof.
  apply (@pooling_ragged_class_raises 2 1 2 [0%Z; 1%Z; 1%Z]
           [[Arr1 [1; 2]]; [Arr1 [3; 4]]; [Arr1 [5; 6; 7]]]
           (Arr1 [3; 4]) (Arr1 [5; 6; 7]) [] []).
  - simpl. lia.
  - lia.
  - intros k Hk. assert (k = 0%nat) by lia. subst k. split.
    + discriminate.
    + exists 2%nat. repeat constructor; discriminate.
  - reflexivity.
  - repeat constructor; discriminate.
  - simpl. lia.
Defined.

(** ** Histogram analysis: inputs it rejects *)

(** X9.  [histogram_analysis] needs a 2-D stack of rows: without any
    class, or with one class that is an empty 1-D array, it raises the
    [ValueError] of [np.min] over nothing (zero-size array to reduction
    operation minimum which has no identity), and with a single class that
    is a single 1-D row it raises [TypeError], the column extrema being
    scalars without a length. *)
Theorem histogram_analysis_needs_rows
        (histogramdd : ndarray -> list (list Q) -> result ndarray)
        (step x : Q) (v : list Q) :
  histogram_analysis histogramdd [] step
  = Raise (ValueError zero_size_message) /\
  histogram_analysis histogramdd [Arr1 []] step
  = Raise (ValueError zero_size_message) /\
  histogram_analysis histogramdd [Arr1 (x :: v)] step = Raise TypeError.
Proof. repeat split; reflexivity. Qed.

Lemma stack_all_rows (D : nat) (input : list ndarray) :
  input <> [] -> Forall (uniform D) input -> (forall v, input <> [Arr1 v]) ->
  exists r rest, stack_all input = Ok (Arr2 (r :: rest)) /\
                 all_rows input = r :: rest /\
                 Forall (fun x => length x = D) (r :: rest).
Proof.
  intros Hne Hu H2d.
  pose proof (stack_all_spec Hu) as Hs.
  assert (Hall : Forall (fun x => length x = D) (all_rows input)).
  { unfold all_rows. apply Forall_flat_map.
    apply Forall_impl with (2 := Hu). intros a [_ Ha]. exact Ha. }
  destruct input as [|a [|b rest]]; [congruence | |].
  - destruct a as [v|rows]; [exfalso; apply (H2d v); reflexivity|].
    inversion Hu as [|? ? [Hna Hfa] _]. subst. simpl in Hna, Hfa.
    destruct rows as [|r rows]; [congruence|].
    exists r, rows. unfold all_rows in *. simpl in *.
    rewrite app_nil_r in *. auto.
  - inversion Hu as [|? ? [Hna Hfa] _]. subst.
    destruct (all_rows (a :: b :: rest)) as [|r rows] eqn:E.
    + unfold all_rows in E. simpl in E.
      apply app_eq_nil in E. tauto.
    + exists r, rows. auto.
Qed.

(** X10.  A bin width of 0 makes [histogram_analysis] raise on every
    well-formed input with at least one column: [math.ceil] is handed an
    infinite quotient ([OverflowError]) or, when the first column is
    constant, a NaN ([ValueError]). *)
Theorem histogram_analysis_zero_step_raises
        (histogramdd : ndarray -> list (list Q) -> result ndarray)
        (input : list ndarray) (step : Q) (D : nat) :
  step == 0 ->
  (0 < D)%nat ->
  input <> [] ->
  Forall (uniform D) input ->
  (forall v, input <> [Arr1 v]) ->
  histogram_analysis histogramdd input step = Raise OverflowError \/
  histogram_analysis histogramdd input step = Raise (ValueError nan_message).
Proof.
  intros Hstep HD Hne Hu H2d.
  destruct (stack_all_rows Hne Hu H2d) as [r [rest [Ex [_ Hrows]]]].
  destruct (reduce_axis0_rows "minimum" Qmin Hrows) as [v [Ev [Lv _]]].
  destruct (reduce_axis0_rows "maximum" Qmax Hrows) as [w [Ew [Lw _]]].
  unfold histogram_analysis, shared_bins. rewrite Ex. cbn [bind].
  unfold bin_edges, min_axis0, max_axis0.
  rewrite Ev. cbn [bind]. rewrite Ew. cbn [bind len]. rewrite Lv.
  destruct D as [|D]; [lia|].
  change (range (S D)) with (0%nat :: seq 1 D). cbn [for_each item].
  rewrite (getitem_nth v 0) by lia.
  rewrite (getitem_nth w 0) by lia. cbn [bind].
  unfold edges.
  assert (Hz : Qeq_bool step 0 = true) by (apply Qeq_bool_iff; assumption).
  rewrite Hz.
  destruct (Qeq_bool (nth 0 w 0 - nth 0 v 0) 0); [right | left]; reflexivity.
Qed.

Lemma histogram_analysis_zero_step_raises_witness :
  histogram_analysis no_histogram [Arr2 [[1; 5]; [2; 3]]; Arr1 [0; 7 # 2]] 0
  = Raise OverflowError \/
  histogram_analysis no_histogram [Arr2 [[1; 5]; [2; 3]]; Arr1 [0; 7 # 2]] 0
  = Raise (ValueError nan_message).
Proof.
  apply (@histogram_analysis_zero_step_raises no_histogram
           [Arr2 [[1; 5]; [2; 3]]; Arr1 [0; 7 # 2]] 0 2).
  - reflexivity.
  - lia.
  - discriminate.
  - repeat constructor; discriminate.
  - intros v H. discriminate H.
Defined.

(** ** Histogram analysis: the edges against the data *)

Lemma shared_bins_edges (input : list ndarray) (step : Q) (D : nat) :
  0 < step -> input <> [] -> Forall (uniform D) input ->
  (forall v, input <> [Arr1 v]) ->
  exists bins,
    shared_bins input step = Ok bins /\ length bins = D /\
    forall d, (d < D)%nat ->
      exists lo hi,
        is_min lo (column d (all_rows input)) /\
        is_max hi (column d (all_rows input)) /\
        nth d bins [] = edge_list lo step (ceil ((hi - lo) / step)).
Proof.
  intros Hstep Hne Hu H2d.
  destruct (stack_all_rows Hne Hu H2d) as [r [rest [Ex [Erows Hrows]]]].
  destruct (bin_edges_rows Hstep Hrows) as [bins [Eb [Lb Nb]]].
  exists bins. unfold shared_bins. rewrite Ex. cbn [bind].
  split; [assumption|]. split; [assumption|].
  intros d Hd.
  exists (fold_left Qmin (column d rest) (nth d r 0)),
         (fold_left Qmax (column d rest) (nth d r 0)).
  rewrite Erows.
  split; [apply (fold_min_is_min (column d rest) (nth d r 0))|].
  split; [apply (fold_max_is_max (column d rest) (nth d r 0))|].
  apply Nb. assumption.
Qed.

Lemma edge_list_nth (lo step : Q) (ctr : Z) (k : nat) :
  (k < Z.to_nat (ctr + 1))%nat ->
  nth k (edge_list lo step ctr) 0 = lo + inject_Z (Z.of_nat k) * step.
Proof.
  intros Hk. unfold edge_list, range.
  rewrite (nth_indep _ 0 (lo + inject_Z (Z.of_nat 0) * step))
    by (rewrite length_map, length_seq; assumption).
  rewrite (map_nth (fun j => lo + inject_Z (Z.of_nat j) * step)).
  rewrite seq_nth by assumption. reflexivity.
Qed.

Lemma edge_list_length (lo step : Q) (ctr : Z) :
  length (edge_list lo step ctr) = Z.to_nat (ctr + 1).
Proof. unfold edge_list, range. rewrite length_map, length_seq. reflexivity. Qed.

(** X12.  A dimension in which all pooled values of all classes coincide
    gets a single edge, hence no bin at all. *)
Theorem constant_column_single_edge (input : list ndarray) (step : Q)
        (D d : nat) :
  0 < step ->
  input <> [] ->
  Forall (uniform D) input ->
  (forall v, input <> [Arr1 v]) ->
  (d < D)%nat ->
  (forall row row', In row (all_rows input) -> In row' (all_rows input) ->
                    nth d row 0 == nth d row' 0) ->
  exists bins,
    shared_bins input step = Ok bins /\ length (nth d bins []) = 1%nat.
Proof.
  intros Hstep Hne Hu H2d Hd Hconst.
  destruct (shared_bins_edges Hstep Hne Hu H2d) as [bins [Eb [Lb Hb]]].
  exists bins. split; [assumption|].
  destruct (Hb d Hd) as [lo [hi [[Hlo _] [[Hhi _] Hnth]]]].
  rewrite Hnth, edge_list_length.
  unfold column in Hlo, Hhi.
  apply in_map_iff in Hlo. destruct Hlo as [row [Erow Hrow]].
  apply in_map_iff in Hhi. destruct Hhi as [row' [Erow' Hrow']].
  assert (Heq : hi == lo).
  { rewrite <- Erow, <- Erow'. apply Hconst; assumption. }
  assert (Hq : (hi - lo) / step == 0).
  { rewrite Heq. unfold Qdiv. ring. }
  unfold ceil. rewrite (Qceiling_comp _ _ Hq). reflexivity.
Qed.

Lemma constant_column_single_edge_witness :
  exists bins,
    shared_bins [Arr2 [[1; 5]; [2; 5]]; Arr1 [0; 5]] (1 # 2) = Ok bins /\
    length (nth 1 bins []) = 1%nat.
Proof.
  apply (@constant_column_single_edge
           [Arr2 [[1; 5]; [2; 5]]; Arr1 [0; 5]] (1 # 2) 2 1).
  - reflexivity.
  - discriminate.
  - repeat constructor; discriminate.
  - intros v H. discriminate H.
  - lia.
  - intros row row' Hr Hr'. simpl in Hr, Hr'.
    destruct Hr as [<-|[<-|[<-|[]]]]; destruct Hr' as [<-|[<-|[<-|[]]]];
      reflexivity.
Defined.

(** ** Normalization: empty histograms *)

Lemma amin_empty (c : ndarray) :
  entries c = [] -> amin c = Raise (ValueError zero_size_message).
Proof. intros H. unfold amin. rewrite H. reflexivity. Qed.

Lemma scan_loop_empty_raises :
  forall (count : list ndarray) (idxs : list nat) (mm : ext * ext),
    length idxs = length count ->
    (exists c, In c count /\ entries c = []) ->
    for_each (combine idxs count)
             (fun (p : nat * ndarray) (mm0 : ext * ext) =>
                lo <- amin (snd p) ;;
                let minm := if lt_ext lo (fst mm0) then Fin lo else fst mm0 in
                hi <- amax (snd p) ;;
                let maxm := if gt_ext hi (snd mm0) then Fin hi else snd mm0 in
                Ok (minm, maxm))
             mm
    = Raise (ValueError zero_size_message).
Proof.
  induction count as [|c count IH]; intros idxs mm Hlen [c0 [Hin He]];
    [destruct Hin|].
  destruct idxs as [|k idxs]; [discriminate|]. simpl.
  destruct (entries c) as [|x rest] eqn:Ec.
  - rewrite (amin_empty c Ec). reflexivity.
  - destruct (@amin_spec c) as [m [Em _]]; [congruence|].
    destruct (@amax_spec c) as [M [EM _]]; [congruence|].
    rewrite Em. cbn [bind]. rewrite EM. cbn [bind].
    apply IH; [simpl in Hlen; lia|].
    destruct Hin as [->|Hin]; [congruence|]. eauto.
Qed.

Lemma scan_min_max_empty_raises (count : list ndarray) :
  (exists c, In c count /\ entries c = []) ->
  scan_min_max count = Raise (ValueError zero_size_message).
Proof.
  intros H. unfold scan_min_max.
  rewrite (for_each_index
             (fun (i : nat) (c : ndarray) (mm : ext * ext) =>
                lo <- amin c ;;
                let minm := if lt_ext lo (fst mm) then Fin lo else fst mm in
                hi <- amax c ;;
                let maxm := if gt_ext hi (snd mm) then Fin hi else snd mm in
                Ok (minm, maxm))).
  apply scan_loop_empty_raises; [|assumption].
  unfold range. apply length_seq.
Qed.

(** X13.  When [np.histogramdd] hands back an empty histogram for some
    class, [histogram_analysis] raises the [ValueError] of [np.min] over
    nothing (zero-size array to reduction operation minimum which has no
    identity) instead of normalizing. *)
Theorem empty_histogram_raises
        (histogramdd : ndarray -> list (list Q) -> result ndarray)
        (input : list ndarray) (step : Q)
        (bins : list (list Q)) (count : list ndarray) (c : ndarray) :
  shared_bins input step = Ok bins ->
  map_m (fun a => histogramdd a bins) input = Ok count ->
  In c count -> entries c = [] ->
  histogram_analysis histogramdd input step
  = Raise (ValueError zero_size_message).
Proof.
  intros Hb Hc Hin He. unfold histogram_analysis.
  rewrite Hb. cbn [bind]. rewrite Hc. cbn [bind].
  unfold normalize.
  rewrite scan_min_max_empty_raises by eauto. reflexivity.
Qed.

Lemma empty_histogram_raises_witness :
  histogram_analysis (fun a bins => Ok (Arr2 []))
                     [Arr2 [[1]; [2]]; Arr2 [[3]; [5]]] (1 # 2)
  = Raise (ValueError zero_size_message).
Proof.
  apply (@empty_histogram_raises (fun a bins => Ok (Arr2 []))
           [Arr2 [[1]; [2]]; Arr2 [[3]; [5]]] (1 # 2)
           [[2 # 2; 3 # 2; 4 # 2; 5 # 2; 6 # 2; 7 # 2; 8 # 2; 9 # 2; 10 # 2]]
           [Arr2 []; Arr2 []] (Arr2 [])).
  - vm_compute. reflexivity.
  - reflexivity.
  - left. reflexivity.
  - reflexivity.
Defined.

(** ** The per-concept variant *)

Lemma normalize_returns_nonempty (count out : list ndarray) :
  normalize count = Ok out -> Forall (fun c => entries c <> []) count.
Proof.
  intros H. apply Forall_forall. intros c Hin He.
  unfold normalize in H.
  rewrite scan_min_max_empty_raises in H by eauto. discriminate.
Qed.

Lemma normalize_length (count out : list ndarray) :
  normalize count = Ok out -> length out = length count.
Proof.
  unfold normalize. intros H.
  destruct (scan_min_max count) as [[lo hi]|]; [|discriminate].
  cbn [bind] in H.
  destruct lo, hi; try (inversion H; reflexivity).
  destruct (negb (Qeq_bool (q0 - q) 0)); inversion H;
    [apply length_map | reflexivity].
Qed.

Lemma normalize_result (count out : list ndarray) :
  count <> [] -> normalize count = Ok out ->
  (exists v0, forall v, In v (all_entries out) -> v == v0) \/
  ((forall v, In v (all_entries out) -> 0 <= v /\ v <= 1) /\
   (exists v, In v (all_entries out) /\ v == 0) /\
   (exists v, In v (all_entries out) /\ v == 1)).
Proof.
  intros Hne H.
  destruct (normalize_spec Hne (normalize_returns_nonempty _ H))
    as [lo [hi [out' [Hlo [Hhi [E [Hdeg Hnorm]]]]]]].
  rewrite H in E. inversion E. subst out'.
  destruct (Qeq_dec hi lo) as [Heq|Hneq].
  - left. exists lo. intros v Hv. rewrite (Hdeg Heq) in Hv.
    apply Qle_antisym.
    + rewrite <- Heq. apply Hhi. assumption.
    + apply Hlo. assumption.
  - right. apply (Hnorm Hneq).
Qed.

Lemma per_concept_length
      (histogramdd : ndarray -> list (list Q) -> result ndarray) (step : Q) :
  forall (input count out : list ndarray),
    for_each input
             (fun x count0 =>
                bins <- bin_edges x step ;;
                H <- histogramdd x bins ;;
                normalize (count0 ++ [H]))
             count
    = Ok out ->
    length out = (length count + length input)%nat.
Proof.
  induction input as [|x input IH]; intros count out E; simpl in E.
  - inversion E. subst. simpl. lia.
  - destruct (bin_edges x step) as [bins|]; [|discriminate]. cbn [bind] in E.
    destruct (histogramdd x bins) as [H|]; [|discriminate]. cbn [bind] in E.
    destruct (normalize (count ++ [H])) as [c1|] eqn:En; [|discriminate].
    cbn [bind] in E. rewrite (IH _ _ E).
    rewrite (normalize_length _ En), length_app. simpl. lia.
Qed.

(** X14.  When [histogram_analysis_per_concept] returns on a non-empty
    input, it returns one histogram per input array, and the histograms
    are normalized together: either all their entries are equal, or they
    all lie in [[0, 1]] with both 0 and 1 among them. *)
Theorem per_concept_histograms_normalized
        (histogramdd : ndarray -> list (list Q) -> result ndarray)
        (input out : list ndarray) (step : Q) :
  input <> [] ->
  histogram_analysis_per_concept histogramdd input step = Ok out ->
  length out = length input /\
  ((exists v0, forall v, In v (all_entries out) -> v == v0) \/
   ((forall v, In v (all_entries out) -> 0 <= v /\ v <= 1) /\
    (exists v, In v (all_entries out) /\ v == 0) /\
    (exists v, In v (all_entries out) /\ v == 1))).
Proof.
  intros Hne E. unfold histogram_analysis_per_concept in E.
  split; [apply (per_concept_length histogramdd step input [] E)|].
  destruct (exists_last Hne) as [pre [x Hx]]. subst input.
  rewrite for_each_app in E.
  destruct (for_each pre _ []) as [count|]; [|discriminate].
  cbn [bind for_each] in E.
  destruct (bin_edges x step) as [bins|]; [|discriminate]. cbn [bind] in E.
  destruct (histogramdd x bins) as [H|]; [|discriminate]. cbn [bind] in E.
  destruct (normalize (count ++ [H])) as [c1|] eqn:En; [|discriminate].
  cbn [bind] in E. inversion E. subst c1.
  apply (@normalize_result (count ++ [H]) out); [|assumption].
  intros Hnil. apply app_eq_nil in Hnil. destruct Hnil. discriminate.
Qed.

Lemma per_concept_histograms_normalized_witness :
  length [Arr2 [[0 # 5]; [1 # 5]]; Arr2 [[3 # 5]; [5 # 5]]]
  = length [Arr2 [[1]; [2]]; Arr2 [[3]; [5]]] /\
  ((exists v0, forall v,
        In v (all_entries [Arr2 [[0 # 5]; [1 # 5]]; Arr2 [[3 # 5]; [5 # 5]]]) ->
        v == v0) \/
   ((forall v, In v (all_entries [Arr2 [[0 # 5]; [1 # 5]]; Arr2 [[3 # 5]; [5 # 5]]]) ->
               0 <= v /\ v <= 1) /\
    (exists v, In v (all_entries [Arr2 [[0 # 5]; [1 # 5]]; Arr2 [[3 # 5]; [5 # 5]]]) /\
               v == 0) /\
    (exists v, In v (all_entries [Arr2 [[0 # 5]; [1 # 5]]; Arr2 [[3 # 5]; [5 # 5]]]) /\
               v == 1))).
Proof.
  apply (@per_concept_histograms_normalized no_histogram
           [Arr2 [[1]; [2]]; Arr2 [[3]; [5]]]
           [Arr2 [[0 # 5]; [1 # 5]]; Arr2 [[3 # 5]; [5 # 5]]] (1 # 2)).
  - discriminate.
  - vm_compute. reflexivity.
Defined.

(** ** The orchestrator: what runs and what is returned *)

Section OrchestratorMore.

Import Explain.

Variables DGLGraph CellGraphModel Attributes Grouping DataFrame : Type.

Variable calculate_importance :
  list DGLGraph -> CellGraphModel -> string -> result (list DGLGraph).
Variable generate_interactives :
  list DGLGraph -> list string -> list string -> string -> result unit.
Variable calculate_separability :
  list DGLGraph * list Z -> CellGraphModel -> Attributes -> list string ->
  bool -> option Grouping -> option DataFrame -> option DataFrame ->
  option string -> result (tables DataFrame).

Variable cell_graphs_and_labels : list DGLGraph * list Z.
Variable model : CellGraphModel.
Variable explainer_model : string.
Variable attributes : Attributes.
Variable attribute_names : list string.
Variable concept_grouping : option Grouping.
Variables risk patho_prior : option DataFrame.

(** X15.  What [explain_cell_graphs] returns is what
    [calculate_separability] returned for the caller's own graphs, labels,
    pruning flag, grouping, risk, prior and output directory, and that
    call is the last one made. *)
Theorem explain_returns_separability_tables
        (prune : bool) (fnames gnames : option (list string))
        (out : option string) (t : tables DataFrame) :
  snd (explain_cell_graphs calculate_importance generate_interactives
           calculate_separability cell_graphs_and_labels model explainer_model
           attributes attribute_names prune concept_grouping risk patho_prior
           fnames gnames out)
  = Returned t ->
  calculate_separability cell_graphs_and_labels model attributes
    attribute_names prune concept_grouping risk patho_prior out = Ok t /\
  exists before,
    fst (explain_cell_graphs calculate_importance generate_interactives
           calculate_separability cell_graphs_and_labels model explainer_model
           attributes attribute_names prune concept_grouping risk patho_prior
           fnames gnames out)
    = before ++ [CalculateSeparability cell_graphs_and_labels prune out].
Proof.
  unfold explain_cell_graphs, then_, invoke. simpl.
  destruct (calculate_importance _ _ _) as [cg|e]; simpl; [|discriminate].
  destruct out as [o|], fnames as [f|], gnames as [g|]; simpl;
    try destruct (generate_interactives cg f g o); simpl;
    try discriminate;
    destruct (calculate_separability _ _ _ _ _ _ _ _ _) as [t'|e'];
    simpl; intros H; try discriminate; inversion H; subst;
    (split; [reflexivity|]);
    first [ exists [CalculateImportance (fst cell_graphs_and_labels)
                                        explainer_model;
                    GenerateInteractives cg f g o]; reflexivity
          | exists [CalculateImportance (fst cell_graphs_and_labels)
                                        explainer_model]; reflexivity ].
Qed.

(** X16.  When the configuration error is raised, the importance
    computation is the only call that was made: nothing was plotted and
    no separability was computed; the message is the one of line 43. *)
Theorem configuration_error_after_importance_only
        (prune : bool) (fnames gnames : option (list string))
        (out : option string) (msg : string) :
  snd (explain_cell_graphs calculate_importance generate_interactives
           calculate_separability cell_graphs_and_labels model explainer_model
           attributes attribute_names prune concept_grouping risk patho_prior
           fnames gnames out)
  = ConfigurationError msg ->
  fst (explain_cell_graphs calculate_importance generate_interactives
           calculate_separability cell_graphs_and_labels model explainer_model
           attributes attribute_names prune concept_grouping risk patho_prior
           fnames gnames out)
  = [CalculateImportance (fst cell_graphs_and_labels) explainer_model] /\
  msg = plots_message.
Proof.
  unfold explain_cell_graphs, then_, invoke. simpl.
  destruct (calculate_importance _ _ _) as [cg|e]; simpl; [|discriminate].
  destruct out as [o|], fnames as [f|], gnames as [g|]; simpl;
    try destruct (generate_interactives cg f g o); simpl;
    try destruct (calculate_separability _ _ _ _ _ _ _ _ _); simpl;
    intros H; try discriminate; inversion H; split; reflexivity.
Qed.

(** X17.  Once the importance computation has returned, the plots are
    generated exactly when feature names, cell graph names and output
    directory are all supplied, and then from the graphs the importance
    computation returned and with the names and directory supplied. *)
Theorem interactives_iff_all_supplied
        (cell_graphs shown : list DGLGraph) (prune : bool)
        (fnames gnames : option (list string)) (out : option string)
        (f g : list string) (o : string) :
  calculate_importance (fst cell_graphs_and_labels) model explainer_model
  = Ok cell_graphs ->
  In (GenerateInteractives shown f g o)
     (fst (explain_cell_graphs calculate_importance generate_interactives
           calculate_separability cell_graphs_and_labels model explainer_model
           attributes attribute_names prune concept_grouping risk patho_prior
           fnames gnames out))
  <-> (shown = cell_graphs /\ fnames = Some f /\ gnames = Some g /\
       out = Some o).
Proof.
  intros Himp. unfold explain_cell_graphs, then_, invoke. simpl.
  rewrite Himp. simpl.
  destruct out as [o'|], fnames as [f'|], gnames as [g'|]; simpl;
    try destruct (generate_interactives cell_graphs f' g' o'); simpl;
    split; intros H;
    repeat match goal with
           | Hor : _ \/ _ |- _ => destruct Hor
           | Hand : _ /\ _ |- _ => destruct Hand
           | Hf : False |- _ => destruct Hf
           end;
    try discriminate;
    try match goal with
        | Heq : GenerateInteractives _ _ _ _ = GenerateInteractives _ _ _ _
          |- _ => inversion Heq; subst; auto
        end;
    try (subst; repeat match goal with
                       | Heq : Some _ = Some _ |- _ =>
                           inversion Heq; clear Heq; subst
                       end; auto).
Qed.

(** X18.  An exception of the importance computation, or of the plotting
    when all three visualization parameters are supplied, ends the run with
    that exception, and no separability is computed. *)
Theorem collaborator_failure_stops_run
        (prune : bool) (fnames gnames : option (list string))
        (out : option string) (e : exn) :
  calculate_importance (fst cell_graphs_and_labels) model explainer_model
  = Raise e \/
  (exists cell_graphs f g o,
      calculate_importance (fst cell_graphs_and_labels) model explainer_model
      = Ok cell_graphs /\
      fnames = Some f /\ gnames = Some g /\ out = Some o /\
      generate_interactives cell_graphs f g o = Raise e) ->
  snd (explain_cell_graphs calculate_importance generate_interactives
           calculate_separability cell_graphs_and_labels model explainer_model
           attributes attribute_names prune concept_grouping risk patho_prior
           fnames gnames out)
  = Propagated e /\
  forall gl p o,
    ~ In (CalculateSeparability gl p o)
         (fst (explain_cell_graphs calculate_importance generate_interactives
           calculate_separability cell_graphs_and_labels model explainer_model
           attributes attribute_names prune concept_grouping risk patho_prior
           fnames gnames out)).
Proof.
  unfold explain_cell_graphs, then_, invoke. simpl.
  intros [Himp | [cg [f [g [o [Himp [-> [-> [-> Hplot]]]]]]]]];
    rewrite Himp; simpl.
  - split; [reflexivity|]. intros gl p o [H|[]]. discriminate.
  - rewrite Hplot. simpl. split; [reflexivity|].
    intros gl p o' [H|[H|[]]]; discriminate.
Qed.

End OrchestratorMore.

Lemma explain_returns_separability_tables_witness :
  separability_example ([7%nat; 8%nat], [0%Z; 1%Z]) tt tt ["CD3"%string] true
    None None None (Some "out/"%string) = Ok (tt, tt, []) /\
  exists before,
    fst (Explain.explain_cell_graphs importance_example interactives_example
         separability_example ([7%nat; 8%nat], [0%Z; 1%Z]) tt "pp"%string tt
         ["CD3"%string] true None None None (Some ["CD3"%string]) (Some ["G7"%string; "G8"%string]) (Some "out/"%string))
    = before ++ [Explain.CalculateSeparability ([7%nat; 8%nat], [0%Z; 1%Z])
                   true (Some "out/"%string)].
Proof.
  apply (@explain_returns_separability_tables nat unit unit unit unit
           importance_example interactives_example separability_example
           ([7%nat; 8%nat], [0%Z; 1%Z]) tt "pp"%string tt ["CD3"%string] None None None
           true (Some ["CD3"%string]) (Some ["G7"%string; "G8"%string])
           (Some "out/"%string) (tt, tt, [])).
  reflexivity.
Defined.

Lemma configuration_error_after_importance_only_witness :
  fst (Explain.explain_cell_graphs importance_example interactives_example
         separability_example ([7%nat; 8%nat], [0%Z; 1%Z]) tt "pp"%string tt
         ["CD3"%string] true None None None (Some ["CD3"%string]) None (Some "out/"%string))
  = [Explain.CalculateImportance [7%nat; 8%nat] "pp"%string] /\
  Explain.plots_message = Explain.plots_message.
Proof.
  apply (@configuration_error_after_importance_only nat unit unit unit unit
           importance_example interactives_example separability_example
           ([7%nat; 8%nat], [0%Z; 1%Z]) tt "pp"%string tt ["CD3"%string] None None None
           true (Some ["CD3"%string]) None (Some "out/"%string)
           Explain.plots_message).
  reflexivity.
Defined.

Lemma interactives_iff_all_supplied_witness :
  In (Explain.GenerateInteractives [107%nat; 108%nat] ["CD3"%string]
        ["G7"%string; "G8"%string] "out/"%string)
     (fst (Explain.explain_cell_graphs importance_example interactives_example
         separability_example ([7%nat; 8%nat], [0%Z; 1%Z]) tt "pp"%string tt
         ["CD3"%string] true None None None (Some ["CD3"%string]) (Some ["G7"%string; "G8"%string]) (Some "out/"%string)))
  <-> ([107%nat; 108%nat] = map annotate_example [7%nat; 8%nat] /\
       Some ["CD3"%string] = Some ["CD3"%string] /\
       Some ["G7"%string; "G8"%string] = Some ["G7"%string; "G8"%string] /\
       Some "out/"%string = Some "out/"%string).
Proof.
  apply (@interactives_iff_all_supplied nat unit unit unit unit
           importance_example interactives_example separability_example
           ([7%nat; 8%nat], [0%Z; 1%Z]) tt "pp"%string tt ["CD3"%string] None None None
           (map annotate_example [7%nat; 8%nat]) [107%nat; 108%nat] true
           (Some ["CD3"%string]) (Some ["G7"%string; "G8"%string])
           (Some "out/"%string)
           ["CD3"%string] ["G7"%string; "G8"%string] "out/"%string).
  reflexivity.
Defined.

Lemma collaborator_failure_stops_run_witness :
  snd (Explain.explain_cell_graphs importance_failing interactives_example
         separability_example ([7%nat; 8%nat], [0%Z; 1%Z]) tt "pp"%string tt
         ["CD3"%string] true None None None (Some ["CD3"%string]) (Some ["G7"%string; "G8"%string]) (Some "out/"%string))
  = Explain.Propagated (ValueError "unknown explainer") /\
  forall gl p o,
    ~ In (Explain.CalculateSeparability gl p o)
         (fst (Explain.explain_cell_graphs importance_failing interactives_example
         separability_example ([7%nat; 8%nat], [0%Z; 1%Z]) tt "pp"%string tt
         ["CD3"%string] true None None None (Some ["CD3"%string]) (Some ["G7"%string; "G8"%string]) (Some "out/"%string))).
Proof.
  apply (@collaborator_failure_stops_run nat unit unit unit unit
           importance_failing interactives_example separability_example
           ([7%nat; 8%nat], [0%Z; 1%Z]) tt "pp"%string tt ["CD3"%string] None None None
           true (Some ["CD3"%string]) (Some ["G7"%string; "G8"%string])
           (Some "out/"%string) (ValueError "unknown explainer")).
  left. reflexivity.
Defined.

(** ** The three sets of [run] *)

Lemma sort_into_sets_fold (DGLGraph : Type)
      (graphs : list (Run.GraphData DGLGraph)) :
  forall tr va te : Run.graph_set DGLGraph,
    fold_left
      (fun (tvt : Run.three_sets DGLGraph) d =>
         let '(tr0, va0, te0) := tvt in
         if String.eqb (Run.train_validation_test d) "validation"
         then (tr0, Run.append_to va0 d, te0)
         else if String.eqb (Run.train_validation_test d) "test"
              then (tr0, va0, Run.append_to te0 d)
              else (Run.append_to tr0 d, va0, te0))
      graphs (tr, va, te)
    = ((fst tr ++ fst (collect is_train graphs),
        snd tr ++ snd (collect is_train graphs)),
       (fst va ++ fst (collect is_validation graphs),
        snd va ++ snd (collect is_validation graphs)),
       (fst te ++ fst (collect is_test graphs),
        snd te ++ snd (collect is_test graphs))).
Proof.
  induction graphs as [|d graphs IH]; intros [tr1 tr2] [va1 va2] [te1 te2].
  - simpl. rewrite !app_nil_r. reflexivity.
  - cbn [fold_left]. unfold collect, is_train, is_validation, is_test.
    cbn [filter fst snd].
    destruct (String.eqb (Run.train_validation_test d) "validation") eqn:Ev.
    + assert (Et : String.eqb (Run.train_validation_test d) "test" = false).
      { apply String.eqb_eq in Ev. rewrite Ev. reflexivity. }
      rewrite Et. simpl. unfold Run.append_to. rewrite IH.
      unfold collect, is_train, is_validation, is_test. simpl.
      rewrite <- !app_assoc. reflexivity.
    + destruct (String.eqb (Run.train_validation_test d) "test") eqn:Et;
        simpl; unfold Run.append_to; rewrite IH;
        unfold collect, is_train, is_validation, is_test; simpl;
        rewrite <- !app_assoc; reflexivity.
Qed.

(** X19.  The loop of lines 41-48 sorts the graphs by their split field:
    the validation set holds the graphs marked ["validation"], the test
    set those marked ["test"], and the training set every other graph,
    whatever its field says; each set keeps the order of the input and
    pairs every graph with its own label. *)
Theorem sort_into_sets_by_split (DGLGraph : Type)
        (graphs : list (Run.GraphData DGLGraph)) :
  Run.sort_into_sets graphs
  = (collect is_train graphs, collect is_validation graphs,
     collect is_test graphs).
Proof.
  exact (sort_into_sets_fold graphs ([], []) ([], []) ([], [])).
Qed.

Lemma collect_aligned (DGLGraph : Type) (keep : string -> bool)
      (graphs : list (Run.GraphData DGLGraph)) :
  length (fst (collect keep graphs)) = length (snd (collect keep graphs)).
Proof. unfold collect. simpl. rewrite !length_map. reflexivity. Qed.

(** X20.  [run] raises its [RuntimeError] exactly when it is given no
    graph at all; with at least one graph the loop stops at a set that
    holds a graph and as many labels as graphs. *)
Theorem run_fails_only_without_graphs (DGLGraph : Type)
        (graphs : list (Run.GraphData DGLGraph)) :
  (Run.evaluation_set 3 (Run.sort_into_sets graphs)
   = Some (Raise (RuntimeError "all sets created are empty"))
   <-> graphs = []) /\
  (graphs <> [] ->
   exists s, Run.evaluation_set 3 (Run.sort_into_sets graphs) = Some (Ok s) /\
             fst s <> [] /\ length (fst s) = length (snd s)).
Proof.
  split; [apply run_raises_iff_no_graph|].
  intros Hne.
  pose proof (run_raises_iff_no_graph graphs) as Hiff.
  assert (Hsort : Run.sort_into_sets graphs
                 = (collect is_train graphs, collect is_validation graphs,
                    collect is_test graphs)).
  { exact (sort_into_sets_fold graphs ([], []) ([], []) ([], [])). }
  rewrite Hsort in *.
  change 3%nat with (3 + 0)%nat in *.
  rewrite evaluation_set_cases in *.
  unfold has_graphs in *.
  destruct (Nat.eqb_spec (length (fst (collect is_test graphs))) 0) as [Ht|Ht];
    cbn [negb] in *.
  - destruct (Nat.eqb_spec (length (fst (collect is_validation graphs))) 0)
      as [Hv|Hv]; cbn [negb] in *.
    + destruct (Nat.eqb_spec (length (fst (collect is_train graphs))) 0)
        as [Hr|Hr]; cbn [negb] in *.
      * exfalso. apply Hne. apply Hiff. reflexivity.
      * eexists. split; [reflexivity|]. split; [|apply collect_aligned].
        intros E. rewrite E in Hr. apply Hr. reflexivity.
    + eexists. split; [reflexivity|]. split; [|apply collect_aligned].
      intros E. rewrite E in Hv. apply Hv. reflexivity.
  - eexists. split; [reflexivity|]. split; [|apply collect_aligned].
    intros E. rewrite E in Ht. apply Ht. reflexivity.
Qed.

(** ** Dictionaries *)

Lemma filter_keeps_all (A : Type) (p : A -> bool) (l : list A) :
  (forall x, In x l -> p x = true) -> filter p l = l.
Proof.
  induction l as [|a l IH]; intros H; simpl; [reflexivity|].
  rewrite (H a) by (left; reflexivity).
  rewrite IH by (intros x Hx; apply H; right; assumption). reflexivity.
Qed.

Lemma delitem_present (V : Type) (d : dict V) (k : string) :
  NoDup (keys d) -> In k (keys d) ->
  delitem d k = Done (filter (fun kv => negb (String.eqb (fst kv) k)) d).
Proof.
  induction d as [|[k' v] d IH]; intros Hnd Hin; [destruct Hin|].
  simpl in *. inversion Hnd as [|? ? Hnotin Hnd']. subst.
  destruct (String.eqb_spec k' k) as [->|Hne]; simpl.
  - f_equal. symmetry. apply filter_keeps_all.
    intros [k2 v2] Hin2. simpl.
    destruct (String.eqb_spec k2 k) as [->|]; [|reflexivity].
    exfalso. apply Hnotin. unfold keys.
    apply (in_map fst _ _ Hin2).
  - destruct Hin as [Hin|Hin]; [contradiction|].
    rewrite (IH Hnd' Hin). reflexivity.
Qed.

Lemma delitem_missing (V : Type) (d : dict V) (k : string) :
  ~ In k (keys d) -> delitem d k = Fail (KeyError k).
Proof.
  induction d as [|[k' v] d IH]; intros Hnotin; [reflexivity|].
  simpl in *.
  destruct (String.eqb_spec k' k) as [->|Hne]; [exfalso; auto|].
  rewrite IH by auto. reflexivity.
Qed.

Lemma keys_filter_NoDup (V : Type) (p : string * V -> bool) (d : dict V) :
  NoDup (keys d) -> NoDup (keys (filter p d)).
Proof.
  induction d as [|[k v] d IH]; intros Hnd; simpl; [constructor|].
  inversion Hnd as [|? ? Hnotin Hnd']. subst.
  destruct (p (k, v)); simpl; [|auto].
  constructor; [|auto].
  intros Hin. apply Hnotin. unfold keys in *.
  apply in_map_iff in Hin. destruct Hin as [[k2 v2] [E Hin]].
  apply filter_In in Hin. destruct Hin as [Hin _].
  simpl in E. subst k2. apply (in_map fst _ _ Hin).
Qed.

Lemma keys_filter_other (V : Type) (d : dict V) (k k' : string) :
  k <> k' ->
  (In k (keys (filter (fun kv => negb (String.eqb (fst kv) k')) d))
   <-> In k (keys d)).
Proof.
  intros Hne. unfold keys. rewrite !in_map_iff. split.
  - intros [kv [E Hin]]. apply filter_In in Hin. exists kv. tauto.
  - intros [kv [E Hin]]. exists kv. split; [assumption|].
    apply filter_In. split; [assumption|].
    destruct (String.eqb_spec (fst kv) k'); [congruence | reflexivity].
Qed.

Lemma for_all_map (A B : Type) (f : A -> outcome B) (g : A -> B)
      (xs : list A) :
  (forall x, In x xs -> f x = Done (g x)) -> for_all f xs = Done (map g xs).
Proof.
  induction xs as [|x xs IH]; intros H; simpl; [reflexivity|].
  rewrite (H x) by (left; reflexivity). simpl.
  rewrite IH by (intros y Hy; apply H; right; assumption). reflexivity.
Qed.

(** ** The per-class F1 scores *)

Section ScoresFacts.

Variable Logits : Type.
Variable argmax : Logits -> list Z.
Variable classification_report :
  list Z -> list Z -> option (list string) -> outcome (dict Report.report_value).

Lemma rounded_rows (report : dict Report.report_value) :
  (forall kv, In kv report -> has_f1 (snd kv)) ->
  for_all (fun kv : string * Report.report_value =>
             f <~ Report.subscript (snd kv) "f1-score" ;;
             Done (fst kv, Np.round f 3))
          report
  = Done (map rounded_f1 report).
Proof.
  intros H. apply for_all_map. intros kv Hin.
  destruct (H kv Hin) as [scores [f [E1 E2]]].
  unfold rounded_f1, f1_of. rewrite E1. simpl. rewrite E2. reflexivity.
Qed.

Lemma keys_rounded (report : dict Report.report_value) :
  keys (map rounded_f1 report) = keys report.
Proof. unfold keys. rewrite map_map. reflexivity. Qed.

Lemma drop_averages (report : dict Report.report_value) :
  filter (fun kv : string * Q => negb (String.eqb (fst kv) "weighted avg"))
    (filter (fun kv : string * Q => negb (String.eqb (fst kv) "macro avg"))
       (filter (fun kv : string * Q => negb (String.eqb (fst kv) "micro avg"))
          (map rounded_f1 report)))
  = map rounded_f1 (filter (fun kv => negb (is_average (fst kv))) report).
Proof.
  induction report as [|[k v] report IH]; [reflexivity|].
  unfold is_average in *. simpl in *.
  destruct (String.eqb k "micro avg"); simpl; [exact IH|].
  destruct (String.eqb k "macro avg"); simpl; [exact IH|].
  destruct (String.eqb k "weighted avg"); simpl; [exact IH|].
  rewrite IH. reflexivity.
Qed.

Lemma call_until_deletes (logits : Logits) (labels : list Z)
      (class_split : string) (names : list string)
      (report : dict Report.report_value) :
  PyDict.split class_split "VS" = Done names ->
  classification_report labels (argmax logits) (Some names) = Done report ->
  (forall kv, In kv report -> has_f1 (snd kv)) ->
  Report.PerClassWeightedF1Score_call argmax classification_report
    logits labels class_split
  = (per_class <~ delitem (map rounded_f1 report) "micro avg" ;;
     per_class <~ delitem per_class "macro avg" ;;
     per_class <~ delitem per_class "weighted avg" ;;
     Done per_class).
Proof.
  intros Hsplit Hrep Hf1.
  unfold Report.PerClassWeightedF1Score_call, Report.ClassificationReport_call.
  rewrite Hsplit. cbn [and_then]. rewrite Hrep. cbn [and_then].
  rewrite (rounded_rows report Hf1). reflexivity.
Qed.

(** X21.  When the report has a row with an F1 score under every key and
    holds the three average rows, [PerClassWeightedF1Score] returns the
    other rows in the order of the report, each key with its F1 score
    rounded to 3 decimals, and none of the averages. *)
Theorem per_class_f1_without_averages (logits : Logits) (labels : list Z)
        (class_split : string) (names : list string)
        (report : dict Report.report_value) :
  PyDict.split class_split "VS" = Done names ->
  classification_report labels (argmax logits) (Some names) = Done report ->
  NoDup (keys report) ->
  (forall kv, In kv report -> has_f1 (snd kv)) ->
  (forall k, In k averages -> In k (keys report)) ->
  Report.PerClassWeightedF1Score_call argmax classification_report
    logits labels class_split
  = Done (map rounded_f1
              (filter (fun kv => negb (is_average (fst kv))) report)).
Proof.
  intros Hsplit Hrep Hnd Hf1 Havg.
  rewrite (@call_until_deletes logits labels class_split names report Hsplit Hrep Hf1).
  assert (Hmicro : In "micro avg"%string (keys report))
    by (apply Havg; simpl; auto).
  assert (Hmacro : In "macro avg"%string (keys report))
    by (apply Havg; simpl; auto).
  assert (Hweighted : In "weighted avg"%string (keys report))
    by (apply Havg; simpl; auto).
  rewrite <- keys_rounded in Hnd, Hmicro, Hmacro, Hweighted.
  rewrite (@delitem_present _ _ _ Hnd Hmicro). cbn [and_then].
  rewrite delitem_present;
    [| apply keys_filter_NoDup; assumption
     | apply keys_filter_other; [discriminate | assumption]].
  cbn [and_then].
  rewrite delitem_present;
    [| apply keys_filter_NoDup; apply keys_filter_NoDup; assumption
     | apply keys_filter_other; [discriminate|];
       apply keys_filter_other; [discriminate | assumption]].
  cbn [and_then]. rewrite drop_averages. reflexivity.
Qed.

(** X22.  When the report lacks one of the three average rows,
    [PerClassWeightedF1Score] raises [KeyError] for the first one, in the
    order micro, macro, weighted, that is missing. *)
Theorem missing_average_raises_key_error (logits : Logits) (labels : list Z)
        (class_split : string) (names : list string)
        (report : dict Report.report_value) :
  PyDict.split class_split "VS" = Done names ->
  classification_report labels (argmax logits) (Some names) = Done report ->
  NoDup (keys report) ->
  (forall kv, In kv report -> has_f1 (snd kv)) ->
  (exists k, In k averages /\ ~ In k (keys report)) ->
  exists before k after,
    averages = before ++ k :: after /\
    (forall k', In k' before -> In k' (keys report)) /\
    ~ In k (keys report) /\
    Report.PerClassWeightedF1Score_call argmax classification_report
      logits labels class_split
    = Fail (KeyError k).
Proof.
  intros Hsplit Hrep Hnd Hf1 [k0 [Hk0 Hmiss]].
  rewrite (@call_until_deletes logits labels class_split names report Hsplit Hrep Hf1).
  rewrite <- keys_rounded in Hnd.
  destruct (in_dec string_dec "micro avg"%string (keys report)) as [Hmicro|Hmicro].
  - destruct (in_dec string_dec "macro avg"%string (keys report))
      as [Hmacro|Hmacro].
    + assert (Hweighted : ~ In "weighted avg"%string (keys report)).
      { simpl in Hk0. destruct Hk0 as [<-|[<-|[<-|[]]]]; tauto. }
      exists ["micro avg"%string; "macro avg"%string], "weighted avg"%string, [].
      split; [reflexivity|]. split.
      { intros k' [<-|[<-|[]]]; assumption. }
      split; [assumption|].
      rewrite <- keys_rounded in Hmicro, Hmacro, Hweighted.
      rewrite (@delitem_present _ _ _ Hnd Hmicro). cbn [and_then].
      rewrite delitem_present;
        [| apply keys_filter_NoDup; assumption
         | apply keys_filter_other; [discriminate | assumption]].
      cbn [and_then].
      rewrite delitem_missing; [reflexivity|].
      intros Hin. apply Hweighted.
      apply keys_filter_other in Hin; [|discriminate].
      apply keys_filter_other in Hin; [|discriminate]. assumption.
    + exists ["micro avg"%string], "macro avg"%string, ["weighted avg"%string].
      split; [reflexivity|]. split.
      { intros k' [<-|[]]; assumption. }
      split; [assumption|].
      rewrite <- keys_rounded in Hmicro, Hmacro.
      rewrite (@delitem_present _ _ _ Hnd Hmicro). cbn [and_then].
      rewrite delitem_missing; [reflexivity|].
      intros Hin. apply Hmacro.
      apply keys_filter_other in Hin; [|discriminate]. assumption.
  - exists [], "micro avg"%string, ["macro avg"%string; "weighted avg"%string].
    split; [reflexivity|]. split; [intros k' []|].
    split; [assumption|].
    rewrite <- keys_rounded in Hmicro.
    rewrite (@delitem_missing _ _ _ Hmicro). reflexivity.
Qed.

End ScoresFacts.

Lemma for_all_first_failure (A B : Type) (f : A -> outcome B) (g : A -> B)
      (before after : list A) (x : A) (e : error) :
  (forall y, In y before -> f y = Done (g y)) ->
  f x = Fail e ->
  for_all f (before ++ x :: after) = Fail e.
Proof.
  induction before as [|b before IH]; intros Hb Hx; simpl.
  - rewrite Hx. reflexivity.
  - rewrite (Hb b) by (left; reflexivity). simpl.
    rewrite IH; [reflexivity | | assumption].
    intros y Hy. apply Hb. right. assumption.
Qed.

Section ScoresFailures.

Variable Logits : Type.
Variable argmax : Logits -> list Z.
Variable classification_report :
  list Z -> list Z -> option (list string) -> outcome (dict Report.report_value).

(** X23.  The first value of the report without an F1 score decides how
    [PerClassWeightedF1Score] fails, whatever the rest of the report
    holds: a row without the key raises [KeyError], a bare [float]
    [TypeError], a bare NumPy scalar [IndexError]. *)
Theorem first_row_without_f1_raises (logits : Logits) (labels : list Z)
        (class_split : string) (names : list string)
        (before after : dict Report.report_value)
        (key : string) (val : Report.report_value) :
  PyDict.split class_split "VS" = Done names ->
  classification_report labels (argmax logits) (Some names)
  = Done (before ++ (key, val) :: after) ->
  (forall kv, In kv before -> has_f1 (snd kv)) ->
  ~ has_f1 val ->
  Report.PerClassWeightedF1Score_call argmax classification_report
    logits labels class_split
  = Fail (match val with
          | Report.Row _ => KeyError "f1-score"
          | Report.Float _ => Builtin TypeError
          | Report.Float64 _ => Builtin IndexError
          end).
Proof.
  intros Hsplit Hrep Hbefore Hval.
  unfold Report.PerClassWeightedF1Score_call, Report.ClassificationReport_call.
  rewrite Hsplit. cbn [and_then]. rewrite Hrep. cbn [and_then].
  rewrite (@for_all_first_failure _ _ _ rounded_f1 before after (key, val)
             (match val with
              | Report.Row _ => KeyError "f1-score"
              | Report.Float _ => Builtin TypeError
              | Report.Float64 _ => Builtin IndexError
              end)); [reflexivity | |].
  - intros kv Hin. destruct (Hbefore kv Hin) as [scores [f [E1 E2]]].
    unfold rounded_f1, f1_of. rewrite E1. simpl. rewrite E2. reflexivity.
  - cbn [snd fst]. destruct val as [scores|q|q]; simpl; try reflexivity.
    destruct (dict_getitem scores "f1-score") as [f|e] eqn:E.
    + exfalso. apply Hval. exists scores, f. split; [reflexivity | exact E].
    + simpl. f_equal. clear -E.
      induction scores as [|[k v] scores IH]; simpl in E.
      * inversion E. reflexivity.
      * destruct (String.eqb k "f1-score"); [discriminate | auto].
Qed.

End ScoresFailures.

Lemma example_rows_have_f1 (kv : string * Report.report_value) :
  In kv (class_rows_example ++ average_rows_example) -> has_f1 (snd kv).
Proof.
  intros Hin. simpl in Hin.
  destruct Hin as [<-|[<-|[<-|[<-|[]]]]]; simpl;
    eexists _, _; (split; [reflexivity|]); reflexivity.
Qed.

Lemma per_class_f1_without_averages_witness :
  Report.PerClassWeightedF1Score_call argmax_example
    (report_of_example report_example)
    [(1, 0); (0, 1); (0, 1); (1 # 2, 1 # 3)] [0%Z; 0%Z; 1%Z; 1%Z]
    "benignVSmalignant"
  = Done (map rounded_f1
              (filter (fun kv => negb (is_average (fst kv))) report_example)).
Proof.
  apply (@per_class_f1_without_averages (list (Q * Q)) argmax_example
           (report_of_example report_example)
           [(1, 0); (0, 1); (0, 1); (1 # 2, 1 # 3)] [0%Z; 0%Z; 1%Z; 1%Z]
           "benignVSmalignant" ["benign"%string; "malignant"%string]
           report_example).
  - reflexivity.
  - reflexivity.
  - simpl. repeat constructor; simpl; intuition discriminate.
  - intros kv Hin. simpl in Hin.
    destruct Hin as [<-|[<-|[<-|Hin]]];
      [| | | apply example_rows_have_f1; simpl; tauto ];
      simpl; eexists _, _; (split; [reflexivity|]); reflexivity.
  - intros k Hin. simpl in Hin. simpl.
    destruct Hin as [<-|[<-|[<-|[]]]]; tauto.
Defined.

Lemma missing_average_raises_key_error_witness :
  exists before k after,
    averages = before ++ k :: after /\
    (forall k', In k' before -> In k' (keys report_without_micro_example)) /\
    ~ In k (keys report_without_micro_example) /\
    Report.PerClassWeightedF1Score_call argmax_example
      (report_of_example report_without_micro_example)
      [(1, 0); (0, 1); (0, 1); (1 # 2, 1 # 3)] [0%Z; 0%Z; 1%Z; 1%Z]
      "benignVSmalignant"
    = Fail (KeyError k).
Proof.
  apply (@missing_average_raises_key_error (list (Q * Q)) argmax_example
           (report_of_example report_without_micro_example)
           [(1, 0); (0, 1); (0, 1); (1 # 2, 1 # 3)] [0%Z; 0%Z; 1%Z; 1%Z]
           "benignVSmalignant" ["benign"%string; "malignant"%string]
           report_without_micro_example).
  - reflexivity.
  - reflexivity.
  - simpl. repeat constructor; simpl; intuition discriminate.
  - exact example_rows_have_f1.
  - exists "micro avg"%string. split; [left; reflexivity|].
    simpl. intuition discriminate.
Defined.

Lemma first_row_without_f1_raises_witness :
  Report.PerClassWeightedF1Score_call argmax_example
    (report_of_example report_with_accuracy_example)
    [(1, 0); (0, 1); (0, 1); (1 # 2, 1 # 3)] [0%Z; 0%Z; 1%Z; 1%Z]
    "benignVSmalignant"
  = Fail (Builtin IndexError).
Proof.
  apply (@first_row_without_f1_raises (list (Q * Q)) argmax_example
           (report_of_example report_with_accuracy_example)
           [(1, 0); (0, 1); (0, 1); (1 # 2, 1 # 3)] [0%Z; 0%Z; 1%Z; 1%Z]
           "benignVSmalignant" ["benign"%string; "malignant"%string]
           class_rows_example average_rows_example
           "accuracy" (Report.Float64 (3 # 4))).
  - reflexivity.
  - reflexivity.
  - intros kv Hin. apply example_rows_have_f1. apply in_or_app. left. exact Hin.
  - intros [scores [f [E _]]]. discriminate E.
Defined.

(** ** The graphs of the interactive plots, by specimen or by name *)

Lemma dict_setitem_keys (V : Type) (d : dict V) (k k' : string) (v : V) :
  In k' (keys (dict_setitem d k v)) <-> k' = k \/ In k' (keys d).
Proof.
  induction d as [|[a b] d IH]; simpl.
  - intuition.
  - destruct (String.eqb_spec a k) as [->|Hne]; simpl.
    + intuition.
    + rewrite IH. intuition.
Qed.

Lemma dict_setitem_NoDup (V : Type) (d : dict V) (k : string) (v : V) :
  NoDup (keys d) -> NoDup (keys (dict_setitem d k v)).
Proof.
  induction d as [|[a b] d IH]; intros Hnd; simpl.
  - constructor; [intros [] | constructor].
  - inversion Hnd as [|? ? Hnotin Hnd']. subst.
    destruct (String.eqb_spec a k) as [->|Hne]; simpl.
    + constructor; assumption.
    + constructor; [|auto].
      intros Hin. apply dict_setitem_keys in Hin.
      destruct Hin as [->|Hin]; [apply Hne; reflexivity | auto].
Qed.

Lemma item_key (V : Type) (d : dict V) (k : string) (v : V) :
  In (k, v) d -> In k (keys d).
Proof. intros Hin. exact (in_map fst d (k, v) Hin). Qed.

Lemma dict_setitem_items (V : Type) (d : dict V) (k k' : string) (v v' : V) :
  NoDup (keys d) ->
  (In (k', v') (dict_setitem d k v)
   <-> (k' = k /\ v' = v) \/ (k' <> k /\ In (k', v') d)).
Proof.
  induction d as [|[a b] d IH]; intros Hnd; simpl.
  - split.
    + intros [E|[]]. inversion E. left. split; reflexivity.
    + intros [[-> ->]|[_ []]]. left. reflexivity.
  - inversion Hnd as [|? ? Hnotin Hnd']. subst.
    destruct (String.eqb_spec a k) as [->|Hne]; simpl.
    + split.
      * intros [E|Hin]; [inversion E; left; split; reflexivity|].
        right. split; [|right; assumption].
        intros ->. apply Hnotin. exact (item_key _ _ _ Hin).
      * intros [[-> ->]|[Hne [E|Hin]]];
          [left; reflexivity | inversion E; subst; exfalso; auto
           | right; assumption].
    + rewrite (IH Hnd'). split.
      * intros [E|[[-> ->]|[Hne' Hin]]].
        -- inversion E. subst. right. split; [assumption|left; reflexivity].
        -- left. split; reflexivity.
        -- right. split; [assumption|right; assumption].
      * intros [[-> ->]|[Hne' [E|Hin]]].
        -- right. left. split; reflexivity.
        -- left. assumption.
        -- right. right. split; assumption.
Qed.

Lemma dict_getitem_item (V : Type) (d : dict V) (k : string) (v : V) :
  dict_getitem d k = Done v -> In (k, v) d.
Proof.
  induction d as [|[a b] d IH]; simpl; [discriminate|].
  destruct (String.eqb_spec a k) as [->|Hne].
  - intros E. inversion E. left. reflexivity.
  - intros E. right. auto.
Qed.

Lemma dict_getitem_missing (V : Type) (d : dict V) (k : string) (e : error) :
  dict_getitem d k = Fail e -> ~ In k (keys d).
Proof.
  induction d as [|[a b] d IH]; simpl; [intros _ []|].
  destruct (String.eqb_spec a k) as [->|Hne]; [discriminate|].
  intros E [Ha|Hin]; [auto | exact (IH E Hin)].
Qed.

Lemma items_functional (V : Type) (d : dict V) (k : string) (v v' : V) :
  NoDup (keys d) -> In (k, v) d -> In (k, v') d -> v = v'.
Proof.
  induction d as [|[a b] d IH]; intros Hnd H1 H2; [destruct H1|].
  simpl in Hnd. inversion Hnd as [|? ? Hnotin Hnd']. subst.
  destruct H1 as [E1|H1], H2 as [E2|H2].
  - congruence.
  - inversion E1. subst. exfalso. apply Hnotin. exact (item_key _ _ _ H2).
  - inversion E2. subst. exfalso. apply Hnotin. exact (item_key _ _ _ H1).
  - exact (IH Hnd' H1 H2).
Qed.

Section Grouping.

Variable DGLGraph : Type.
Variable merge_rois : bool.

Lemma members_app (key : string)
      (l1 l2 : list (Interactives.GraphData DGLGraph)) :
  members merge_rois key (l1 ++ l2)
  = members merge_rois key l1 ++ members merge_rois key l2.
Proof. unfold members. rewrite filter_app, map_app. reflexivity. Qed.

Lemma members_nonempty (key : string)
      (data : list (Interactives.GraphData DGLGraph)) :
  In key (map (group_key merge_rois) data) <-> members merge_rois key data <> [].
Proof.
  unfold members. induction data as [|g data IH]; simpl.
  - split; [intros [] | intros H; apply H; reflexivity].
  - destruct (String.eqb_spec (group_key merge_rois g) key) as [E|Hne]; simpl.
    + split; [discriminate | auto].
    + rewrite <- IH. split; [intros [E|Hin]; [contradiction | assumption] | auto].
Qed.

(** The dictionary holds, for the graphs read so far, each key met with
    the graphs filed under it. *)
Lemma grouping_invariant (rest done : list (Interactives.GraphData DGLGraph))
      (groups : dict (list DGLGraph)) :
  NoDup (keys groups) ->
  (forall k gs, In (k, gs) groups <->
                In k (map (group_key merge_rois) done) /\
                gs = members merge_rois k done) ->
  let groups' :=
    fold_left
      (fun groups g =>
         if merge_rois
         then Interactives.append_to_group groups (Interactives.specimen g)
                                           (Interactives.graph g)
         else Interactives.append_to_group groups (Interactives.name g)
                                           (Interactives.graph g))
      rest groups in
  NoDup (keys groups') /\
  (forall k gs, In (k, gs) groups' <->
                In k (map (group_key merge_rois) (done ++ rest)) /\
                gs = members merge_rois k (done ++ rest)).
Proof.
  revert done groups.
  induction rest as [|g rest IH]; intros done groups Hnd Hitems; cbn zeta.
  - rewrite app_nil_r. simpl. split; assumption.
  - cbn [fold_left].
    set (key := group_key merge_rois g).
    assert (Hstep :
      (if merge_rois
       then Interactives.append_to_group groups (Interactives.specimen g)
                                         (Interactives.graph g)
       else Interactives.append_to_group groups (Interactives.name g)
                                         (Interactives.graph g))
      = dict_setitem groups key
          (members merge_rois key done ++ [Interactives.graph g])).
    { assert (E : (if merge_rois
                   then Interactives.append_to_group groups
                          (Interactives.specimen g) (Interactives.graph g)
                   else Interactives.append_to_group groups
                          (Interactives.name g) (Interactives.graph g))
                  = Interactives.append_to_group groups key
                      (Interactives.graph g)).
      { unfold key, group_key. destruct merge_rois; reflexivity. }
      rewrite E. unfold Interactives.append_to_group.
      destruct (dict_getitem groups key) as [ms|e] eqn:Eg.
      - apply dict_getitem_item in Eg. apply Hitems in Eg.
        destruct Eg as [_ ->]. reflexivity.
      - apply dict_getitem_missing in Eg.
        destruct (members merge_rois key done) as [|m ms] eqn:Em;
          [reflexivity|].
        exfalso. apply Eg.
        apply (@item_key _ groups key (m :: ms)). apply Hitems.
        split; [|symmetry; exact Em].
        apply members_nonempty. rewrite Em. discriminate. }
    rewrite Hstep.
    replace (done ++ g :: rest) with ((done ++ [g]) ++ rest)
      by (rewrite <- app_assoc; reflexivity).
    apply IH.
    + apply dict_setitem_NoDup. assumption.
    + intros k gs. rewrite (@dict_setitem_items _ groups key k _ gs Hnd).
      rewrite map_app, in_app_iff, members_app. cbn [map In].
      fold key. rewrite Hitems.
      assert (Hg : members merge_rois k [g]
                   = if String.eqb key k then [Interactives.graph g] else []).
      { unfold members. cbn [filter]. fold key.
        destruct (String.eqb key k); reflexivity. }
      rewrite Hg.
      destruct (String.eqb_spec key k) as [<-|Hne].
      * split.
        -- intros [[_ ->]|[Hne _]]; [|exfalso; apply Hne; reflexivity].
           split; [right; left; reflexivity | reflexivity].
        -- intros [_ ->]. left. split; reflexivity.
      * rewrite app_nil_r. split.
        -- intros [[-> _]|[_ [Hin ->]]]; [exfalso; apply Hne; reflexivity|].
           split; [left; assumption | reflexivity].
        -- intros [[Hin|[E|[]]] ->]; [|exfalso; apply Hne; exact E].
           right. split; [intros ->; apply Hne; reflexivity|].
           split; [assumption | reflexivity].
Qed.

(** X24.  The dictionary handed to [generate_interactives] has one entry
    for every specimen (with [--merge_rois]) or name (without) that a
    graph carries and no other entry, and the entry of a key lists the
    graphs carrying it, in the order they were read. *)
Theorem graph_groups_by_key
        (cell_graphs_data : list (Interactives.GraphData DGLGraph)) :
  NoDup (keys (Interactives.group_graphs merge_rois cell_graphs_data)) /\
  (forall key graphs,
      In (key, graphs) (Interactives.group_graphs merge_rois cell_graphs_data)
      <-> In key (map (group_key merge_rois) cell_graphs_data) /\
          graphs = members merge_rois key cell_graphs_data).
Proof.
  unfold Interactives.group_graphs.
  apply (@grouping_invariant cell_graphs_data [] []).
  - constructor.
  - intros k gs. simpl. tauto.
Qed.

End Grouping.

Lemma prefix_then_rest (p s : string) :
  String.prefix p s = true ->
  String.append p (PyDict.drop (String.length p) s) = s.
Proof.
  revert s. induction p as [|a p IH]; intros s H; [reflexivity|].
  destruct s as [|b s]; simpl in H; [discriminate|].
  destruct (Ascii.ascii_dec a b) as [->|Hne]; [|discriminate].
  simpl. rewrite (IH s H). reflexivity.
Qed.

Lemma stripped_restores (prefix : string) (columns : list string) :
  String.length prefix = 3%nat ->
  map (String.append prefix) (Interactives.stripped prefix columns)
  = filter (fun col => startswith col prefix) columns.
Proof.
  intros Hlen. unfold Interactives.stripped.
  induction columns as [|col columns IH]; [reflexivity|].
  cbn [filter]. destruct (startswith col prefix) eqn:E; [|exact IH].
  cbn [map]. rewrite IH. f_equal.
  rewrite <- Hlen. apply prefix_then_rest. exact E.
Qed.

(** X25.  The feature and phenotype names handed to
    [generate_interactives] are the columns starting with [FT_] and with
    [PH_], in the order of the table and without that prefix: putting the
    prefix back gives exactly those columns.  The output directory is
    passed on unchanged. *)
Theorem interactives_names_are_prefixed_columns (DGLGraph : Type)
        (merge_rois : bool) (output_directory : option string)
        (cell_graphs_data : list (Interactives.GraphData DGLGraph))
        (columns : list string) :
  exists graph_groups feature_names phenotype_names,
    Interactives.main merge_rois output_directory cell_graphs_data columns
    = (graph_groups, feature_names, phenotype_names, output_directory) /\
    map (String.append "FT_") feature_names
    = filter (fun col => startswith col "FT_") columns /\
    map (String.append "PH_") phenotype_names
    = filter (fun col => startswith col "PH_") columns.
Proof.
  unfold Interactives.main.
  eexists _, _, _. split; [reflexivity|].
  split; apply stripped_restores; reflexivity.
Qed.

(** ** Saving and loading a fitted stain normalizer *)

Lemma dict_getitem_setitem (V : Type) (d : dict V) (k : string) (v : V) :
  dict_getitem (dict_setitem d k v) k = Done v.
Proof.
  induction d as [|[a b] d IH]; simpl.
  - rewrite String.eqb_refl. reflexivity.
  - destruct (String.eqb a k) eqn:E; simpl; rewrite E; [reflexivity | exact IH].
Qed.

Section PrecomputedFacts.

Variable array : Type.

Variable writable : string -> bool.

(** X26.  Where the file can be created, a fitted Macenko normalizer that
    is saved can be loaded back by any normalizer with the same path:
    saving succeeds whatever the disk held at that path, and loading then
    succeeds and sets the stain matrix and the maximal concentrations to
    the saved ones.  Where the file cannot be created, saving raises
    [OSError] and leaves the disk as it was. *)
Theorem macenko_save_then_load (self other : Stain.Macenko array)
        (disk : Stain.files array) (m c : array) :
  Stain.stain_matrix_target self = Some m ->
  Stain.max_C_target self = Some c ->
  Stain.save_path other = Stain.save_path self ->
  (writable (Stain.save_path self) = true ->
   snd (Stain._save_precomputed writable self disk) = Done tt /\
   Stain._load_precomputed other
     (fst (Stain._save_precomputed writable self disk))
   = ({| Stain.save_path := Stain.save_path other;
         Stain.stain_matrix_target := Some m;
         Stain.max_C_target := Some c |}, Done tt)) /\
  (writable (Stain.save_path self) = false ->
   Stain._save_precomputed writable self disk
   = (disk, Fail (OSError (Stain.save_path self)))).
Proof.
  intros Hm Hc Hpath. split; intros Hw.
  - unfold Stain._save_precomputed, Stain._save_values, Stain.create_dataset.
    rewrite Hw, Hm, Hc. cbn.
    split; [reflexivity|].
    unfold Stain._load_precomputed.
    replace (Stain.save_path self) with (Stain.save_path other).
    rewrite dict_getitem_setitem. reflexivity.
  - unfold Stain._save_precomputed. rewrite Hw. reflexivity.
Qed.

(** X27.  Where the file can be created, saving a normalizer that was
    never fitted raises [TypeError], and the file it opened for writing
    stays behind empty: loading from that path afterwards raises
    [KeyError] for the stain matrix and leaves the normalizer as it was,
    also when the path held a saved normalizer before. *)
Theorem unfitted_save_truncates (self other : Stain.Macenko array)
        (disk : Stain.files array) :
  writable (Stain.save_path self) = true ->
  Stain.stain_matrix_target self = None ->
  Stain.save_path other = Stain.save_path self ->
  snd (Stain._save_precomputed writable self disk)
  = Fail (Builtin TypeError) /\
  Stain._load_precomputed other
    (fst (Stain._save_precomputed writable self disk))
  = (other, Fail (KeyError Stain.stain_matrix_key)).
Proof.
  intros Hw Hm Hpath.
  unfold Stain._save_precomputed, Stain._save_values, Stain.create_dataset.
  rewrite Hw, Hm. cbn.
  split; [reflexivity|].
  unfold Stain._load_precomputed.
  replace (Stain.save_path self) with (Stain.save_path other).
  rewrite dict_getitem_setitem. reflexivity.
Qed.

(** Loading from a path at which there is no file raises [OSError] and
    leaves the normalizer as it was; loading from a file without the
    maximal concentrations raises [KeyError] after the stain matrix has
    been set. *)
Lemma macenko_load_failures (self : Stain.Macenko array)
        (disk : Stain.files array) :
  (~ In (Stain.save_path self) (keys disk) ->
   Stain._load_precomputed self disk
   = (self, Fail (OSError (Stain.save_path self)))) /\
  (forall file m,
      In (Stain.save_path self, file) disk -> NoDup (keys disk) ->
      dict_getitem file Stain.stain_matrix_key = Done m ->
      ~ In Stain.max_C_target_key (keys file) ->
      Stain._load_precomputed self disk
      = ({| Stain.save_path := Stain.save_path self;
            Stain.stain_matrix_target := Some m;
            Stain.max_C_target := Stain.max_C_target self |},
         Fail (KeyError Stain.max_C_target_key))).
Proof.
  split.
  - intros Hmiss. unfold Stain._load_precomputed.
    destruct (dict_getitem disk (Stain.save_path self)) as [file|e] eqn:E;
      [|reflexivity].
    exfalso. apply Hmiss. apply dict_getitem_item in E.
    exact (item_key _ _ _ E).
  - intros file m Hin Hnd Hm Hc. unfold Stain._load_precomputed.
    destruct (dict_getitem disk (Stain.save_path self)) as [file'|e] eqn:E.
    + apply dict_getitem_item in E.
      rewrite (@items_functional _ disk (Stain.save_path self) file' file Hnd E Hin).
      unfold Stain._load_values. rewrite Hm.
      destruct (dict_getitem file Stain.max_C_target_key) as [c|e] eqn:Ec.
      * exfalso. apply Hc. apply dict_getitem_item in Ec.
        exact (item_key _ _ _ Ec).
      * f_equal. f_equal. clear -Ec.
        induction file as [|[k v] file IH]; simpl in Ec.
        -- inversion Ec. reflexivity.
        -- destruct (String.eqb k Stain.max_C_target_key);
             [discriminate | auto].
    + exfalso. apply dict_getitem_missing in E. apply E.
      exact (item_key _ _ _ Hin).
Qed.

End PrecomputedFacts.

(** ** Standardizing the brightness of an image *)

Section Brightness.

Local Open Scope Q_scope.

Lemma insert_sorted_length (x : Q) (l : list Q) :
  length (Stain.insert_sorted x l) = S (length l).
Proof.
  induction l as [|y l IH]; simpl; [reflexivity|].
  destruct (Qle_bool x y); simpl; [reflexivity | rewrite IH; reflexivity].
Qed.

Lemma sort_length (l : list Q) : length (Stain.sort l) = length l.
Proof.
  induction l as [|x l IH]; simpl; [reflexivity|].
  rewrite insert_sorted_length, IH. reflexivity.
Qed.

Lemma insert_sorted_In (x y : Q) (l : list Q) :
  In y (Stain.insert_sorted x l) -> y = x \/ In y l.
Proof.
  induction l as [|z l IH]; simpl.
  - intros [E|[]]. left. symmetry. exact E.
  - destruct (Qle_bool x z); simpl.
    + intros [E|[E|Hin]]; auto.
    + intros [E|Hin]; [auto|]. destruct (IH Hin); auto.
Qed.

Lemma sort_In (y : Q) (l : list Q) : In y (Stain.sort l) -> In y l.
Proof.
  induction l as [|x l IH]; simpl; [auto|].
  intros Hin. apply insert_sorted_In in Hin.
  destruct Hin as [->|Hin]; auto.
Qed.

Lemma clip_range (x lo hi : Q) :
  lo <= hi -> lo <= Stain.clip x lo hi /\ Stain.clip x lo hi <= hi.
Proof.
  intros H. unfold Stain.clip.
  destruct (Q.max_spec x lo) as [[? E1]|[? E1]],
           (Q.min_spec (Qmax x lo) hi) as [[? E2]|[? E2]];
    rewrite E2; rewrite ?E1; split; lra.
Qed.

Lemma clip_low (x lo hi : Q) :
  lo <= hi -> x <= lo -> Stain.clip x lo hi == lo.
Proof.
  intros H Hx. unfold Stain.clip.
  destruct (Q.max_spec x lo) as [[? E1]|[? E1]],
           (Q.min_spec (Qmax x lo) hi) as [[? E2]|[? E2]];
    rewrite E2; rewrite ?E1; try reflexivity; rewrite E1 in *; lra.
Qed.

Lemma floor_of_whole (x : Q) (z : Z) : x == inject_Z z -> Qfloor x = z.
Proof. intros E. rewrite (Qfloor_comp _ _ E). apply Qfloor_Z. Qed.

Lemma floor_above (x : Q) (z : Z) : inject_Z z <= x -> (z <= Qfloor x)%Z.
Proof.
  intros H. apply Qfloor_resp_le in H. rewrite Qfloor_Z in H. exact H.
Qed.

Lemma floor_below (x : Q) (z : Z) : x <= inject_Z z -> (Qfloor x <= z)%Z.
Proof.
  intros H. apply Qfloor_resp_le in H. rewrite Qfloor_Z in H. exact H.
Qed.

Lemma standardize_pixel_nonzero (bound x : Q) :
  ~ bound == 0 ->
  Stain.standardize_pixel bound x
  = Some (Qfloor (Stain.clip (x * 255 / bound) 0 255)).
Proof.
  intros H. unfold Stain.standardize_pixel.
  destruct (Qeq_bool bound 0) eqn:E; [|reflexivity].
  exfalso. apply H. apply Qeq_bool_eq. exact E.
Qed.

(** X28.  For a non-empty image whose 90th percentile is not 0,
    [_standardize_brightness] returns one value per pixel, each a whole
    number from 0 to 255. *)
Theorem standardized_pixels_in_range (input_image : list Q) (bound : Q) :
  Stain.percentile input_image 90 = Some bound ->
  ~ bound == 0 ->
  length (Stain._standardize_brightness input_image) = length input_image /\
  forall pixel, In pixel (Stain._standardize_brightness input_image) ->
                exists value, pixel = Some value /\ (0 <= value <= 255)%Z.
Proof.
  intros Hp Hb. unfold Stain._standardize_brightness. rewrite Hp.
  split; [apply length_map|].
  intros pixel Hin. apply in_map_iff in Hin. destruct Hin as [x [E _]].
  rewrite (standardize_pixel_nonzero x Hb) in E. subst pixel.
  eexists. split; [reflexivity|].
  destruct (@clip_range (x * 255 / bound) 0 255) as [Hlo Hhi]; [lra|].
  split.
  - apply floor_above. exact Hlo.
  - apply floor_below. exact Hhi.
Qed.

End Brightness.

(** ** Optical densities *)

Section OpticalDensityFacts.

Local Open Scope Q_scope.

Variable log : Q -> Q.

Lemma no_zero_mask (l : list Q) :
  existsb (fun b : bool => b) (map (fun x => Qeq_bool x 0) l) = false <->
  (forall x, In x l -> ~ x == 0).
Proof.
  induction l as [|y l IH]; simpl.
  - split; [intros _ x [] | reflexivity].
  - rewrite orb_false_iff, IH. split.
    + intros [Hy Hl] x [<-|Hin]; [apply Qeq_bool_neq; exact Hy | auto].
    + intros H. split; [|intros x Hin; apply H; right; exact Hin].
      destruct (Qeq_bool y 0) eqn:E; [|reflexivity].
      exfalso. apply (H y); [left; reflexivity | apply Qeq_bool_eq; exact E].
Qed.

Lemma patch_without_zero (l : list Q) :
  (forall x, In x l -> ~ x == 0) ->
  map (fun x => if Qeq_bool x 0 then 1 else x) l = l.
Proof.
  induction l as [|y l IH]; intros H; simpl; [reflexivity|].
  rewrite IH by (intros x Hin; apply H; right; exact Hin).
  destruct (Qeq_bool y 0) eqn:E; [|reflexivity].
  exfalso. apply (H y); [left; reflexivity | apply Qeq_bool_eq; exact E].
Qed.

Lemma patched_has_no_zero (l : list Q) (x : Q) :
  In x (map (fun x => if Qeq_bool x 0 then 1 else x) l) -> ~ x == 0.
Proof.
  intros Hin. apply in_map_iff in Hin. destruct Hin as [y [E _]].
  destruct (Qeq_bool y 0) eqn:Ey; subst x.
  - intros H. discriminate H.
  - apply Qeq_bool_neq. exact Ey.
Qed.

Lemma patched_image (input_image : list Q) :
  fst (Stain._RGB_to_OD log input_image)
  = map (fun x => if Qeq_bool x 0 then 1 else x) input_image.
Proof.
  unfold Stain._RGB_to_OD. cbn [fst].
  destruct (existsb (fun b : bool => b)
                    (map (fun x => Qeq_bool x 0) input_image)) eqn:E;
    [reflexivity|].
  symmetry. apply patch_without_zero. apply no_zero_mask. exact E.
Qed.

(** X30.  [_RGB_to_OD] leaves the caller's image with every 0 replaced by
    1 and the other pixels untouched, so that no pixel of it is 0; the
    optical densities are those of the patched image, a 0 getting the
    density of a 1; and a second call on the patched image changes
    nothing and gives the same densities. *)
Theorem optical_density_patches_zeros (input_image : list Q) :
  fst (Stain._RGB_to_OD log input_image)
  = map (fun x => if Qeq_bool x 0 then 1 else x) input_image /\
  (forall x, In x (fst (Stain._RGB_to_OD log input_image)) -> ~ x == 0) /\
  snd (Stain._RGB_to_OD log input_image)
  = map (fun x => if Qeq_bool x 0 then -1 * log (1 / 255)
                  else -1 * log (x / 255)) input_image /\
  Stain._RGB_to_OD log (fst (Stain._RGB_to_OD log input_image))
  = Stain._RGB_to_OD log input_image.
Proof.
  split; [apply patched_image|].
  split; [rewrite patched_image; apply patched_has_no_zero|].
  split.
  - assert (E : snd (Stain._RGB_to_OD log input_image)
                = map (fun x => -1 * log (x / 255))
                      (fst (Stain._RGB_to_OD log input_image)))
      by reflexivity.
    rewrite E, patched_image, map_map. apply map_ext.
    intros x. destruct (Qeq_bool x 0); reflexivity.
  - assert (E : Stain._RGB_to_OD log input_image
                = (fst (Stain._RGB_to_OD log input_image),
                   map (fun x => -1 * log (x / 255))
                       (fst (Stain._RGB_to_OD log input_image))))
      by reflexivity.
    rewrite E at 2. rewrite patched_image.
    unfold Stain._RGB_to_OD at 1.
    assert (Hmask :
      existsb (fun b : bool => b)
        (map (fun x => Qeq_bool x 0)
             (map (fun x => if Qeq_bool x 0 then 1 else x) input_image))
      = false)
      by (apply no_zero_mask; intros x; apply patched_has_no_zero).
    rewrite Hmask. reflexivity.
Qed.

End OpticalDensityFacts.

Lemma macenko_save_then_load_witness :
  (writable_example "out/normalizer.h5" = true ->
   snd (Stain._save_precomputed writable_example
          {| Stain.save_path := "out/normalizer.h5"%string;
             Stain.stain_matrix_target :=
               Some [[1 # 2; 1 # 3]; [1 # 4; 1 # 5]];
             Stain.max_C_target := Some [[2; 1]] |}
          [("out/normalizer.h5"%string, [])]) = Done tt /\
   Stain._load_precomputed
     {| Stain.save_path := "out/normalizer.h5"%string;
        Stain.stain_matrix_target := None;
        Stain.max_C_target := None |}
     (fst (Stain._save_precomputed writable_example
             {| Stain.save_path := "out/normalizer.h5"%string;
                Stain.stain_matrix_target :=
                  Some [[1 # 2; 1 # 3]; [1 # 4; 1 # 5]];
                Stain.max_C_target := Some [[2; 1]] |}
             [("out/normalizer.h5"%string, [])]))
   = ({| Stain.save_path := "out/normalizer.h5"%string;
         Stain.stain_matrix_target := Some [[1 # 2; 1 # 3]; [1 # 4; 1 # 5]];
         Stain.max_C_target := Some [[2; 1]] |}, Done tt)) /\
  (writable_example "out/normalizer.h5" = false ->
   Stain._save_precomputed writable_example
     {| Stain.save_path := "out/normalizer.h5"%string;
        Stain.stain_matrix_target := Some [[1 # 2; 1 # 3]; [1 # 4; 1 # 5]];
        Stain.max_C_target := Some [[2; 1]] |}
     [("out/normalizer.h5"%string, [])]
   = ([("out/normalizer.h5"%string, [])],
      Fail (OSError "out/normalizer.h5"))).
Proof.
  apply (@macenko_save_then_load (list (list Q)) writable_example
           {| Stain.save_path := "out/normalizer.h5"%string;
              Stain.stain_matrix_target :=
                Some [[1 # 2; 1 # 3]; [1 # 4; 1 # 5]];
              Stain.max_C_target := Some [[2; 1]] |}
           {| Stain.save_path := "out/normalizer.h5"%string;
              Stain.stain_matrix_target := None;
              Stain.max_C_target := None |}
           [("out/normalizer.h5"%string, [])]
           [[1 # 2; 1 # 3]; [1 # 4; 1 # 5]] [[2; 1]]);
    reflexivity.
Defined.

Lemma unfitted_save_truncates_witness :
  snd (Stain._save_precomputed writable_example
         {| Stain.save_path := "out/normalizer.h5"%string;
            Stain.stain_matrix_target := None;
            Stain.max_C_target := None |}
         [("out/normalizer.h5"%string,
           [(Stain.stain_matrix_key, [[1 # 2; 1 # 3]; [1 # 4; 1 # 5]]);
            (Stain.max_C_target_key, [[2; 1]])])])
  = Fail (Builtin TypeError) /\
  Stain._load_precomputed
    {| Stain.save_path := "out/normalizer.h5"%string;
       Stain.stain_matrix_target := None;
       Stain.max_C_target := None |}
    (fst (Stain._save_precomputed writable_example
            {| Stain.save_path := "out/normalizer.h5"%string;
               Stain.stain_matrix_target := None;
               Stain.max_C_target := None |}
            [("out/normalizer.h5"%string,
              [(Stain.stain_matrix_key, [[1 # 2; 1 # 3]; [1 # 4; 1 # 5]]);
               (Stain.max_C_target_key, [[2; 1]])])]))
  = ({| Stain.save_path := "out/normalizer.h5"%string;
        Stain.stain_matrix_target := None;
        Stain.max_C_target := None |},
     Fail (KeyError Stain.stain_matrix_key)).
Proof.
  apply (@unfitted_save_truncates (list (list Q)) writable_example
           {| Stain.save_path := "out/normalizer.h5"%string;
              Stain.stain_matrix_target := None;
              Stain.max_C_target := None |}
           {| Stain.save_path := "out/normalizer.h5"%string;
              Stain.stain_matrix_target := None;
              Stain.max_C_target := None |}
           [("out/normalizer.h5"%string,
             [(Stain.stain_matrix_key, [[1 # 2; 1 # 3]; [1 # 4; 1 # 5]]);
              (Stain.max_C_target_key, [[2; 1]])])]);
    reflexivity.
Defined.

Lemma standardized_pixels_in_range_witness :
  length (Stain._standardize_brightness [0; 128; 255])
  = length [0; 128; 255] /\
  forall pixel, In pixel (Stain._standardize_brightness [0; 128; 255]) ->
                exists value, pixel = Some value /\ (0 <= value <= 255)%Z.
Proof.
  apply (@standardized_pixels_in_range [0; 128; 255] (22960 # 100)).
  - vm_compute. reflexivity.
  - intros H. discriminate H.
Defined.


(* ===================================================================== *)
(** * Part IV.  The code over the arithmetic of float64                   *)
(* ===================================================================== *)

(** ** The exact operations *)

(** The definitions of Part I that compute without rounding are the
    definitions of [Float64] at the operations [exact]. *)
Lemma exact_instance :
  (forall q d, Float64.round Float64.exact q d = round q d) /\
  (forall lo hi step, Float64.edges Float64.exact lo hi step
                      = edges lo hi step) /\
  (forall x step, Float64.bin_edges Float64.exact x step
                  = bin_edges x step) /\
  (forall input step, Float64.shared_bins Float64.exact input step
                      = shared_bins input step) /\
  (forall count, Float64.normalize Float64.exact count = normalize count) /\
  (forall histogramdd input step,
      Float64.histogram_analysis Float64.exact histogramdd input step
      = histogram_analysis histogramdd input step) /\
  (forall dist n input,
      Float64.get_distance Float64.exact dist n input
      = get_distance dist n input) /\
  (forall distance risk,
      Float64.weighted_half_sum Float64.exact distance risk
      = weighted_half_sum distance risk).
Proof. repeat split. Qed.

Lemma exact_monotone_rounding : monotone_rounding Float64.exact.
Proof.
  unfold monotone_rounding. cbn [Float64.exact Float64.add Float64.sub
                                 Float64.mul Float64.div].
  split; [intros y; ring|].
  split; [intros y Hy; unfold Qdiv; ring|].
  split; [intros x; ring|].
  split; [intros x x' y Hx Hy; apply Qmult_le_compat_r; assumption|].
  split.
  { intros x x' y Hx Hy. unfold Qdiv. apply Qmult_le_compat_r; [assumption|].
    apply Qlt_le_weak. apply Qinv_lt_0_compat. assumption. }
  split; [intros x y y' Hy; lra|].
  intros x x' y Hx. lra.
Qed.

(** ** Signs and order under rounding *)

Section MonotoneRounding.

Variable ops : Float64.float_ops.
Hypothesis Hops : monotone_rounding ops.

Lemma float_mul_nonneg (x y : Q) :
  0 <= x -> 0 <= y -> 0 <= Float64.mul ops x y.
Proof.
  intros Hx Hy. destruct Hops as [H0 [_ [_ [Hm _]]]].
  rewrite <- (H0 y). apply Hm; assumption.
Qed.

Lemma float_mul_nonpos (x y : Q) :
  x <= 0 -> 0 <= y -> Float64.mul ops x y <= 0.
Proof.
  intros Hx Hy. destruct Hops as [H0 [_ [_ [Hm _]]]].
  rewrite <- (H0 y). apply Hm; assumption.
Qed.

Lemma float_div_nonneg (x y : Q) :
  0 <= x -> 0 < y -> 0 <= Float64.div ops x y.
Proof.
  intros Hx Hy. destruct Hops as [_ [H0 [_ [_ [Hd _]]]]].
  rewrite <- (H0 y Hy). apply Hd; assumption.
Qed.

Lemma float_div_nonpos (x y : Q) :
  x <= 0 -> 0 < y -> Float64.div ops x y <= 0.
Proof.
  intros Hx Hy. destruct Hops as [_ [H0 [_ [_ [Hd _]]]]].
  rewrite <- (H0 y Hy). apply Hd; assumption.
Qed.

Lemma float_sub_nonneg (x y : Q) : y <= x -> 0 <= Float64.sub ops x y.
Proof.
  intros H. destruct Hops as [_ [_ [H0 [_ [_ [_ Hs]]]]]].
  rewrite <- (H0 y). apply Hs. assumption.
Qed.

Lemma float_add_zero_product (x s : Q) :
  Float64.add ops x 0 == x ->
  Float64.add ops x (Float64.mul ops 0 s) == x.
Proof.
  intros Ha0. destruct Hops as [Hm0 [_ [_ [_ [_ [Ha _]]]]]].
  apply Qle_antisym.
  - rewrite <- Ha0 at 2. apply Ha. rewrite (Hm0 s). apply Qle_refl.
  - rewrite <- Ha0 at 1. apply Ha. rewrite (Hm0 s). apply Qle_refl.
Qed.

Lemma float_round_nonneg (q : Q) (d : nat) :
  0 <= q -> 0 <= Float64.round ops q d.
Proof.
  intros H. unfold Float64.round.
  pose proof (pow10_pos d) as Hp.
  apply float_div_nonneg; [|assumption].
  replace 0 with (inject_Z 0) by reflexivity. rewrite <- Zle_Qle.
  apply rint_nonneg. apply float_mul_nonneg; [assumption|].
  apply Qlt_le_weak. assumption.
Qed.

End MonotoneRounding.

(** ** Bin edges *)

Section FloatEdges.

Variable ops : Float64.float_ops.

Lemma float_while_edges_spec (lo step : Q) (ctr : Z) :
  forall fuel j bins_,
    fuel = Z.to_nat (ctr + 1 - j) ->
    Float64.while_edges ops fuel lo step ctr (j, bins_)
    = (Z.max j (ctr + 1),
       bins_ ++ map (fun k => Float64.add ops lo
                                (Float64.mul ops
                                   (inject_Z (j + Z.of_nat k)) step))
                    (seq 0 fuel)).
Proof.
  induction fuel as [|fuel IH]; intros j bins_ Hf; simpl.
  - rewrite app_nil_r. f_equal. lia.
  - assert (Hle : (j <=? ctr)%Z = true) by (apply Z.leb_le; lia).
    rewrite Hle. rewrite IH by lia.
    f_equal; [lia|].
    rewrite <- app_assoc. simpl. f_equal.
    rewrite Z.add_0_r. f_equal.
    rewrite <- seq_shift, map_map.
    apply map_ext. intros k. do 3 f_equal. lia.
Qed.

(** The loop runs for [j = 0 .. ctr] and then stops. *)
Lemma float_edges_spec (lo hi step : Q) :
  ~ step == 0 ->
  Float64.edges ops lo hi step
  = Ok (float_edge_list ops lo step
          (ceil (Float64.div ops (Float64.sub ops hi lo) step))).
Proof.
  intros Hs. unfold Float64.edges.
  destruct (Qeq_bool step 0) eqn:E.
  - apply Qeq_bool_eq in E. contradiction.
  - rewrite float_while_edges_spec by (f_equal; lia). reflexivity.
Qed.

Lemma float_bin_edges_rows (D : nat) (r : list Q) (rest : list (list Q))
      (step : Q) :
  ~ step == 0 ->
  Forall (fun x => length x = D) (r :: rest) ->
  exists bins,
    Float64.bin_edges ops (Arr2 (r :: rest)) step = Ok bins /\
    length bins = D /\
    forall d, (d < D)%nat ->
      nth d bins [] =
      float_edge_list ops (fold_left Qmin (column d rest) (nth d r 0)) step
        (ceil (Float64.div ops
                 (Float64.sub ops
                    (fold_left Qmax (column d rest) (nth d r 0))
                    (fold_left Qmin (column d rest) (nth d r 0)))
                 step)).
Proof.
  intros Hstep Hrows.
  destruct (reduce_axis0_rows "minimum" Qmin Hrows) as [v [Ev [Lv Nv]]].
  destruct (reduce_axis0_rows "maximum" Qmax Hrows) as [w [Ew [Lw Nw]]].
  unfold Float64.bin_edges, min_axis0, max_axis0.
  rewrite Ev. cbn [bind]. rewrite Ew. cbn [bind len]. rewrite Lv.
  pose (g := fun i : nat =>
               float_edge_list ops (nth i v 0) step
                 (ceil (Float64.div ops
                          (Float64.sub ops (nth i w 0) (nth i v 0)) step))).
  match goal with
  | |- exists bins, for_each _ ?body _ = _ /\ _ =>
      destruct (@for_range_inv (list (list Q))
                  (fun k bins => bins = map g (seq 0 k)) body D [])
      as [bins [E Hb]]
  end.
  - reflexivity.
  - intros k bins Hk ->. cbn [item].
    rewrite (getitem_nth v 0) by lia.
    rewrite (getitem_nth w 0) by lia. cbn [bind].
    rewrite (float_edges_spec _ _ Hstep). cbn [bind].
    eexists. split; [reflexivity|].
    rewrite seq_S, map_app. reflexivity.
  - exists bins. split; [assumption|]. subst bins. split.
    + rewrite length_map, length_seq. reflexivity.
    + intros d Hd.
      rewrite (nth_indep _ [] (g 0%nat))
        by (rewrite length_map, length_seq; assumption).
      rewrite map_nth, seq_nth by assumption. simpl. unfold g.
      rewrite (Nv d Hd), (Nw d Hd). reflexivity.
Qed.

(** The edges that [histogram_analysis] computes once and hands to
    [np.histogramdd] for every class come from the extrema of each column
    over the rows of all classes. *)
Lemma float_shared_bins_edges (input : list ndarray) (step : Q) (D : nat) :
  ~ step == 0 -> input <> [] -> Forall (uniform D) input ->
  (forall v, input <> [Arr1 v]) ->
  exists bins,
    Float64.shared_bins ops input step = Ok bins /\ length bins = D /\
    forall d, (d < D)%nat ->
      exists lo hi,
        is_min lo (column d (all_rows input)) /\
        is_max hi (column d (all_rows input)) /\
        nth d bins []
        = float_edge_list ops lo step
            (ceil (Float64.div ops (Float64.sub ops hi lo) step)).
Proof.
  intros Hstep Hne Hu H2d.
  destruct (stack_all_rows Hne Hu H2d) as [r [rest [Ex [Erows Hrows]]]].
  destruct (float_bin_edges_rows Hstep Hrows) as [bins [Eb [Lb Nb]]].
  exists bins. unfold Float64.shared_bins. rewrite Ex. cbn [bind].
  split; [assumption|]. split; [assumption|].
  intros d Hd.
  exists (fold_left Qmin (column d rest) (nth d r 0)),
         (fold_left Qmax (column d rest) (nth d r 0)).
  rewrite Erows.
  split; [apply (fold_min_is_min (column d rest) (nth d r 0))|].
  split; [apply (fold_max_is_max (column d rest) (nth d r 0))|].
  apply Nb. assumption.
Qed.

Lemma float_edge_list_length (lo step : Q) (ctr : Z) :
  length (float_edge_list ops lo step ctr) = Z.to_nat (ctr + 1).
Proof.
  unfold float_edge_list, range. rewrite length_map, length_seq. reflexivity.
Qed.

Lemma float_edge_list_nth (lo step : Q) (ctr : Z) (k : nat) :
  (k < Z.to_nat (ctr + 1))%nat ->
  nth k (float_edge_list ops lo step ctr) 0
  = Float64.add ops lo (Float64.mul ops (inject_Z (Z.of_nat k)) step).
Proof.
  intros Hk. unfold float_edge_list, range.
  rewrite (nth_indep _ 0
             (Float64.add ops lo
                (Float64.mul ops (inject_Z (Z.of_nat 0)) step)))
    by (rewrite length_map, length_seq; assumption).
  rewrite (map_nth (fun j => Float64.add ops lo
                               (Float64.mul ops (inject_Z (Z.of_nat j)) step))).
  rewrite seq_nth by assumption. reflexivity.
Qed.

Lemma float_edge_list_ends (lo step : Q) (ctr : Z) :
  (0 <= ctr)%Z ->
  nth 0 (float_edge_list ops lo step ctr) 0
  = Float64.add ops lo (Float64.mul ops 0 step) /\
  last (float_edge_list ops lo step ctr) 0
  = Float64.add ops lo (Float64.mul ops (inject_Z ctr) step).
Proof.
  intros Hc. split.
  - rewrite float_edge_list_nth by lia. reflexivity.
  - unfold float_edge_list, range.
    replace (Z.to_nat (ctr + 1)) with (S (Z.to_nat ctr)) by lia.
    rewrite seq_S, map_app. simpl. rewrite last_last.
    rewrite Z2Nat.id by assumption. reflexivity.
Qed.

End FloatEdges.

(** C3.  In histogram mode, for every non-empty list of per-class pooled
    rows with [D] values per row (stacking to a 2-D array) and every bin
    width other than 0, whatever the rounding of the float operations:
    [histogram_analysis] hands one and the same list of edges to
    [np.histogramdd] for every class, and the edges of a dimension are
    computed from the minimum [lo] and maximum [hi] of that dimension
    over the rows of all classes together: they are [lo + j * step] for
    [j = 0 .. ceil((hi - lo) / step)], from [lo + 0 * step] up to
    [lo + ceil((hi - lo) / step) * step], each sum, product, difference
    and quotient being the one of the floats. *)
Theorem histogram_bin_edges_global
        (ops : Float64.float_ops)
        (histogramdd : ndarray -> list (list Q) -> result ndarray)
        (input : list ndarray) (step : Q) (D : nat) :
  ~ step == 0 ->
  input <> [] ->
  Forall (uniform D) input ->
  (forall v, input <> [Arr1 v]) ->
  exists bins,
    Float64.histogram_analysis ops histogramdd input step
    = (count <- map_m (fun a => histogramdd a bins) input ;;
       Float64.normalize ops count) /\
    length bins = D /\
    forall d, (d < D)%nat ->
      exists lo hi,
        is_min lo (column d (all_rows input)) /\
        is_max hi (column d (all_rows input)) /\
        nth d bins []
        = float_edge_list ops lo step
            (ceil (Float64.div ops (Float64.sub ops hi lo) step)) /\
        ((0 <= ceil (Float64.div ops (Float64.sub ops hi lo) step))%Z ->
         nth 0 (nth d bins []) 0
         = Float64.add ops lo (Float64.mul ops 0 step) /\
         last (nth d bins []) 0
         = Float64.add ops lo
             (Float64.mul ops
                (inject_Z (ceil (Float64.div ops (Float64.sub ops hi lo) step)))
                step)).
Proof.
  intros Hstep Hne Hu H2d.
  destruct (float_shared_bins_edges ops Hstep Hne Hu H2d)
    as [bins [Eb [Lb Hb]]].
  exists bins. split.
  - unfold Float64.histogram_analysis. rewrite Eb. reflexivity.
  - split; [assumption|].
    intros d Hd. destruct (Hb d Hd) as [lo [hi [Hmin [Hmax Hnth]]]].
    exists lo, hi.
    split; [assumption|]. split; [assumption|]. split; [assumption|].
    intros Hc. rewrite Hnth. apply float_edge_list_ends. assumption.
Qed.

Lemma histogram_bin_edges_global_witness :
  exists bins,
    Float64.histogram_analysis Float64.exact no_histogram
      [Arr2 [[1; 5]; [2; 3]]; Arr1 [0; 7 # 2]] (1 # 2)
    = (count <- map_m (fun a => no_histogram a bins)
                  [Arr2 [[1; 5]; [2; 3]]; Arr1 [0; 7 # 2]] ;;
       Float64.normalize Float64.exact count) /\
    length bins = 2%nat /\
    forall d, (d < 2)%nat ->
      exists lo hi,
        is_min lo (column d (all_rows [Arr2 [[1; 5]; [2; 3]]; Arr1 [0; 7 # 2]])) /\
        is_max hi (column d (all_rows [Arr2 [[1; 5]; [2; 3]]; Arr1 [0; 7 # 2]])) /\
        nth d bins []
        = float_edge_list Float64.exact lo (1 # 2)
            (ceil (Float64.div Float64.exact
                     (Float64.sub Float64.exact hi lo) (1 # 2))) /\
        ((0 <= ceil (Float64.div Float64.exact
                       (Float64.sub Float64.exact hi lo) (1 # 2)))%Z ->
         nth 0 (nth d bins []) 0
         = Float64.add Float64.exact lo (Float64.mul Float64.exact 0 (1 # 2)) /\
         last (nth d bins []) 0
         = Float64.add Float64.exact lo
             (Float64.mul Float64.exact
                (inject_Z (ceil (Float64.div Float64.exact
                                   (Float64.sub Float64.exact hi lo) (1 # 2))))
                (1 # 2))).
Proof.
  apply (@histogram_bin_edges_global Float64.exact no_histogram
           [Arr2 [[1; 5]; [2; 3]]; Arr1 [0; 7 # 2]] (1 # 2) 2).
  - intros H. discriminate H.
  - discriminate.
  - repeat constructor; discriminate.
  - intros v H. discriminate H.
Defined.

Lemma column_in_entries (D d : nat) (input : list ndarray) (x : Q) :
  Forall (uniform D) input -> (d < D)%nat ->
  In x (column d (all_rows input)) -> In x (all_entries input).
Proof.
  intros Hu Hd Hin. unfold column in Hin.
  apply in_map_iff in Hin. destruct Hin as [row [<- Hrow]].
  unfold all_rows in Hrow. apply in_flat_map in Hrow.
  destruct Hrow as [a [Ha Hr]].
  unfold all_entries. apply in_flat_map. exists a. split; [assumption|].
  rewrite Forall_forall in Hu. destruct (Hu a Ha) as [_ Hf].
  rewrite Forall_forall in Hf. pose proof (Hf row Hr) as Hlen.
  destruct a as [v|rows]; simpl in *.
  - destruct Hr as [<-|[]]. apply nth_In. lia.
  - apply in_concat. exists row. split; [assumption|]. apply nth_In. lia.
Qed.

(** X11.  For a positive bin width, float operations that round
    monotonically and pooled values that are floats (adding 0 leaves them
    as they are), every dimension gets at least one edge, the edges of a
    dimension never decrease from one to the next, and no pooled value of
    any class lies below the first edge of its dimension.  (The last edge
    need not reach the greatest pooled value: the quotient and the
    products are rounded.) *)
Theorem histogram_edges_start_at_minimum
        (ops : Float64.float_ops)
        (input : list ndarray) (step : Q) (D : nat) :
  monotone_rounding ops ->
  (forall x, In x (all_entries input) -> Float64.add ops x 0 == x) ->
  0 < step ->
  input <> [] ->
  Forall (uniform D) input ->
  (forall v, input <> [Arr1 v]) ->
  exists bins,
    Float64.shared_bins ops input step = Ok bins /\
    forall d, (d < D)%nat ->
      nth d bins [] <> [] /\
      (forall k, (S k < length (nth d bins []))%nat ->
                 nth k (nth d bins []) 0 <= nth (S k) (nth d bins []) 0) /\
      (forall row, In row (all_rows input) ->
                   nth 0 (nth d bins []) 0 <= nth d row 0).
Proof.
  intros Hops Hfloat Hstep Hne Hu H2d.
  assert (Hs0 : ~ step == 0) by (intros H; rewrite H in Hstep; discriminate).
  destruct (float_shared_bins_edges ops Hs0 Hne Hu H2d)
    as [bins [Eb [Lb Hb]]].
  exists bins. split; [assumption|].
  intros d Hd. destruct (Hb d Hd) as [lo [hi [Hmin [Hmax Hnth]]]].
  rewrite Hnth.
  set (ctr := ceil (Float64.div ops (Float64.sub ops hi lo) step)).
  assert (Hc : (0 <= ctr)%Z).
  { unfold ctr, ceil. change 0%Z with (Qceiling 0). apply Qceiling_resp_le.
    apply (float_div_nonneg Hops); [|assumption].
    apply (float_sub_nonneg Hops). apply (min_le_max Hmin Hmax). }
  split; [|split].
  - intros E. apply (f_equal (@length Q)) in E.
    rewrite float_edge_list_length in E. simpl in E. lia.
  - intros k Hk. rewrite float_edge_list_length in Hk.
    rewrite !float_edge_list_nth by lia.
    destruct Hops as [_ [_ [_ [Hm [_ [Ha _]]]]]].
    apply Ha. apply Hm; [|apply Qlt_le_weak; assumption].
    rewrite <- Zle_Qle. lia.
  - intros row Hrow.
    rewrite float_edge_list_nth by lia.
    change (inject_Z (Z.of_nat 0)) with 0.
    rewrite (float_add_zero_product Hops).
    + apply Hmin. unfold column.
      apply (in_map (fun r => nth d r 0)). assumption.
    + apply Hfloat. apply (@column_in_entries D d input lo Hu Hd). apply Hmin.
Qed.

Lemma histogram_edges_start_at_minimum_witness :
  exists bins,
    Float64.shared_bins Float64.exact
      [Arr2 [[1; 5]; [2; 3]]; Arr1 [0; 7 # 2]] (1 # 2) = Ok bins /\
    forall d, (d < 2)%nat ->
      nth d bins [] <> [] /\
      (forall k, (S k < length (nth d bins []))%nat ->
                 nth k (nth d bins []) 0 <= nth (S k) (nth d bins []) 0) /\
      (forall row,
          In row (all_rows [Arr2 [[1; 5]; [2; 3]]; Arr1 [0; 7 # 2]]) ->
          nth 0 (nth d bins []) 0 <= nth d row 0).
Proof.
  apply (@histogram_edges_start_at_minimum Float64.exact
           [Arr2 [[1; 5]; [2; 3]]; Arr1 [0; 7 # 2]] (1 # 2) 2).
  - exact exact_monotone_rounding.
  - intros x _. simpl. ring.
  - reflexivity.
  - discriminate.
  - repeat constructor; discriminate.
  - intros v H. discriminate H.
Defined.

(** ** The rounded distance matrix and the score *)

Lemma mget_map (f : Q -> Q) (n : nat) (M : matrix) (i j : nat) :
  shape n n M -> (i < n)%nat -> (j < n)%nat ->
  mget (map (map f) M) i j = f (mget M i j).
Proof.
  intros HM Hi Hj. pose proof HM as [Hl Hf]. unfold mget.
  rewrite (nth_indep (map _ M) [] (map f []))
    by (rewrite length_map; lia).
  rewrite (map_nth (map f)).
  rewrite (nth_indep (map _ _) 0 (f 0))
    by (rewrite length_map, (shape_row HM Hi); assumption).
  rewrite (map_nth f). reflexivity.
Qed.

Lemma shape_map (f : Q -> Q) (n : nat) (M : matrix) :
  shape n n M -> shape n n (map (map f) M).
Proof.
  intros [Hl Hf]. split.
  - rewrite length_map. assumption.
  - apply Forall_map. rewrite Forall_forall in *.
    intros row Hin. rewrite length_map. auto.
Qed.

Section FloatScore.

Variable ops : Float64.float_ops.
Variable histogramdd : ndarray -> list (list Q) -> result ndarray.
Variable dist : ndarray -> ndarray -> Q.

(** [get_distance] returns, and every entry is [np.round] of the distance
    of its pair. *)
Lemma float_get_distance_spec (n : nat) (input : list ndarray) :
  (length input <= n)%nat ->
  exists M, Float64.get_distance ops dist n input = Ok M /\ shape n n M /\
            forall i j, (i < n)%nat -> (j < n)%nat ->
                        mget M i j
                        = Float64.round ops (pair_entry dist input i j) 4.
Proof.
  intros Hn. unfold Float64.get_distance.
  destruct (distance_loop_spec dist input Hn) as [M [E [Hs Hv]]].
  rewrite E. cbn [bind].
  exists (Float64.round_matrix ops M 4). split; [reflexivity|].
  unfold Float64.round_matrix.
  split; [apply shape_map; assumption|].
  intros i j Hi Hj.
  rewrite (@mget_map (fun q => Float64.round ops q 4) n M i j Hs Hi Hj), Hv.
  reflexivity.
Qed.

End FloatScore.

(** C6, as the code has it.  With a non-negative distance function and
    float operations that round monotonically, [get_distance] returns a
    matrix whose entries are non-negative and are the pairwise distances
    rounded by [np.round] to 4 decimals, each the quotient of a whole
    number by [10 ** 4]; [compute_concept_score] computes the aggregate
    score from that rounded matrix: it is the rounded half sum of the
    rounded distances weighted by the risk matrix. *)
Theorem distances_rounded_before_scoring
        (ops : Float64.float_ops)
        (histogramdd : ndarray -> list (list Q) -> result ndarray)
        (dist : ndarray -> ndarray -> Q)
        (args_distance : string) (ordinal : bool) (n : nat)
        (concept rep : list ndarray) :
  monotone_rounding ops ->
  (forall a b, 0 <= dist a b) ->
  float_representation ops histogramdd args_distance concept = Ok rep ->
  (length rep <= n)%nat ->
  exists distance risk,
    Float64.get_distance ops dist n rep = Ok distance /\
    get_risk n ordinal = Ok risk /\
    (forall i j, (i < n)%nat -> (j < n)%nat ->
       0 <= mget distance i j /\
       mget distance i j = Float64.round ops (pair_entry dist rep i j) 4 /\
       exists units,
         (0 <= units)%Z /\
         mget distance i j = Float64.div ops (inject_Z units) (pow10 4)) /\
    Float64.compute_concept_score ops histogramdd dist args_distance ordinal
                                  n concept
    = Ok (Float64.round ops
            (Float64.weighted_half_sum ops distance risk) 4).
Proof.
  intros Hops Hd Hrep Hn.
  destruct (float_get_distance_spec ops dist rep Hn) as [distance [Ed [Hs Hv]]].
  destruct (get_risk_symmetric n ordinal) as [risk [Er _]].
  exists distance, risk.
  split; [assumption|]. split; [assumption|]. split.
  - intros i j Hi Hj. rewrite (Hv i j Hi Hj).
    assert (Hp : 0 <= pair_entry dist rep i j)
      by (apply pair_entry_nonneg; assumption).
    split; [apply (float_round_nonneg Hops); assumption|].
    split; [reflexivity|].
    exists (rint (Float64.mul ops (pair_entry dist rep i j) (pow10 4))).
    split; [|reflexivity].
    apply rint_nonneg. apply (float_mul_nonneg Hops); [assumption|].
    apply Qlt_le_weak. apply pow10_pos.
  - unfold Float64.compute_concept_score.
    unfold float_representation in Hrep. rewrite Hrep. cbn [bind].
    rewrite Ed. cbn [bind]. rewrite Er. reflexivity.
Qed.

Lemma distances_rounded_before_scoring_witness :
  exists distance risk,
    Float64.get_distance Float64.exact euclidean_1d 3
      [Arr1 [0]; Arr1 [1 # 3]; Arr1 [2]] = Ok distance /\
    get_risk 3 true = Ok risk /\
    (forall i j, (i < 3)%nat -> (j < 3)%nat ->
       0 <= mget distance i j /\
       mget distance i j
       = Float64.round Float64.exact
           (pair_entry euclidean_1d [Arr1 [0]; Arr1 [1 # 3]; Arr1 [2]] i j) 4 /\
       exists units,
         (0 <= units)%Z /\
         mget distance i j
         = Float64.div Float64.exact (inject_Z units) (pow10 4)) /\
    Float64.compute_concept_score Float64.exact no_histogram euclidean_1d
      "pair" true 3 [Arr1 [0]; Arr1 [1 # 3]; Arr1 [2]]
    = Ok (Float64.round Float64.exact
            (Float64.weighted_half_sum Float64.exact distance risk) 4).
Proof.
  apply (@distances_rounded_before_scoring Float64.exact no_histogram
           euclidean_1d "pair" true 3 [Arr1 [0]; Arr1 [1 # 3]; Arr1 [2]]
           [Arr1 [0]; Arr1 [1 # 3]; Arr1 [2]]).
  - exact exact_monotone_rounding.
  - exact euclidean_1d_nonneg.
  - reflexivity.
  - simpl. lia.
Defined.

(** ** Standardizing the brightness in float64 *)

Section FloatBrightness.

Variable ops : Float64.float_ops.
Variable percentile : list Q -> Q -> result Q.

Lemma float_standardize_pixel_nonzero (bound x : Q) :
  ~ bound == 0 ->
  Float64.standardize_pixel ops bound x
  = Some (Qfloor (Stain.clip
                    (Float64.div ops (Float64.mul ops x 255) bound) 0 255)).
Proof.
  intros H. unfold Float64.standardize_pixel.
  destruct (Qeq_bool bound 0) eqn:E; [|reflexivity].
  exfalso. apply H. apply Qeq_bool_eq. exact E.
Qed.

(** X29.  For an image whose 90th percentile, as [np.percentile] returns
    it, is positive, and float operations that round monotonically,
    [_standardize_brightness] returns one whole number from 0 to 255 per
    pixel, sends every pixel at or below 0 to 0, and never gives a
    brighter pixel a smaller value than a darker one.  (A pixel at the
    percentile need not reach 255: the product and the quotient are
    rounded.) *)
Theorem brightness_keeps_order (input_image : list Q) (bound : Q) :
  monotone_rounding ops ->
  percentile input_image 90 = Ok bound ->
  0 < bound ->
  exists pixels,
    Float64._standardize_brightness ops percentile input_image = Ok pixels /\
    length pixels = length input_image /\
    forall i x, nth_error input_image i = Some x ->
      exists value,
        nth_error pixels i = Some (Some value) /\
        (0 <= value <= 255)%Z /\
        (x <= 0 -> value = 0%Z) /\
        (forall j y, nth_error input_image j = Some y -> x <= y ->
           exists value',
             nth_error pixels j = Some (Some value') /\ (value <= value')%Z).
Proof.
  intros Hops Hp Hb.
  assert (Hne : ~ bound == 0) by lra.
  unfold Float64._standardize_brightness. rewrite Hp. cbn [bind].
  eexists. split; [reflexivity|]. split; [apply length_map|].
  assert (Hpix : forall i x, nth_error input_image i = Some x ->
            nth_error (map (Float64.standardize_pixel ops bound) input_image) i
            = Some (Some (Qfloor (Stain.clip
                                    (Float64.div ops (Float64.mul ops x 255)
                                                 bound) 0 255)))).
  { intros i x Hx. rewrite nth_error_map, Hx. cbn [option_map].
    rewrite (float_standardize_pixel_nonzero x Hne). reflexivity. }
  intros i x Hx. eexists. split; [exact (Hpix i x Hx)|].
  destruct (@clip_range (Float64.div ops (Float64.mul ops x 255) bound) 0 255)
    as [Hlo Hhi]; [lra|].
  split; [split; [apply floor_above; exact Hlo | apply floor_below; exact Hhi]|].
  split.
  - intros Hx0. apply floor_of_whole. change (inject_Z 0) with 0.
    apply clip_low; [lra|].
    apply (float_div_nonpos Hops); [|assumption].
    apply (float_mul_nonpos Hops); [assumption | lra].
  - intros j y Hy Hxy. eexists. split; [exact (Hpix j y Hy)|].
    apply Qfloor_resp_le. unfold Stain.clip.
    apply Q.min_le_compat_r. apply Q.max_le_compat_r.
    destruct Hops as [_ [_ [_ [Hm [Hd _]]]]].
    apply Hd; [|assumption]. apply Hm; [assumption | lra].
Qed.

End FloatBrightness.

Lemma brightness_keeps_order_witness :
  exists pixels,
    Float64._standardize_brightness Float64.exact percentile_example
      [0; 128; 255] = Ok pixels /\
    length pixels = length [0; 128; 255] /\
    forall i x, nth_error [0; 128; 255] i = Some x ->
      exists value,
        nth_error pixels i = Some (Some value) /\
        (0 <= value <= 255)%Z /\
        (x <= 0 -> value = 0%Z) /\
        (forall j y, nth_error [0; 128; 255] j = Some y -> x <= y ->
           exists value',
             nth_error pixels j = Some (Some value') /\ (value <= value')%Z).
Proof.
  apply (@brightness_keeps_order Float64.exact percentile_example
           [0; 128; 255] (22960 # 100)).
  - exact exact_monotone_rounding.
  - vm_compute. reflexivity.
  - reflexivity.
Defined.

(* ===================================================================== *)
(** * Part V.  Per-class pooling and the number of classes                *)
(* ===================================================================== *)




